(** * Expiring pool (resenje.org/pool, expiring.go)

    A shallow embedding of the reference-counted, time-expiring pool
    [Expiring[T]] and of the priority queue it keeps its idle elements in,
    together with the properties of its public operations [Get], [Release],
    [Prune] and [Clear].

    Modelling choices, all taken from the source:
    - items are heap-allocated records shared by the map [m] and the slice
      [pq]; a pointer [*item] is a position in the allocation list [mem],
      so the aliasing between map and queue is explicit;
    - Go's [int] fields are integers in [Z]; [refCounter] wraps around at
      64 bits, slice indices are bounded by the slice and do not;
    - an index out of range or a nil dereference is a [Panic];
    - [time.Time] is an instant on the integer line, [Before] is [<];
    - the callbacks (constructor, destructor, nowFunc) act on an abstract
      environment [W], and every call of them is recorded in [calls]. *)

From stdpp Require Import gmap strings list fin_maps sorting.
From Stdlib Require Import ZArith Lia.

Open Scope Z_scope.

(** ** Results of running Go code *)

Inductive res (A : Type) : Type :=
| Ok (a : A)
| Panic
| OutOfFuel.
Arguments Ok {A} a.
Arguments Panic {A}.
Arguments OutOfFuel {A}.

#[global] Instance res_ret : MRet res := λ A a, Ok a.
#[global] Instance res_bind : MBind res := λ A B f r,
  match r with
  | Ok a => f a
  | Panic => Panic
  | OutOfFuel => OutOfFuel
  end.

(** ** Errors *)

(** Go's [error] values: a plain message ([errors.New]) or an error
    wrapping another one ([fmt.Errorf] with the verb [%w]). *)
Inductive error : Type :=
| errorString (s : string)
| wrapError (msg : string) (err : error).

Definition Error (e : error) : string :=
  match e with
  | errorString s => s
  | wrapError msg _ => msg
  end.

Definition Unwrap (e : error) : option error :=
  match e with
  | errorString _ => None
  | wrapError _ err => Some err
  end.

(** [fmt.Errorf("close %s: %w", k, err)] *)
Definition Errorf_close (k : string) (err : error) : error :=
  wrapError ("close " +:+ k +:+ ": " +:+ Error err) err.

#[global] Instance error_eq_dec : EqDecision error.
Proof. solve_decision. Defined.

(** ** Time and machine integers *)

Definition Time := Z.
Definition Duration := Z.
Definition Before (t u : Time) : bool := t <? u.
Definition Add (t : Time) (d : Duration) : Time := t + d.

(** The value of a 64-bit signed [int] after an arithmetic operation. *)
Definition wrap (x : Z) : Z := (x + 2 ^ 63) mod 2 ^ 64 - 2 ^ 63.

(** A slice read [l[i]]; out of range panics. *)
Definition idx {A} (l : list A) (i : Z) : res A :=
  if i <? 0 then Panic
  else match l !! Z.to_nat i with
       | Some x => Ok x
       | None => Panic
       end.

(** A pointer [*item] is a position in the list of allocated items. *)
Abbreviation ptr := nat (only parsing).

(** The zero value of a Go type. *)
Class Zero (T : Type) : Type := zero : T.

Section Pool.

Context {T W : Type} {zero_T : Zero T}.

(** ** Items and the priority queue *)

Record item : Type := Item {
  value : T;
  deadtime : Time;
  refCounter : Z;
  index : Z;
  key : string;
}.

Definition set_index (i : Z) (it : item) : item :=
  Item (value it) (deadtime it) (refCounter it) i (key it).
Definition set_refCounter (c : Z) (it : item) : item :=
  Item (value it) (deadtime it) c (index it) (key it).
Definition set_deadtime (d : Time) (it : item) : item :=
  Item (value it) d (refCounter it) (index it) (key it).

(** The part of the Go heap the pool uses: the allocated items and the
    slice of pointers [priorityQueue]. *)
Record pqueue : Type := PQ {
  mem : list item;
  pq : list ptr;
}.

(** Pointer dereference. *)
Definition load (p : ptr) (h : pqueue) : res item :=
  match mem h !! p with
  | Some it => Ok it
  | None => Panic
  end.

(** A field write through a pointer. *)
Definition store (p : ptr) (f : item → item) (h : pqueue) : res pqueue :=
  match mem h !! p with
  | Some it => Ok (PQ (<[p := f it]> (mem h)) (pq h))
  | None => Panic
  end.

Definition Len (h : pqueue) : Z := Z.of_nat (length (pq h)).

Definition Less (i j : Z) (h : pqueue) : res bool :=
  a ← idx (pq h) i;
  b ← idx (pq h) j;
  x ← load a h;
  y ← load b h;
  Ok (Before (deadtime x) (deadtime y)).

Definition Swap (i j : Z) (h : pqueue) : res pqueue :=
  a ← idx (pq h) i;
  b ← idx (pq h) j;
  let h1 := PQ (mem h) (<[Z.to_nat j := a]> (<[Z.to_nat i := b]> (pq h))) in
  x ← idx (pq h1) i;
  h2 ← store x (set_index i) h1;
  y ← idx (pq h2) j;
  store y (set_index j) h2.

Definition Push (x : ptr) (h : pqueue) : res pqueue :=
  let n := Len h in
  h1 ← store x (set_index n) h;
  Ok (PQ (mem h1) (pq h1 ++ [x])).

Definition Pop (h : pqueue) : res (ptr * pqueue) :=
  let n := Len h in
  i ← idx (pq h) (n - 1);
  h1 ← store i (set_index (-1)) h;
  Ok (i, PQ (mem h1) (take (Z.to_nat (n - 1)) (pq h1))).

(** ** container/heap

    The functions of Go's standard package [container/heap] that the pool
    calls, over the [heap.Interface] implemented just above ([heap_Push] is
    [heap.Push], and so on).  The loops of [up] and [down] take their
    iteration budget as [fuel]. *)
Fixpoint heap_up (fuel : nat) (j : Z) (h : pqueue) : res pqueue :=
  match fuel with
  | O => OutOfFuel
  | S fuel =>
    let i := (j - 1) ÷ 2 in
    if i =? j then Ok h
    else
      lt ← Less j i h;
      if negb (lt : bool) then Ok h
      else h1 ← Swap i j h; heap_up fuel i h1
  end.

Fixpoint heap_down_loop (fuel : nat) (i n : Z) (h : pqueue) : res (Z * pqueue) :=
  match fuel with
  | O => OutOfFuel
  | S fuel =>
    let j1 := 2 * i + 1 in
    if (n <=? j1) || (j1 <? 0) then Ok (i, h)
    else
      let j2 := j1 + 1 in
      r ← (if j2 <? n then Less j2 j1 h else Ok false);
      let j := if (r : bool) then j2 else j1 in
      lt ← Less j i h;
      if negb lt then Ok (i, h)
      else h1 ← Swap i j h; heap_down_loop fuel j n h1
  end.

Definition heap_down (i0 n : Z) (h : pqueue) : res (bool * pqueue) :=
  '(i, h1) ← heap_down_loop (S (Z.to_nat n)) i0 n h;
  Ok (i0 <? i, h1).

Definition heap_Push (x : ptr) (h : pqueue) : res pqueue :=
  h1 ← Push x h;
  heap_up (S (Z.to_nat (Len h1))) (Len h1 - 1) h1.

Definition heap_Pop (h : pqueue) : res (ptr * pqueue) :=
  let n := Len h - 1 in
  h1 ← Swap 0 n h;
  '(_, h2) ← heap_down 0 n h1;
  Pop h2.

Definition heap_Remove (i : Z) (h : pqueue) : res (ptr * pqueue) :=
  let n := Len h - 1 in
  h3 ← (if negb (n =? i) then
          h1 ← Swap i n h;
          '(moved, h2) ← heap_down i n h1;
          if negb moved then heap_up (S (Z.to_nat (Len h2))) i h2 else Ok h2
        else Ok h);
  Pop h3.


Definition remove (i : ptr) (h : pqueue) : res pqueue :=
  it ← load i h;
  if 0 <=? index it then '(_, h1) ← heap_Remove (index it) h; Ok h1
  else Ok h.

(** ** The pool *)

Inductive event : Type :=
| EvNow
| EvConstruct (k : string)
| EvDestruct (k : string) (v : T).

(** The pool [Expiring[T]]: its callbacks, [pq] and [m] (the items both
    point to are in [mem] of [hp]); the package variable [nowFunc]; the
    environment [env] the callbacks run in, and the [calls] made to them so
    far, oldest first.  A destructor that is [nil] is [None]; the
    constructor is taken to be a function (a [nil] one panics when [Get]
    calls it). *)
Record state : Type := State {
  constructor : string → W → (T * option error) * W;
  destructor : option (T → W → option error * W);
  nowFunc : W → Time * W;
  hp : pqueue;
  m : gmap string ptr;
  env : W;
  calls : list event;
}.

Definition set_hp (h : pqueue) (s : state) : state :=
  State (constructor s) (destructor s) (nowFunc s) h (m s) (env s) (calls s).
Definition set_m (m' : gmap string ptr) (s : state) : state :=
  State (constructor s) (destructor s) (nowFunc s) (hp s) m' (env s) (calls s).
Definition set_env (w : W) (s : state) : state :=
  State (constructor s) (destructor s) (nowFunc s) (hp s) (m s) w (calls s).
(** The environment after a callback has run, and the record of the call. *)
Definition call (e : event) (w : W) (s : state) : state :=
  State (constructor s) (destructor s) (nowFunc s) (hp s) (m s) w (calls s ++ [e]).

Definition NewExpiring
    (constructor : string → W → (T * option error) * W)
    (destructor : option (T → W → option error * W))
    (nowFunc : W → Time * W) (w : W) : state :=
  State constructor destructor nowFunc (PQ [] []) ∅ w [].

Fixpoint prune_loop (fuel : nat) (now : Time)
    (destructor : option (T → W → option error * W))
    (callback : string → state → state)
    (s : state) : res (option error * state) :=
  match fuel with
  | O => OutOfFuel
  | S fuel =>
    if 0 <? Len (hp s) then
      root ← idx (pq (hp s)) 0;
      r ← load root (hp s);
      if negb (Before (deadtime r) now) then Ok (None, s)
      else
        '(i, h1) ← heap_Pop (hp s);
        it ← load i h1;
        let s1 := callback (key it) (set_hp h1 s) in
        match destructor with
        | Some d =>
          let '(err, w) := d (value it) (env s1) in
          let s2 := call (EvDestruct (key it) (value it)) w s1 in
          match err with
          | Some e => Ok (Some e, s2)
          | None => prune_loop fuel now destructor callback s2
          end
        | None => prune_loop fuel now destructor callback s1
        end
    else Ok (None, s)
  end.

Definition prune (destructor : option (T → W → option error * W))
    (callback : string → state → state) (s : state)
    : res (option error * state) :=
  let '(now, w) := nowFunc s (env s) in
  let s0 := call EvNow w s in
  prune_loop (S (length (pq (hp s0)))) now destructor callback s0.

(** The closure [func(key string) { delete(p.m, key) }] of [Prune]. *)
Definition del_cb (k : string) (s : state) : state :=
  set_m (delete k (m s)) s.

Definition Prune (s : state) : res (option error * state) :=
  prune (destructor s) del_cb s.

Definition Get (k : string) (s : state) : res ((T * option error) * state) :=
  match m s !! k with
  | None =>
    '(err, s1) ← Prune s;
    match err with
    | Some e => Ok ((zero, Some e), s1)
    | None =>
      let '((v, cerr), w) := constructor s1 k (env s1) in
      let s2 := call (EvConstruct k) w s1 in
      match cerr with
      | Some e => Ok ((zero, Some e), s2)
      | None =>
        let i := length (mem (hp s2)) in
        let h := PQ (mem (hp s2) ++ [Item v 0 1 (-1) k]) (pq (hp s2)) in
        Ok ((v, None), set_m (<[k := i]> (m s2)) (set_hp h s2))
      end
    end
  | Some i =>
    it ← load i (hp s);
    h1 ← store i (set_refCounter (wrap (refCounter it + 1))) (hp s);
    h2 ← remove i h1;
    '(err, s1) ← Prune (set_hp h2 s);
    match err with
    | Some e => Ok ((zero, Some e), s1)
    | None => it1 ← load i (hp s1); Ok ((value it1, None), s1)
    end
  end.

Definition Release (k : string) (ttl : Duration) (s : state) : res state :=
  match m s !! k with
  | None => Ok s
  | Some i =>
    it ← load i (hp s);
    let c := wrap (refCounter it - 1) in
    h1 ← store i (set_refCounter c) (hp s);
    if c =? 0 then
      let '(now, w) := nowFunc s (env s) in
      h2 ← store i (set_deadtime (Add now ttl)) h1;
      h3 ← heap_Push i h2;
      Ok (call EvNow w (set_hp h3 s))
    else Ok (set_hp h1 s)
  end.

(** [for p.pq.Len() > 0 { heap.Pop(p.pq) }] *)
Fixpoint drain (fuel : nat) (h : pqueue) : res pqueue :=
  match fuel with
  | O => OutOfFuel
  | S fuel =>
    if 0 <? Len h then '(_, h1) ← heap_Pop h; drain fuel h1
    else Ok h
  end.

(** [for k, v := range p.m { ... }].  Go leaves the iteration order of a
    map open: [order] is the order in which the runtime presents the keys.
    A key that is no longer in the map when its turn comes is skipped. *)
Fixpoint clear_range (order : list string) (s : state) : res (option error * state) :=
  match order with
  | [] => Ok (None, s)
  | k :: order =>
    match m s !! k with
    | None => clear_range order s
    | Some v =>
      let s1 := set_m (delete k (m s)) s in
      match destructor s1 with
      | Some d =>
        it ← load v (hp s1);
        let '(err, w) := d (value it) (env s1) in
        let s2 := call (EvDestruct k (value it)) w s1 in
        match err with
        | Some e => Ok (Some (Errorf_close k e), s2)
        | None => clear_range order s2
        end
      | None => clear_range order s1
      end
    end
  end.

Definition Clear (order : list string) (s : state) : res (option error * state) :=
  h ← drain (S (length (pq (hp s)))) (hp s);
  clear_range order (set_hp h s).

(** ** Invariants of the queue *)

(** Two memories hold the same items up to their [index] fields, the only
    field the queue's own methods write. *)
Definition strip (it : item) : item := set_index 0 it.
Definition same_items (h h' : pqueue) : Prop :=
  strip <$> mem h = strip <$> mem h'.

(** The pointer at position [k] of the slice, if [k] is in range. *)
Definition pqz (h : pqueue) (k : Z) : option ptr :=
  if k <? 0 then None else pq h !! Z.to_nat k.

(** Every queued item records its own position, and every allocated item
    is either out of the queue with index [-1] or at the position its
    index gives. *)
Definition wfq (h : pqueue) : Prop :=
  (∀ k p, pqz h k = Some p → ∃ it, mem h !! p = Some it ∧ index it = k) ∧
  (∀ p it, mem h !! p = Some it →
     index it = -1 ∨ pqz h (index it) = Some p).

(** What a run of [Swap]s does to the queue: the same pointers in another
    order, the items unchanged but for their recorded positions. *)
Definition rearranged (h h' : pqueue) : Prop :=
  wfq h' ∧ same_items h h' ∧ Len h' = Len h ∧ (∀ q, q ∈ pq h' ↔ q ∈ pq h).

(** What taking the pointer [p] out of the queue does. *)
Definition removed (h : pqueue) (p : ptr) (h' : pqueue) : Prop :=
  wfq h' ∧ same_items h h' ∧ Len h' = Len h - 1 ∧
  (∀ q, q ∈ pq h ↔ q = p ∨ q ∈ pq h') ∧ (p ∉ pq h') ∧
  (∃ it, mem h' !! p = Some it ∧ index it = -1).

(** The deadline of the item behind a pointer and at a position. *)
Definition dtp (h : pqueue) (p : ptr) : Time :=
  from_option deadtime 0 (mem h !! p).
Definition dl (h : pqueue) (k : Z) : Time :=
  from_option (dtp h) 0 (pqz h k).

Definition parent (j : Z) : Z := (j - 1) ÷ 2.

(** The min-heap order on the positions below [n]. *)
Definition heap_le (f : Z → Z) (n : Z) : Prop :=
  ∀ k, 0 < k < n → f (parent k) ≤ f k.

Definition ordered (h : pqueue) : Prop := heap_le (dl h) (Len h).

(** The heap order but for the item at position [i], which may be out of
    place with respect to its parent and to its children; the items below
    it are no smaller than the item above it. *)
Definition hole_inv (f : Z → Z) (n i : Z) : Prop :=
  (∀ k, 0 < k < n → k ≠ i → parent k ≠ i → f (parent k) ≤ f k) ∧
  (∀ k, 0 < k < n → parent k = i → 0 < i → f (parent i) ≤ f k).
Definition child_ok (f : Z → Z) (n i : Z) : Prop :=
  ∀ k, 0 < k < n → parent k = i → f i ≤ f k.
Definition parent_ok (f : Z → Z) (n i : Z) : Prop :=
  0 < i < n → f (parent i) ≤ f i.
(** The loop invariants of [up] and [down]. *)
Definition up_inv (f : Z → Z) (n j : Z) : Prop :=
  hole_inv f n j ∧ child_ok f n j.
Definition down_inv (f : Z → Z) (n i : Z) : Prop :=
  hole_inv f n i ∧ parent_ok f n i.

(** Positions [i] and [j] exchanged. *)
Definition tr (i j k : Z) : Z :=
  if k =? i then j else if k =? j then i else k.

(** ** Invariants of the pool *)

(** The map and the queue point to the same items: a key is mapped to an
    item carrying that key, and a queued item is the one its key is mapped
    to. *)
Definition linked (s : state) : Prop :=
  (∀ k p, m s !! k = Some p → ∃ it, mem (hp s) !! p = Some it ∧ key it = k) ∧
  (∀ p, p ∈ pq (hp s) →
     ∃ it, mem (hp s) !! p = Some it ∧ m s !! key it = Some p).

Definition Inv (s : state) : Prop :=
  wfq (hp s) ∧ ordered (hp s) ∧ linked s.

(** After [n] operations no counter is beyond [n] in absolute value, and
    the counter of a queued item is not positive. *)
Definition counted (n : Z) (s : state) : Prop :=
  ∀ p it, mem (hp s) !! p = Some it →
    - n ≤ refCounter it ≤ n ∧ (p ∈ pq (hp s) → refCounter it ≤ 0).

(** The destructor calls made for the items [popped], in order. *)
Definition destroys (h : pqueue) (popped : list ptr) (evs : list event) : Prop :=
  Forall2 (λ p e, ∃ it, mem h !! p = Some it ∧
                        e = EvDestruct (key it) (value it)) popped evs.

(** What the loop of [prune] does from [s] when it ends in [s'] with the
    result [err], having taken the items [popped] out of the queue. *)
Record pruned (now : Time) (s : state) (err : option error) (s' : state)
    (popped : list ptr) : Prop := Pruned {
  pruned_Inv : Inv s';
  pruned_items : same_items (hp s) (hp s');
  pruned_pq : ∀ q, q ∈ pq (hp s) ↔ q ∈ popped ∨ q ∈ pq (hp s');
  pruned_out : ∀ q, q ∈ popped → q ∉ pq (hp s');
  pruned_NoDup : NoDup popped;
  pruned_m : ∀ k p, m s' !! k = Some p ↔ m s !! k = Some p ∧ p ∉ popped;
  pruned_sorted : StronglySorted Z.le (dtp (hp s) <$> popped);
  pruned_expired : Forall (λ p, dtp (hp s) p < now) popped;
  pruned_calls : ∃ evs, calls s' = calls s ++ evs ∧
    match destructor s with
    | Some _ => destroys (hp s) popped evs
    | None => evs = []
    end;
  pruned_cfg : constructor s' = constructor s ∧ destructor s' = destructor s ∧
               nowFunc s' = nowFunc s;
  pruned_rest : err = None → ∀ q, q ∈ pq (hp s') → now ≤ dtp (hp s) q;
}.

(** The callbacks of the pool are the same in both states. *)
Definition same_cfg (s s' : state) : Prop :=
  constructor s' = constructor s ∧ destructor s' = destructor s ∧
  nowFunc s' = nowFunc s.

(** What [Clear] does from [s] when it ends in [s'] with the result [err]:
    [done] are the keys it took out of the map, in order, and [evs] the
    destructor calls it made. *)
Record cleared (s : state) (order : list string) (err : option error)
    (s' : state) (done : list string) (evs : list event) : Prop := Cleared {
  cleared_prefix : ∃ rest, order = done ++ rest;
  cleared_m : ∀ k, m s' !! k = if decide (k ∈ done) then None else m s !! k;
  cleared_calls : calls s' = calls s ++ evs;
  cleared_evs :
    match destructor s with
    | Some _ =>
      Forall2 (λ k e, ∃ p it, m s !! k = Some p ∧ mem (hp s) !! p = Some it ∧
                              e = EvDestruct k (value it)) done evs
    | None => evs = []
    end;
  cleared_cfg : constructor s' = constructor s ∧ destructor s' = destructor s ∧
                nowFunc s' = nowFunc s;
  cleared_err :
    match err with
    | None => done = order
    | Some e =>
      ∃ d k p it w e', destructor s = Some d ∧ last done = Some k ∧
        m s !! k = Some p ∧ mem (hp s) !! p = Some it ∧
        (d (value it) w).1 = Some e' ∧ e = Errorf_close k e'
    end;
}.

(** The loop of [prune] has nothing to do at the reading [now]: the queue
    is empty, or its root is not due. *)
Definition quiet (now : Time) (h : pqueue) : Prop :=
  Len h ≤ 0 ∨
  ∃ root r, idx (pq h) 0 = Ok root ∧ load root h = Ok r ∧
            Before (deadtime r) now = false.

(** ** Histories of the pool *)



Inductive op : Type :=
| OpGet (k : string)
| OpRelease (k : string) (ttl : Duration)
| OpPrune
| OpClear (order : list string).

(** An order in which [range] may present the keys of the map: each key
    once. *)
Definition range_order (order : list string) (s : state) : Prop :=
  NoDup order ∧ ∀ k, k ∈ order ↔ is_Some (m s !! k).

Definition run_op (o : op) (s : state) : res state :=
  match o with
  | OpGet k => '(_, s1) ← Get k s; Ok s1
  | OpRelease k ttl => Release k ttl s
  | OpPrune => '(_, s1) ← Prune s; Ok s1
  | OpClear order => '(_, s1) ← Clear order s; Ok s1
  end.

Definition op_ok (o : op) (s : state) : Prop :=
  match o with
  | OpClear order => range_order order s
  | _ => True
  end.

(** A history: before each operation the environment is what the outside
    world made of it. *)
Fixpoint run_ops (ops : list (W * op)) (s : state) : res state :=
  match ops with
  | [] => Ok s
  | (w, o) :: ops => s1 ← run_op o (set_env w s); run_ops ops s1
  end.

Fixpoint ops_ok (ops : list (W * op)) (s : state) : Prop :=
  match ops with
  | [] => True
  | (w, o) :: ops =>
    op_ok o s ∧
    match run_op o (set_env w s) with
    | Ok s1 => ops_ok ops s1
    | _ => False
    end
  end.

(** The operations that can put the item of the key [k] back in the queue
    or take it out of the map when it is out of the queue: a [Release] of
    the key, or a [Clear]. *)
Definition touches (k : string) (o : op) : Prop :=
  match o with
  | OpRelease k' _ => k' = k
  | OpClear _ => True
  | _ => False
  end.

(** The same when the counter of the item is not positive: a [Get] of
    the key has to come first. *)
Definition revives (k : string) (o : op) : Prop :=
  match o with
  | OpGet k' => k' = k
  | OpClear _ => True
  | _ => False
  end.

(** The key [k] is mapped to the item [p], which is out of the queue. *)
Definition parked (k : string) (p : ptr) (s : state) : Prop :=
  m s !! k = Some p ∧ p ∉ pq (hp s).

(** Every item allocated in [s] is still there in [s'], with its value and
    its key. *)
Definition kept_values (s s' : state) : Prop :=
  ∀ p it, mem (hp s) !! p = Some it →
    ∃ it', mem (hp s') !! p = Some it' ∧ value it' = value it ∧ key it' = key it.

(** The states of a pool made by [NewExpiring] after [n] public
    operations; between two operations the environment moves on freely
    (time passes). *)
Inductive reach (c : string → W → (T * option error) * W)
    (d : option (T → W → option error * W)) (f : W → Time * W)
    : nat → state → Prop :=
| reach_new w : reach c d f 0 (NewExpiring c d f w)
| reach_op n s w o s' :
    reach c d f n s → op_ok o s → run_op o (set_env w s) = Ok s' →
    reach c d f (S n) s'.

End Pool.

Arguments item T : clear implicits.
Arguments pqueue T : clear implicits.
Arguments event T : clear implicits.
Arguments state T W : clear implicits.

(** * The earlier revision of [prune]

    In the earlier revision of the package the loop of [prune] decides by
    the item [peek] returns, the last one of the slice, and not by the
    root. *)
Module Earlier.
Section Earlier.

Context {T W : Type}.

(** [peek]: [nil] on the empty slice, [pq[l-1]] otherwise. *)
Definition peek (h : pqueue T) : res (option ptr) :=
  if Len h =? 0 then Ok None
  else p ← idx (pq h) (Len h - 1); Ok (Some p).

(** [for i := pq.peek(); i != nil && i.deadtime.Before(now); i = pq.peek()].
    The test [if i == nil { break }] in the body is never true: the
    condition of the loop has just found [i] not to be [nil]. *)
Fixpoint prune_loop (fuel : nat) (now : Time)
    (f : option (T → W → option error * W))
    (cb : string → state T W → state T W)
    (s : state T W) : res (option error * state T W) :=
  match fuel with
  | O => OutOfFuel
  | S fuel =>
    i ← peek (hp s);
    match i with
    | None => Ok (None, s)
    | Some i =>
      r ← load i (hp s);
      if negb (Before (deadtime r) now) then Ok (None, s)
      else
        '(v, h1) ← heap_Pop (hp s);
        it ← load v h1;
        let s1 := cb (key it) (set_hp h1 s) in
        match f with
        | Some d =>
          let '(err, w) := d (value it) (env s1) in
          let s2 := call (EvDestruct (key it) (value it)) w s1 in
          match err with
          | Some e => Ok (Some e, s2)
          | None => prune_loop fuel now f cb s2
          end
        | None => prune_loop fuel now f cb s1
        end
    end
  end.

Definition prune (f : option (T → W → option error * W))
    (cb : string → state T W → state T W) (s : state T W)
    : res (option error * state T W) :=
  let '(now, w) := nowFunc s (env s) in
  let s0 := call EvNow w s in
  prune_loop (S (length (pq (hp s0)))) now f cb s0.

Definition Prune (s : state T W) : res (option error * state T W) :=
  prune (destructor s) del_cb s.

End Earlier.
End Earlier.

(** * A pool of strings under a settable clock

    A pool like the one of the package's tests: the value of a key is the
    key itself, the environment is the reading of the clock.  In addition
    the constructor fails for the key ["bad"] and the destructor for the
    value ["a"]. *)
Module Ex.

#[global] Instance zero_string : Zero string := EmptyString.

Definition ctor (k : string) (w : Z) : (string * option error) * Z :=
  if String.eqb k "bad" then ((zero, Some (errorString "no such thing")), w)
  else ((k, None), w).

Definition dtor : option (string → Z → option error * Z) :=
  Some (λ v w, (if String.eqb v "a" then Some (errorString "boom") else None, w)).

Definition now (w : Z) : Time * Z := (w, w).

Definition new : state string Z := NewExpiring ctor dtor now 0.

(** The state a history leaves, the initial one if it does not return. *)
Definition after (ops : list (Z * op)) : state string Z :=
  match run_ops ops new with
  | Ok s => s
  | _ => new
  end.

(** The item of a key, if the key is tracked. *)
Definition item_of (s : state string Z) (k : string) : option (item string) :=
  p ← m s !! k; mem (hp s) !! p.

End Ex.

(** * Properties *)

Section Properties.

Context {T W : Type} {zero_T : Zero T}.

Implicit Types (h : pqueue T) (s : state T W) (it : item T) (p q : ptr).

(** ** Basic facts *)

Lemma bind_Ok {A B} (r : res A) (f : A → res B) b :
  r ≫= f = Ok b → ∃ a, r = Ok a ∧ f a = Ok b.
Proof. destruct r; simpl; eauto; discriminate. Qed.

Lemma res_bind_Ok {A B} (a : A) (f : A → res B) : Ok a ≫= f = f a.
Proof. done. Qed.

Lemma idx_pqz h k : idx (pq h) k = from_option Ok Panic (pqz h k).
Proof.
  unfold idx, pqz. destruct (k <? 0); [done|].
  by destruct (pq h !! Z.to_nat k).
Qed.

Lemma pqz_range h k p : pqz h k = Some p → 0 ≤ k < Len h.
Proof.
  unfold pqz, Len. destruct (Z.ltb_spec k 0); [done|].
  intros Hl%lookup_lt_Some. lia.
Qed.

Lemma pqz_is_Some h k : 0 ≤ k < Len h → is_Some (pqz h k).
Proof.
  unfold pqz, Len. intros Hk. destruct (Z.ltb_spec k 0); [lia|].
  apply lookup_lt_is_Some. lia.
Qed.

Lemma pqz_elem h k p : pqz h k = Some p → p ∈ pq h.
Proof.
  unfold pqz. destruct (k <? 0); [done|]. apply list_elem_of_lookup_2.
Qed.

Lemma elem_pqz h p : p ∈ pq h → ∃ k, pqz h k = Some p.
Proof.
  intros [n Hn]%list_elem_of_lookup. exists (Z.of_nat n).
  unfold pqz. destruct (Z.ltb_spec (Z.of_nat n) 0); [lia|].
  by rewrite Nat2Z.id.
Qed.

Lemma pqz_nat h (n : nat) : pqz h (Z.of_nat n) = pq h !! n.
Proof.
  unfold pqz. destruct (Z.ltb_spec (Z.of_nat n) 0); [lia|].
  by rewrite Nat2Z.id.
Qed.

Lemma wfq_inj h k1 k2 p :
  wfq h → pqz h k1 = Some p → pqz h k2 = Some p → k1 = k2.
Proof.
  intros [H1 _] Ha Hb.
  destruct (H1 _ _ Ha) as (it & Hit & <-).
  destruct (H1 _ _ Hb) as (it' & Hit' & <-). congruence.
Qed.

Lemma wfq_NoDup h : wfq h → NoDup (pq h).
Proof.
  intros Hw. apply NoDup_alt. intros i j x Hi Hj.
  rewrite <- pqz_nat in Hi, Hj.
  pose proof (wfq_inj _ _ _ _ Hw Hi Hj). lia.
Qed.

Lemma wfq_not_queued h p it :
  wfq h → mem h !! p = Some it → index it = -1 → p ∉ pq h.
Proof.
  intros [H1 _] Hit Hi [k Hk]%elem_pqz.
  destruct (H1 _ _ Hk) as (it' & Hit' & Hidx).
  apply pqz_range in Hk. simplify_eq. lia.
Qed.

Lemma same_items_refl h : same_items h h.
Proof. done. Qed.

Lemma same_items_trans h1 h2 h3 :
  same_items h1 h2 → same_items h2 h3 → same_items h1 h3.
Proof. unfold same_items. congruence. Qed.

Lemma same_items_lookup h h' p :
  same_items h h' → strip <$> (mem h !! p) = strip <$> (mem h' !! p).
Proof. unfold same_items. intros E. by rewrite <- !list_lookup_fmap, E. Qed.

Lemma same_items_length h h' :
  same_items h h' → length (mem h) = length (mem h').
Proof.
  unfold same_items. intros E.
  by rewrite <- (length_fmap strip (mem h)), E, length_fmap.
Qed.

Lemma same_items_Some h h' p it :
  same_items h h' → mem h !! p = Some it →
  ∃ it', mem h' !! p = Some it' ∧ strip it' = strip it.
Proof.
  intros E%(same_items_lookup _ _ p) Hit. rewrite Hit in E.
  destruct (mem h' !! p) as [it'|]; simpl in E; [|done].
  exists it'. split; congruence.
Qed.

Lemma strip_fields it it' :
  strip it' = strip it →
  value it' = value it ∧ deadtime it' = deadtime it ∧
  refCounter it' = refCounter it ∧ key it' = key it.
Proof. destruct it, it'. unfold strip, set_index. simpl. naive_solver. Qed.

Lemma same_items_dtp h h' p : same_items h h' → dtp h' p = dtp h p.
Proof.
  intros E. unfold dtp. destruct (mem h !! p) as [it|] eqn:Hit.
  - destruct (same_items_Some _ _ _ _ E Hit) as (it' & -> & Hs).
    simpl. by apply strip_fields.
  - apply (same_items_lookup _ _ p) in E. rewrite Hit in E.
    by destruct (mem h' !! p).
Qed.

Lemma same_items_store h p f it :
  mem h !! p = Some it → strip (f it) = strip it →
  same_items h (PQ (<[p := f it]> (mem h)) (pq h)).
Proof.
  intros Hit Hf. unfold same_items. simpl.
  rewrite list_fmap_insert, Hf.
  symmetry. apply list_insert_id. by rewrite list_lookup_fmap, Hit.
Qed.

(** ** The methods of [priorityQueue] *)

Lemma store_Ok h p f it :
  mem h !! p = Some it → store p f h = Ok (PQ (<[p := f it]> (mem h)) (pq h)).
Proof. unfold store. by intros ->. Qed.

Lemma load_Ok h p it : mem h !! p = Some it → load p h = Ok it.
Proof. unfold load. by intros ->. Qed.

Lemma wfq_at h k : wfq h → 0 ≤ k < Len h →
  ∃ p it, pqz h k = Some p ∧ mem h !! p = Some it ∧ index it = k.
Proof.
  intros Hw Hk. destruct (pqz_is_Some _ _ Hk) as [p Hp].
  destruct (proj1 Hw _ _ Hp) as (it & Hit & Hi). eauto.
Qed.

Lemma dl_at h k p it :
  pqz h k = Some p → mem h !! p = Some it → dl h k = deadtime it.
Proof. intros Hp Hit. unfold dl, dtp. by rewrite Hp; simpl; rewrite Hit. Qed.

Lemma Less_spec h i j :
  wfq h → 0 ≤ i < Len h → 0 ≤ j < Len h →
  Less i j h = Ok (dl h i <? dl h j).
Proof.
  intros Hw Hi Hj.
  destruct (wfq_at _ _ Hw Hi) as (a & ita & Ha & Hita & _).
  destruct (wfq_at _ _ Hw Hj) as (b & itb & Hb & Hitb & _).
  unfold Less, load. rewrite !idx_pqz, Ha, Hb. simpl.
  rewrite Hita, Hitb. simpl.
  by rewrite (dl_at _ _ _ _ Ha Hita), (dl_at _ _ _ _ Hb Hitb).
Qed.

Lemma tr_invol i j k : tr i j (tr i j k) = k.
Proof. unfold tr. repeat case_match; lia. Qed.

Lemma Swap_same h i :
  wfq h → 0 ≤ i < Len h → Swap i i h = Ok h.
Proof.
  intros Hw Hi.
  destruct (wfq_at _ _ Hw Hi) as (a & it & Ha & Hit & Hidx).
  assert (Hn : pq h !! Z.to_nat i = Some a).
  { revert Ha. unfold pqz. destruct (Z.ltb_spec i 0); [lia|done]. }
  unfold Swap. rewrite idx_pqz, Ha. simpl.
  rewrite !(list_insert_id _ _ _ Hn).
  assert (He : PQ (mem h) (pq h) = h) by by destruct h.
  rewrite He, idx_pqz, Ha. simpl.
  assert (Hst : store a (set_index i) h = Ok h).
  { unfold store. rewrite Hit. f_equal.
    replace (set_index i it) with it by (destruct it; simpl in *; by subst).
    by rewrite (list_insert_id _ _ _ Hit). }
  rewrite Hst. simpl. by rewrite idx_pqz, Ha.
Qed.

Lemma Swap_spec h i j :
  wfq h → 0 ≤ i < Len h → 0 ≤ j < Len h →
  ∃ h', Swap i j h = Ok h' ∧ wfq h' ∧ same_items h h' ∧ Len h' = Len h ∧
        ∀ k, pqz h' k = pqz h (tr i j k).
Proof.
  intros Hw Hi Hj. destruct (decide (i = j)) as [->|Hne].
  { exists h. rewrite Swap_same by done. repeat split; try done; try apply Hw.
    intros k. unfold tr. destruct (Z.eqb_spec k j); by subst. }
  destruct (wfq_at _ _ Hw Hi) as (a & ita & Ha & Hita & Hia).
  destruct (wfq_at _ _ Hw Hj) as (b & itb & Hb & Hitb & Hib).
  assert (Hab : a ≠ b).
  { intros ->. apply Hne. eapply wfq_inj; eauto. }
  assert (Hlen : Len h = Z.of_nat (length (pq h))) by done.
  assert (Hna : pq h !! Z.to_nat i = Some a).
  { revert Ha. unfold pqz. destruct (Z.ltb_spec i 0); [lia|done]. }
  assert (Hnb : pq h !! Z.to_nat j = Some b).
  { revert Hb. unfold pqz. destruct (Z.ltb_spec j 0); [lia|done]. }
  set (q1 := <[Z.to_nat j := a]> (<[Z.to_nat i := b]> (pq h))).
  assert (Hq1 : ∀ k, pqz (PQ (mem h) q1) k = pqz h (tr i j k)).
  { intros k. unfold pqz, tr. simpl. destruct (Z.ltb_spec k 0).
    - repeat case_match; try lia; done.
    - unfold q1. destruct (Z.eqb_spec k i) as [->|Hki].
      + destruct (Z.ltb_spec j 0); [lia|].
        rewrite list_lookup_insert_ne by lia.
        rewrite list_lookup_insert_eq by lia. done.
      + destruct (Z.eqb_spec k j) as [->|Hkj].
        * destruct (Z.ltb_spec i 0); [lia|].
          rewrite list_lookup_insert_eq by (rewrite length_insert; lia). done.
        * destruct (Z.ltb_spec k 0); [lia|].
          rewrite !list_lookup_insert_ne by lia. done. }
  set (m2 := <[b := set_index i itb]> (mem h)).
  set (m3 := <[a := set_index j ita]> m2).
  assert (Hm2a : m2 !! a = Some ita).
  { unfold m2. by rewrite list_lookup_insert_ne. }
  exists (PQ m3 q1). split; [|split; [|split; [|split]]].
  - assert (Hq1i : idx q1 i = Ok b).
    { change (idx q1 i) with (idx (pq (PQ (mem h) q1)) i).
      rewrite idx_pqz, Hq1. unfold tr. by rewrite Z.eqb_refl, Hb. }
    assert (Hq1j : idx q1 j = Ok a).
    { change (idx q1 j) with (idx (pq (PQ (mem h) q1)) j).
      rewrite idx_pqz, Hq1. unfold tr. destruct (Z.eqb_spec j i); [lia|].
      by rewrite Z.eqb_refl, Ha. }
    unfold Swap. rewrite !idx_pqz, Ha, Hb. simpl. fold q1.
    rewrite Hq1i. simpl.
    rewrite (store_Ok (PQ (mem h) q1) b _ itb) by done. simpl. fold m2.
    rewrite Hq1j. simpl.
    by rewrite (store_Ok (PQ m2 q1) a _ ita).
  - split.
    + intros k p Hp.
      replace (pqz (PQ m3 q1) k) with (pqz (PQ (mem h) q1) k) in Hp by done.
      rewrite Hq1 in Hp. simpl. unfold tr in Hp.
      destruct (Z.eqb_spec k i) as [->|Hki]; [|destruct (Z.eqb_spec k j) as [->|Hkj]].
      * assert (p = b) as -> by congruence.
        exists (set_index i itb). split; [|done].
        unfold m3, m2. rewrite list_lookup_insert_ne by done.
        apply list_lookup_insert_eq. by eapply lookup_lt_Some.
      * assert (p = a) as -> by congruence.
        exists (set_index j ita). split; [|done].
        unfold m3. apply list_lookup_insert_eq. by eapply lookup_lt_Some.
      * destruct (proj1 Hw _ _ Hp) as (it & Hit & Hidx).
        exists it. split; [|done].
        assert (p ≠ a) by (intros ->; apply Hki; eapply wfq_inj; eauto).
        assert (p ≠ b) by (intros ->; apply Hkj; eapply wfq_inj; eauto).
        unfold m3, m2. by rewrite !list_lookup_insert_ne.
    + intros p it Hit. simpl in Hit.
      replace (pqz (PQ m3 q1) (index it)) with (pqz (PQ (mem h) q1) (index it)) by done.
      rewrite Hq1.
      destruct (decide (p = a)) as [->|Hpa]; [|destruct (decide (p = b)) as [->|Hpb]].
      * unfold m3 in Hit. rewrite list_lookup_insert_eq in Hit by by eapply lookup_lt_Some.
        injection Hit as <-. simpl. right. unfold tr.
        destruct (Z.eqb_spec j i); [lia|]. by rewrite Z.eqb_refl.
      * unfold m3, m2 in Hit. rewrite list_lookup_insert_ne in Hit by done.
        rewrite list_lookup_insert_eq in Hit by by eapply lookup_lt_Some.
        injection Hit as <-. simpl. right. unfold tr. by rewrite Z.eqb_refl.
      * unfold m3, m2 in Hit. rewrite !list_lookup_insert_ne in Hit by done.
        destruct (proj2 Hw _ _ Hit) as [?|Hq]; [by left|right].
        unfold tr.
        destruct (Z.eqb_spec (index it) i) as [E|?]; [rewrite E in Hq; congruence|].
        destruct (Z.eqb_spec (index it) j) as [E|?]; [rewrite E in Hq; congruence|].
        done.
  - eapply same_items_trans.
    + apply (same_items_store h b (set_index i) itb Hitb). by destruct itb.
    + apply (same_items_store (PQ m2 (pq h)) a (set_index j) ita Hm2a). by destruct ita.
  - unfold Len, q1. simpl. by rewrite !length_insert.
  - done.
Qed.

Lemma tr_elem h h' i j :
  (∀ k, pqz h' k = pqz h (tr i j k)) → ∀ q, q ∈ pq h' ↔ q ∈ pq h.
Proof.
  intros Hq q. split; intros [k Hk]%elem_pqz.
  - rewrite Hq in Hk. by eapply pqz_elem.
  - apply (pqz_elem h' (tr i j k)). by rewrite Hq, tr_invol.
Qed.

Lemma tr_dl h h' i j :
  same_items h h' → (∀ k, pqz h' k = pqz h (tr i j k)) →
  ∀ k, dl h' k = dl h (tr i j k).
Proof.
  intros Hs Hq k. unfold dl. rewrite Hq.
  destruct (pqz h (tr i j k)); simpl; [|done]. by apply same_items_dtp.
Qed.

Lemma Push_spec h x it :
  wfq h → mem h !! x = Some it → index it = -1 →
  ∃ h', Push x h = Ok h' ∧ wfq h' ∧ same_items h h' ∧ Len h' = Len h + 1 ∧
        (∀ k, pqz h' k = if k =? Len h then Some x else pqz h k) ∧
        pq h' = pq h ++ [x].
Proof.
  intros Hw Hit Hidx.
  set (h' := PQ (<[x := set_index (Len h) it]> (mem h)) (pq h ++ [x])).
  assert (Hq : ∀ k, pqz h' k = if k =? Len h then Some x else pqz h k).
  { intros k. unfold pqz, Len, h'. simpl.
    destruct (Z.ltb_spec k 0), (Z.eqb_spec k (Z.of_nat (length (pq h)))); try lia; try done.
    - replace (Z.to_nat k) with (length (pq h) + 0)%nat by lia.
      by rewrite lookup_app_r, Nat.add_comm, Nat.add_sub by lia.
    - destruct (decide (Z.to_nat k < length (pq h))%nat).
      + by rewrite lookup_app_l.
      + rewrite !lookup_ge_None_2; [done|lia|rewrite length_app; simpl; lia]. }
  exists h'. split; [|split; [|split; [|split; [|split]]]]; [| | | |done..].
  - unfold Push. by rewrite (store_Ok _ _ _ _ Hit).
  - split.
    + intros k p Hp. rewrite Hq in Hp.
      destruct (Z.eqb_spec k (Len h)) as [->|Hk].
      * injection Hp as <-. exists (set_index (Len h) it). split; [|done].
        apply list_lookup_insert_eq. by eapply lookup_lt_Some.
      * destruct (proj1 Hw _ _ Hp) as (it' & Hit' & Hi'). exists it'.
        split; [|done]. simpl. rewrite list_lookup_insert_ne; [done|].
        intros E. apply (wfq_not_queued h x it Hw Hit Hidx).
        subst. by eapply pqz_elem.
    + intros p it' Hit'. simpl in Hit'. rewrite Hq.
      destruct (decide (p = x)) as [->|Hpx].
      * rewrite list_lookup_insert_eq in Hit' by by eapply lookup_lt_Some.
        injection Hit' as <-. simpl. right. by rewrite Z.eqb_refl.
      * rewrite list_lookup_insert_ne in Hit' by done.
        destruct (proj2 Hw _ _ Hit') as [?|Hp]; [by left|right].
        pose proof (pqz_range _ _ _ Hp).
        by destruct (Z.eqb_spec (index it') (Len h)); [lia|].
  - apply (same_items_store h x (set_index (Len h)) it Hit). by destruct it.
  - unfold Len, h'. simpl. rewrite length_app. simpl. lia.
Qed.

Lemma Pop_spec h :
  wfq h → 0 < Len h →
  ∃ p h', Pop h = Ok (p, h') ∧ pqz h (Len h - 1) = Some p ∧
          wfq h' ∧ same_items h h' ∧ Len h' = Len h - 1 ∧
          (∀ k, pqz h' k = if k <? Len h - 1 then pqz h k else None) ∧
          (∃ it, mem h' !! p = Some it ∧ index it = -1) ∧
          pq h = pq h' ++ [p].
Proof.
  intros Hw Hn.
  destruct (wfq_at h (Len h - 1) Hw) as (p & it & Hp & Hit & Hidx); [lia|].
  set (h' := PQ (<[p := set_index (-1) it]> (mem h))
                (take (Z.to_nat (Len h - 1)) (pq h))).
  assert (Hq : ∀ k, pqz h' k = if k <? Len h - 1 then pqz h k else None).
  { intros k. unfold pqz, h'. simpl.
    destruct (Z.ltb_spec k 0), (Z.ltb_spec k (Len h - 1)); try lia; try done.
    - by rewrite lookup_take_lt by lia.
    - by rewrite lookup_take_ge by lia. }
  assert (Hpit : mem h' !! p = Some (set_index (-1) it)).
  { apply list_lookup_insert_eq. by eapply lookup_lt_Some. }
  exists p, h'. split; [|split; [done|split; [|split; [|split; [|split; [|split]]]]]].
  - unfold Pop. rewrite idx_pqz, Hp. simpl. by rewrite (store_Ok _ _ _ _ Hit).
  - split.
    + intros k q Hk. rewrite Hq in Hk.
      destruct (Z.ltb_spec k (Len h - 1)); [|done].
      destruct (proj1 Hw _ _ Hk) as (it' & Hit' & Hi'). exists it'.
      split; [|done]. simpl. rewrite list_lookup_insert_ne; [done|].
      intros ->. pose proof (wfq_inj _ _ _ _ Hw Hp Hk). lia.
    + intros q it' Hit'. rewrite Hq.
      destruct (decide (q = p)) as [->|Hqp].
      * rewrite Hpit in Hit'. injection Hit' as <-. by left.
      * simpl in Hit'. rewrite list_lookup_insert_ne in Hit' by done.
        destruct (proj2 Hw _ _ Hit') as [?|Hk]; [by left|right].
        destruct (Z.ltb_spec (index it') (Len h - 1)); [done|].
        pose proof (pqz_range _ _ _ Hk).
        assert (index it' = Len h - 1) as E by lia.
        rewrite E in Hk. congruence.
  - apply (same_items_store h p (set_index (-1)) it Hit). by destruct it.
  - unfold Len, h'. simpl. rewrite length_take. unfold Len in *. lia.
  - done.
  - eauto.
  - unfold h'. simpl. revert Hp. unfold pqz, Len in *.
    destruct (Z.ltb_spec (Z.of_nat (length (pq h)) - 1) 0); [done|]. intros Hp.
    rewrite <- (take_S_r _ _ _ Hp). symmetry. apply take_ge. lia.
Qed.

(** ** The heap order under [up] and [down] *)

Lemma parent_lt k : 0 < k → 0 ≤ parent k < k.
Proof.
  intros Hk. unfold parent. rewrite Z.quot_div_nonneg by lia. split.
  - apply Z.div_pos; lia.
  - apply Z.div_lt_upper_bound; lia.
Qed.

Lemma parent_children i k :
  0 < k → parent k = i → k = 2 * i + 1 ∨ k = 2 * i + 2.
Proof.
  intros Hk <-. unfold parent. rewrite Z.quot_div_nonneg by lia.
  pose proof (Z.div_mod (k - 1) 2 ltac:(lia)).
  pose proof (Z.mod_pos_bound (k - 1) 2 ltac:(lia)). lia.
Qed.

Lemma parent_left i : 0 ≤ i → parent (2 * i + 1) = i.
Proof.
  intros Hi. unfold parent. rewrite Z.quot_div_nonneg by lia.
  replace (2 * i + 1 - 1) with (i * 2) by lia. by apply Z.div_mul.
Qed.

Lemma parent_right i : 0 ≤ i → parent (2 * i + 2) = i.
Proof.
  intros Hi. unfold parent. rewrite Z.quot_div_nonneg by lia.
  replace (2 * i + 2 - 1) with (1 + i * 2) by lia.
  rewrite Z.div_add by lia. done.
Qed.

Lemma parent_0 : parent 0 = 0.
Proof. done. Qed.

Lemma heap_le_of f n i :
  hole_inv f n i → child_ok f n i → parent_ok f n i → heap_le f n.
Proof.
  intros [Ha _] Hc Hp k Hk.
  destruct (decide (k = i)) as [->|Hki]; [by apply Hp|].
  destruct (decide (parent k = i)) as [E|Hpk]; [|by apply Ha].
  rewrite E. by apply Hc.
Qed.

Lemma heap_le_hole f n i : heap_le f n → 0 ≤ i → hole_inv f n i.
Proof.
  intros Hh Hi. split; [intros k Hk _ _; by apply Hh|].
  intros k Hk Hpk Hi0. pose proof (parent_lt k ltac:(lia)).
  transitivity (f i); [apply Hh; lia|]. rewrite <- Hpk. by apply Hh.
Qed.

Lemma tr_other i j k : k ≠ i → k ≠ j → tr i j k = k.
Proof.
  intros. unfold tr.
  by destruct (Z.eqb_spec k i), (Z.eqb_spec k j).
Qed.

Lemma tr_l i j : tr i j i = j.
Proof. unfold tr. by rewrite Z.eqb_refl. Qed.

Lemma tr_r i j : tr i j j = i.
Proof. unfold tr. rewrite Z.eqb_refl. by destruct (Z.eqb_spec j i). Qed.

Lemma up_inv_step f f' n j :
  0 < j < n → up_inv f n j → f j < f (parent j) →
  (∀ k, f' k = f (tr (parent j) j k)) →
  up_inv f' n (parent j).
Proof.
  intros Hj [[Ha Hb] Hc] Hlt Hf'.
  pose proof (parent_lt j ltac:(lia)) as Hpj.
  set (i := parent j) in *.
  assert (Hfi : f' i = f j) by (by rewrite Hf', tr_l).
  assert (Hfj : f' j = f i) by (by rewrite Hf', tr_r).
  assert (Ho : ∀ k, k ≠ i → k ≠ j → f' k = f k).
  { intros k ??. by rewrite Hf', tr_other. }
  split; [split|].
  - intros k Hk Hki Hpk.
    assert (k ≠ j) by (intros ->; by apply Hpk).
    rewrite (Ho k) by done.
    destruct (decide (parent k = j)) as [E|Hne].
    + rewrite E, Hfj. apply Hb; [done..|lia].
    + rewrite Ho by done. by apply Ha.
  - intros k Hk Hpk Hi0.
    pose proof (parent_lt i ltac:(lia)).
    rewrite (Ho (parent i)) by lia.
    assert (Hi : f (parent i) ≤ f i) by (apply Ha; lia).
    destruct (decide (k = j)) as [->|Hkj]; [by rewrite Hfj|].
    pose proof (parent_lt k ltac:(lia)).
    rewrite Ho by lia.
    transitivity (f i); [done|]. rewrite <- Hpk. apply Ha; lia.
  - intros k Hk Hpk. rewrite Hfi.
    destruct (decide (k = j)) as [->|Hkj]; [rewrite Hfj; lia|].
    pose proof (parent_lt k ltac:(lia)).
    rewrite Ho by lia.
    assert (f i ≤ f k); [|lia]. rewrite <- Hpk. apply Ha; lia.
Qed.

Lemma down_inv_step f f' n i j :
  0 ≤ i → 0 < j < n → parent j = i →
  hole_inv f n i → f j < f i →
  (∀ k, 0 < k < n → parent k = i → f j ≤ f k) →
  (∀ k, f' k = f (tr i j k)) →
  down_inv f' n j.
Proof.
  intros Hi Hj Hpj [Ha Hb] Hlt Hmin Hf'.
  pose proof (parent_lt j ltac:(lia)) as Hpj'.
  assert (Hfi : f' i = f j) by (by rewrite Hf', tr_l).
  assert (Hfj : f' j = f i) by (by rewrite Hf', tr_r).
  assert (Ho : ∀ k, k ≠ i → k ≠ j → f' k = f k).
  { intros k ??. by rewrite Hf', tr_other. }
  split; [split|].
  - intros k Hk Hkj Hpk.
    pose proof (parent_lt k ltac:(lia)).
    destruct (decide (k = i)) as [->|Hki].
    + rewrite Hfi, Ho by lia. apply Hb; [lia..|done|lia].
    + rewrite (Ho k) by done.
      destruct (decide (parent k = i)) as [E|Hne].
      * rewrite E, Hfi. by apply Hmin.
      * rewrite Ho by done. by apply Ha.
  - intros k Hk Hpk _.
    pose proof (parent_lt k ltac:(lia)).
    rewrite Hpj, Hfi, Ho by lia.
    rewrite <- Hpk. apply Ha; lia.
  - intros _. rewrite Hpj, Hfi, Hfj. lia.
Qed.

Lemma rearranged_refl h : wfq h → rearranged h h.
Proof. intros Hw. by split; [|split; [|split]]. Qed.

Lemma rearranged_trans h1 h2 h3 :
  rearranged h1 h2 → rearranged h2 h3 → rearranged h1 h3.
Proof.
  intros (_ & Hs1 & Hl1 & He1) (Hw & Hs2 & Hl2 & He2).
  split; [done|]. split; [by eapply same_items_trans|].
  split; [congruence|]. intros q. by rewrite He2.
Qed.

Lemma Swap_rearranged h i j :
  wfq h → 0 ≤ i < Len h → 0 ≤ j < Len h →
  ∃ h', Swap i j h = Ok h' ∧ rearranged h h' ∧
        (∀ k, pqz h' k = pqz h (tr i j k)) ∧
        (∀ k, dl h' k = dl h (tr i j k)).
Proof.
  intros Hw Hi Hj.
  destruct (Swap_spec h i j Hw Hi Hj) as (h' & Hsw & Hw' & Hs & Hl & Hq).
  exists h'. split; [done|]. split; [|split; [done|by apply tr_dl]].
  split; [done|]. split; [done|]. split; [done|]. by apply (tr_elem h h' i j).
Qed.

Lemma heap_up_S fuel j h :
  heap_up (S fuel) j h =
    if parent j =? j then Ok h
    else lt ← Less j (parent j) h;
         if negb lt then Ok h
         else h1 ← Swap (parent j) j h; heap_up fuel (parent j) h1.
Proof. done. Qed.

Lemma up_spec fuel : ∀ j h,
  wfq h → 0 ≤ j < Len h → (Z.to_nat j < fuel)%nat →
  ∃ h', heap_up fuel j h = Ok h' ∧ rearranged h h' ∧
        (∀ k, j < k → pqz h' k = pqz h k) ∧
        (∀ n, j < n ≤ Len h → up_inv (dl h) n j → heap_le (dl h') n).
Proof.
  induction fuel as [|fuel IH]; intros j h Hw Hj Hf; [lia|].
  rewrite heap_up_S.
  destruct (Z.eqb_spec (parent j) j) as [E|Hne].
  { exists h. split; [done|]. split; [by apply rearranged_refl|].
    split; [done|]. intros n Hn [Hh Hc].
    apply (heap_le_of _ _ j); [done..|].
    intros ?. pose proof (parent_lt j). lia. }
  assert (0 < j) as Hj0.
  { destruct (decide (j = 0)) as [->|]; [by rewrite parent_0 in Hne|lia]. }
  pose proof (parent_lt j Hj0) as Hp.
  rewrite Less_spec by (done || lia). simpl.
  destruct (Z.ltb_spec (dl h j) (dl h (parent j))) as [Hlt|Hge]; simpl.
  - destruct (Swap_rearranged h (parent j) j) as (h1 & -> & Hr1 & Hq1 & Hd1);
      [done|lia|lia|]. simpl.
    destruct (IH (parent j) h1) as (h' & -> & Hr & Hfr & Hord);
      [apply Hr1|destruct Hr1 as (_ & _ & -> & _); lia|lia|].
    exists h'. split; [done|]. split; [by eapply rearranged_trans|]. split.
    + intros k Hk. rewrite Hfr by lia. rewrite Hq1. by rewrite tr_other by lia.
    + intros n Hn Hinv. apply Hord.
      * destruct Hr1 as (_ & _ & -> & _). lia.
      * eapply up_inv_step; eauto. lia.
  - exists h. split; [done|]. split; [by apply rearranged_refl|].
    split; [done|]. intros n Hn [Hh Hc].
    apply (heap_le_of _ _ j); [done..|]. by intros ?.
Qed.

Lemma heap_down_loop_S fuel i n h :
  heap_down_loop (S fuel) i n h =
    if (n <=? 2 * i + 1) || (2 * i + 1 <? 0) then Ok (i, h)
    else
      r ← (if 2 * i + 1 + 1 <? n then Less (2 * i + 1 + 1) (2 * i + 1) h
           else Ok false);
      let j := if (r : bool) then 2 * i + 1 + 1 else 2 * i + 1 in
      lt ← Less j i h;
      if negb lt then Ok (i, h)
      else h1 ← Swap i j h; heap_down_loop fuel j n h1.
Proof. done. Qed.

Lemma down_spec fuel : ∀ i n h,
  wfq h → 0 ≤ i → n ≤ Len h → (Z.to_nat (n - i) < fuel)%nat →
  ∃ i' h', heap_down_loop fuel i n h = Ok (i', h') ∧ i ≤ i' ∧
     rearranged h h' ∧
     (∀ k, n ≤ k → pqz h' k = pqz h k) ∧
     (i' = i → h' = h) ∧
     (hole_inv (dl h) n i →
        (i < i' → heap_le (dl h') n) ∧ (i' = i → child_ok (dl h) n i)).
Proof.
  induction fuel as [|fuel IH]; intros i n h Hw Hi Hn Hf; [lia|].
  rewrite heap_down_loop_S.
  destruct (Z.leb_spec n (2 * i + 1)) as [Hc|Hc]; simpl.
  { exists i, h. split; [done|]. split; [lia|].
    split; [by apply rearranged_refl|]. split; [done|]. split; [done|].
    intros _. split; [lia|]. intros _ k Hk Hpk.
    destruct (parent_children i k); lia. }
  destruct (Z.ltb_spec (2 * i + 1) 0) as [?|_]; [lia|]. simpl.
  set (j1 := 2 * i + 1) in *. set (j2 := j1 + 1).
  set (r := (j2 <? n) && (dl h j2 <? dl h j1)).
  assert (Hr : (if j2 <? n then Less j2 j1 h else Ok false) = Ok r).
  { unfold r. destruct (Z.ltb_spec j2 n); [|done].
    rewrite Less_spec by (done || lia). done. }
  rewrite Hr. simpl.
  set (j := if r then j2 else j1).
  assert (Hj : 0 < j < n ∧ parent j = i).
  { unfold j, r. destruct (Z.ltb_spec j2 n); simpl.
    - destruct (dl h j2 <? dl h j1); unfold j2, j1;
        (split; [lia|]); [replace (2 * i + 1 + 1) with (2 * i + 2) by lia;
          by apply parent_right|by apply parent_left].
    - unfold j1. split; [lia|by apply parent_left]. }
  assert (Hmin : ∀ k, 0 < k < n → parent k = i → dl h j ≤ dl h k).
  { intros k Hk Hpk. unfold j, r.
    destruct (parent_children i k ltac:(lia) Hpk) as [->| ->].
    - fold j1. destruct (Z.ltb_spec j2 n); simpl; [|lia].
      destruct (Z.ltb_spec (dl h j2) (dl h j1)); lia.
    - replace (2 * i + 2) with j2 by (unfold j2, j1; lia).
      destruct (Z.ltb_spec j2 n); simpl; [|unfold j2, j1 in *; lia].
      destruct (Z.ltb_spec (dl h j2) (dl h j1)); lia. }
  destruct Hj as [Hj Hpj].
  pose proof (parent_lt j ltac:(lia)) as Hij. rewrite Hpj in Hij.
  rewrite Less_spec by (done || lia). simpl.
  destruct (Z.ltb_spec (dl h j) (dl h i)) as [Hlt|Hge]; simpl.
  - destruct (Swap_rearranged h i j) as (h1 & -> & Hr1 & Hq1 & Hd1);
      [done|lia|lia|]. simpl.
    assert (Len h1 = Len h) as Hl1 by apply Hr1.
    destruct (IH j n h1) as (i' & h' & -> & Hle & Hr' & Hfr & Hsame & Hord);
      [apply Hr1|lia|lia|lia|].
    exists i', h'. split; [done|]. split; [lia|].
    split; [by eapply rearranged_trans|]. split; [|split; [lia|]].
    + intros k Hk. rewrite Hfr by lia. rewrite Hq1. by rewrite tr_other by lia.
    + intros Hh. split; [|lia]. intros _.
      assert (Hdi : down_inv (dl h1) n j) by (eapply down_inv_step; eauto).
      destruct (Hord (proj1 Hdi)) as [Hmoved Hstay].
      destruct (decide (i' = j)) as [->|Hne]; [|apply Hmoved; lia].
      rewrite (Hsame eq_refl).
      apply (heap_le_of _ _ j); [apply Hdi|by apply Hstay|apply Hdi].
  - exists i, h. split; [done|]. split; [lia|].
    split; [by apply rearranged_refl|]. split; [done|]. split; [done|].
    intros _. split; [lia|]. intros _ k Hk Hpk.
    specialize (Hmin k Hk Hpk). lia.
Qed.

(** ** The functions of [container/heap] *)

Lemma dl_eq h h' k :
  same_items h h' → pqz h' k = pqz h k → dl h' k = dl h k.
Proof.
  intros Hs Hq. unfold dl. rewrite Hq.
  destruct (pqz h k); simpl; [|done]. by apply same_items_dtp.
Qed.

Lemma heap_le_ext f f' n n' :
  n' ≤ n → (∀ k, 0 ≤ k < n' → f' k = f k) → heap_le f n → heap_le f' n'.
Proof.
  intros Hn Hf Hh k Hk. pose proof (parent_lt k ltac:(lia)).
  rewrite !Hf by lia. apply Hh. lia.
Qed.

Lemma hole_inv_ext f f' n n' i :
  n' ≤ n → (∀ k, 0 ≤ k < n' → k ≠ i → f' k = f k) →
  hole_inv f n i → hole_inv f' n' i.
Proof.
  intros Hn Hf [Ha Hb]. split.
  - intros k Hk Hki Hpk. pose proof (parent_lt k ltac:(lia)).
    rewrite !Hf by lia. apply Ha; (done || lia).
  - intros k Hk Hpk Hi. pose proof (parent_lt k ltac:(lia)).
    pose proof (parent_lt i ltac:(lia)).
    rewrite !Hf by lia. apply Hb; (done || lia).
Qed.

Lemma ordered_root_min h k : ordered h → 0 ≤ k < Len h → dl h 0 ≤ dl h k.
Proof.
  intros Ho Hk. revert Hk.
  induction (Z.lt_wf 0 k) as [k _ IH]. intros Hk.
  destruct (decide (k = 0)) as [->|Hne]; [lia|].
  pose proof (parent_lt k ltac:(lia)).
  transitivity (dl h (parent k)); [apply IH; lia|apply Ho; lia].
Qed.

Lemma Pop_ordered h p h' :
  same_items h h' → Len h' = Len h - 1 →
  (∀ k, pqz h' k = if k <? Len h - 1 then pqz h k else None) →
  heap_le (dl h) (Len h - 1) → ordered h'.
Proof.
  intros Hs Hl Hq Hh. unfold ordered. rewrite Hl.
  eapply heap_le_ext; [|
    |apply Hh]; [lia|]. intros k Hk. apply dl_eq; [done|].
  rewrite Hq. by destruct (Z.ltb_spec k (Len h - 1)); [|lia].
Qed.

Lemma heap_Push_spec h x it :
  wfq h → mem h !! x = Some it → index it = -1 →
  ∃ h', heap_Push x h = Ok h' ∧ wfq h' ∧ same_items h h' ∧
        Len h' = Len h + 1 ∧ (∀ q, q ∈ pq h' ↔ q = x ∨ q ∈ pq h) ∧
        (ordered h → ordered h').
Proof.
  intros Hw Hit Hidx.
  destruct (Push_spec h x it Hw Hit Hidx) as (h1 & HP & Hw1 & Hs1 & Hl1 & Hq1 & Hpq1).
  destruct (up_spec (S (Z.to_nat (Len h1))) (Len h1 - 1) h1 Hw1)
    as (h' & Hup & (Hw' & Hs' & Hl' & He') & _ & Hord).
  { unfold Len in *. lia. }
  { unfold Len in *. lia. }
  exists h'. split; [|split; [done|split; [|split; [|split]]]].
  - unfold heap_Push. by rewrite HP.
  - by eapply same_items_trans.
  - lia.
  - intros q. rewrite He', Hpq1, elem_of_app, list_elem_of_singleton. tauto.
  - intros Ho. unfold ordered. rewrite Hl'.
    apply Hord; [unfold Len in *; lia|].
    assert (Hd : ∀ k, 0 ≤ k < Len h → dl h1 k = dl h k).
    { intros k Hk. apply dl_eq; [done|]. rewrite Hq1.
      by destruct (Z.eqb_spec k (Len h)); [lia|]. }
    split; [split|].
    + intros k Hk Hki Hpk. pose proof (parent_lt k ltac:(lia)).
      rewrite !Hd by lia. apply Ho. lia.
    + intros k Hk Hpk. pose proof (parent_lt k ltac:(lia)). lia.
    + intros k Hk Hpk. pose proof (parent_lt k ltac:(lia)). lia.
Qed.

Lemma Pop_after h h2 x :
  rearranged h h2 → 0 < Len h → pqz h2 (Len h - 1) = Some x →
  ∃ h', Pop h2 = Ok (x, h') ∧ removed h x h' ∧
        (heap_le (dl h2) (Len h - 1) → ordered h').
Proof.
  intros (Hw2 & Hs2 & Hl2 & He2) Hn Hx.
  destruct (Pop_spec h2 Hw2) as (p & h' & HP & Hp & Hw' & Hs' & Hl' & Hq' & Hi' & Hpq);
    [lia|].
  rewrite Hl2 in *. assert (p = x) as -> by congruence.
  exists h'. split; [done|]. split.
  - split; [done|]. split; [by eapply same_items_trans|]. split; [lia|].
    split; [|split; [|done]].
    + intros q. rewrite <- He2, Hpq, elem_of_app, list_elem_of_singleton. tauto.
    + pose proof (wfq_NoDup _ Hw2) as Hnd. rewrite Hpq in Hnd.
      apply NoDup_app in Hnd as (_ & Hnd & _). intros Hin.
      apply (Hnd _ Hin). by apply list_elem_of_singleton.
  - intros Hh. apply (Pop_ordered h2 x h'); [done|lia|by rewrite Hl2|by rewrite Hl2].
Qed.

Lemma heap_Pop_spec h :
  wfq h → 0 < Len h →
  ∃ p h', heap_Pop h = Ok (p, h') ∧ pqz h 0 = Some p ∧ removed h p h' ∧
          (ordered h → ordered h').
Proof.
  intros Hw Hn. set (n := Len h - 1).
  destruct (wfq_at h 0 Hw) as (p & _ & Hp & _); [lia|].
  destruct (Swap_rearranged h 0 n) as (h1 & Hsw & Hr1 & Hq1 & Hd1);
    [done|unfold n; lia..|].
  assert (Len h1 = Len h) as Hl1 by apply Hr1.
  destruct (down_spec (S (Z.to_nat n)) 0 n h1)
    as (i' & h2 & Hdn & Hle & Hr2 & Hfr & Hsame & Hord);
    [apply Hr1|lia|unfold n; lia|lia|].
  destruct (Pop_after h h2 p) as (h' & HP & Hrm & Ho);
    [by eapply rearranged_trans|done| |].
  { fold n. rewrite Hfr by lia. rewrite Hq1, tr_r. done. }
  exists p, h'. split; [|split; [done|split; [done|]]].
  - unfold heap_Pop, heap_down. fold n.
    by rewrite Hsw, res_bind_Ok, Hdn, !res_bind_Ok.
  - intros Hoh. apply Ho. fold n.
    assert (Hh1 : hole_inv (dl h1) n 0).
    { apply (hole_inv_ext (dl h) _ (Len h)); [unfold n; lia| |].
      - intros k Hk Hk0. rewrite Hd1. by rewrite tr_other by lia.
      - by apply heap_le_hole. }
    destruct (Hord Hh1) as [Hmoved Hstay].
    destruct (decide (i' = 0)) as [->|Hne]; [|apply Hmoved; lia].
    rewrite (Hsame eq_refl).
    apply (heap_le_of _ _ 0); [done|by apply Hstay|]. intros ?. lia.
Qed.

Lemma heap_Remove_spec h i p :
  wfq h → pqz h i = Some p →
  ∃ h', heap_Remove i h = Ok (p, h') ∧ removed h p h' ∧
        (ordered h → ordered h').
Proof.
  intros Hw Hp. pose proof (pqz_range _ _ _ Hp) as Hi.
  set (n := Len h - 1). unfold heap_Remove. fold n.
  destruct (Z.eqb_spec n i) as [E|Hne]; cbn [negb].
  { rewrite res_bind_Ok.
    destruct (Pop_after h h p) as (h' & HP & Hrm & Ho);
      [by apply rearranged_refl|lia|by fold n; rewrite E|].
    exists h'. split; [done|]. split; [done|]. intros Hoh. apply Ho.
    eapply heap_le_ext; [| |apply Hoh]; [lia|done]. }
  destruct (Swap_rearranged h i n) as (h1 & Hsw & Hr1 & Hq1 & Hd1);
    [done|unfold n; lia..|].
  assert (Len h1 = Len h) as Hl1 by apply Hr1.
  destruct (down_spec (S (Z.to_nat n)) i n h1)
    as (i' & h2 & Hdn & Hle & Hr2 & Hfr & Hsame & Hord);
    [apply Hr1|lia|unfold n; lia|lia|].
  assert (Len h2 = Len h) as Hl2 by (destruct Hr2 as (_ & _ & -> & _); done).
  assert (Hh1 : ordered h → hole_inv (dl h1) n i).
  { intros Hoh. apply (hole_inv_ext (dl h) _ (Len h)); [unfold n; lia| |].
    - intros k Hk Hki. rewrite Hd1. by rewrite tr_other by (unfold n in *; lia).
    - apply heap_le_hole; [done|lia]. }
  unfold heap_down. rewrite Hsw, res_bind_Ok, Hdn, !res_bind_Ok.
  destruct (Z.ltb_spec i i') as [Hmv|Hst]; cbn [negb].
  - rewrite res_bind_Ok.
    destruct (Pop_after h h2 p) as (h' & HP & Hrm & Ho);
      [eauto using rearranged_trans|lia| |].
    { fold n. rewrite Hfr by lia. by rewrite Hq1, tr_r. }
    exists h'. split; [done|]. split; [done|]. intros Hoh. apply Ho.
    fold n. by apply Hord; [apply Hh1|].
  - assert (i' = i) as -> by lia. rewrite (Hsame eq_refl) in *.
    destruct (up_spec (S (Z.to_nat (Len h1))) i h1)
      as (h3 & Hup & Hr3 & Hfr3 & Hord3); [apply Hr1|lia|lia|].
    rewrite Hup, res_bind_Ok.
    destruct (Pop_after h h3 p) as (h' & HP & Hrm & Ho);
      [eauto using rearranged_trans|lia| |].
    { fold n. rewrite Hfr3 by (unfold n in *; lia). by rewrite Hq1, tr_r. }
    exists h'. split; [done|]. split; [done|]. intros Hoh. apply Ho.
    fold n. apply Hord3; [unfold n in *; lia|]. split; [by apply Hh1|].
    by apply Hord; [apply Hh1|].
Qed.

Lemma remove_spec h i it :
  wfq h → mem h !! i = Some it →
  ∃ h', remove i h = Ok h' ∧ wfq h' ∧ same_items h h' ∧
        (∀ q, q ∈ pq h' ↔ q ∈ pq h ∧ q ≠ i) ∧
        (∃ it', mem h' !! i = Some it' ∧ index it' = -1) ∧
        (ordered h → ordered h').
Proof.
  intros Hw Hit. unfold remove. rewrite (load_Ok _ _ _ Hit), res_bind_Ok.
  destruct (Z.leb_spec 0 (index it)) as [Hge|Hlt].
  - destruct (proj2 Hw _ _ Hit) as [?|Hq]; [lia|].
    destruct (heap_Remove_spec h (index it) i Hw Hq)
      as (h' & -> & (Hw' & Hs & Hl & He & Hni & Hidx) & Ho).
    rewrite res_bind_Ok. exists h'. split; [done|]. split; [done|].
    split; [done|]. split; [|done].
    intros q. rewrite He. split; [|by intros [[->|?] ?]].
    intros Hq'. split; [by right|]. by intros ->.
  - exists h. split; [done|]. split; [done|]. split; [done|].
    assert (index it = -1) as Hm1.
    { destruct (proj2 Hw _ _ Hit) as [?|Hq%pqz_range]; lia. }
    split; [|eauto].
    intros q. split; [|by intros [? _]]. intros Hq. split; [done|]. intros ->.
    by eapply wfq_not_queued.
Qed.

(** ** The loop of [prune] *)

Lemma same_items_sym h h' : same_items h h' → same_items h' h.
Proof. unfold same_items. congruence. Qed.

Lemma dtp_at h p it : mem h !! p = Some it → dtp h p = deadtime it.
Proof. unfold dtp. by intros ->. Qed.

Lemma ordered_min h p q :
  wfq h → ordered h → pqz h 0 = Some p → q ∈ pq h → dtp h p ≤ dtp h q.
Proof.
  intros Hw Ho Hp [k Hk]%elem_pqz.
  pose proof (ordered_root_min h k Ho (pqz_range _ _ _ Hk)) as Hle.
  unfold dl in Hle. by rewrite Hp, Hk in Hle.
Qed.

Lemma pruned_nil now s err :
  Inv s → (err = None → ∀ q, q ∈ pq (hp s) → now ≤ dtp (hp s) q) →
  pruned now s err s [].
Proof.
  intros HI Hr. split; try done.
  - intros q. rewrite elem_of_nil. tauto.
  - intros q. by rewrite elem_of_nil.
  - constructor.
  - intros k p. rewrite elem_of_nil. tauto.
  - constructor.
  - exists []. rewrite app_nil_r. split; [done|].
    destruct (destructor s); [constructor|done].
Qed.

Lemma pruned_cons now s p0 it0 h1 w cs evs0 :
  Inv s → pqz (hp s) 0 = Some p0 → mem (hp s) !! p0 = Some it0 →
  deadtime it0 < now → removed (hp s) p0 h1 → ordered h1 →
  cs = calls s ++ evs0 →
  match destructor s with
  | Some _ => evs0 = [EvDestruct (key it0) (value it0)]
  | None => evs0 = []
  end →
  let s1 := State (constructor s) (destructor s) (nowFunc s) h1
                  (delete (key it0) (m s)) w cs in
  Inv s1 ∧ (∀ err s' popped,
    pruned now s1 err s' popped → pruned now s err s' (p0 :: popped)).
Proof.
  intros (Hw & Ho & HL1 & HL2) Hp0 Hit0 Hdead (Hw1 & Hs1 & Hl1 & He1 & Hn1 & Hi1)
    Ho1 Hcs Hev s1.
  assert (Hin0 : p0 ∈ pq (hp s)) by by eapply pqz_elem.
  assert (Hm0 : m s !! key it0 = Some p0).
  { destruct (HL2 _ Hin0) as (it & Hit & Hm). congruence. }
  assert (Hkey : ∀ k p, m s !! k = Some p → (k = key it0 ↔ p = p0)).
  { intros k p Hk. split; [intros ->; congruence|intros ->].
    destruct (HL1 _ _ Hk) as (it & Hit & Hkk). congruence. }
  assert (Hd : ∀ q, dtp h1 q = dtp (hp s) q) by (intros q; by apply same_items_dtp).
  split.
  - split; [done|]. split; [done|]. split.
    + intros k p Hk. simpl in *.
      apply lookup_delete_Some in Hk as [Hne Hk].
      destruct (HL1 _ _ Hk) as (it & Hit & Hkk).
      destruct (same_items_Some _ _ _ _ Hs1 Hit) as (it' & Hit' & Hst).
      exists it'. split; [done|]. by apply strip_fields in Hst as (_ & _ & _ & ->).
    + intros q Hq. simpl in *.
      assert (Hq' : q ∈ pq (hp s)) by (apply He1; by right).
      destruct (HL2 _ Hq') as (it & Hit & Hm).
      destruct (same_items_Some _ _ _ _ Hs1 Hit) as (it' & Hit' & Hst).
      exists it'. split; [done|]. apply strip_fields in Hst as (_ & _ & _ & ->).
      apply lookup_delete_Some. split; [|done].
      intros E. symmetry in E. apply (Hkey _ _ Hm) in E. by subst.
  - intros err s' popped
      [HI' Hs' Hpq' Hout' Hnd' Hm' Hsort' Hexp' (evs & Hcalls & Hevs) Hcfg' Hrest'].
    simpl in *. split.
    + done.
    + by eapply same_items_trans.
    + intros q. rewrite elem_of_cons, He1, Hpq'. tauto.
    + intros q [->|Hq]%elem_of_cons; [|by apply Hout'].
      intros Hin. apply Hn1, Hpq'. by right.
    + constructor; [|done]. intros Hin. apply Hn1, Hpq'. by left.
    + intros k p. rewrite Hm', lookup_delete_Some, elem_of_cons. split.
      * intros [[Hne Hk] Hnp]. split; [done|]. intros [->|?]; [|done].
        apply Hne. symmetry. by apply (Hkey _ _ Hk).
      * intros [Hk Hnp]. split; [split; [|done]|tauto].
        intros E. symmetry in E. apply (Hkey _ _ Hk) in E. tauto.
    + rewrite fmap_cons. constructor.
      * erewrite list_fmap_ext; [apply Hsort'|]. intros ???. by rewrite Hd.
      * apply Forall_fmap, Forall_forall. intros q Hq. simpl.
        apply (ordered_min (hp s)); [done..|]. apply He1. right.
        apply Hpq'. by left.
    + constructor; [by rewrite (dtp_at _ _ _ Hit0)|].
      eapply Forall_impl; [apply Hexp'|]. intros q. simpl. by rewrite Hd.
    + exists (evs0 ++ evs). split; [by rewrite Hcalls, Hcs, app_assoc|].
      destruct (destructor s); subst evs0; simpl; [|done].
      constructor; [eauto|].
      eapply Forall2_impl; [apply Hevs|]. intros q e (it' & Hit' & ->).
      destruct (same_items_Some _ _ _ _ (same_items_sym _ _ Hs1) Hit')
        as (it & Hit & Hst).
      exists it. split; [done|].
      apply strip_fields in Hst as (-> & _ & _ & ->). done.
    + done.
    + intros He q Hq. rewrite <- Hd. by apply Hrest'.
Qed.

Lemma del_cb_unfold (k : string) s : del_cb k s = set_m (delete k (m s)) s.
Proof. done. Qed.

Lemma prune_loop_S fuel now (d : option (T → W → option error * W)) cb s :
  prune_loop (S fuel) now d cb s =
    if 0 <? Len (hp s) then
      root ← idx (pq (hp s)) 0;
      r ← load root (hp s);
      if negb (Before (deadtime r) now) then Ok (None, s)
      else
        '(i, h1) ← heap_Pop (hp s);
        it ← load i h1;
        let s1 := cb (key it) (set_hp h1 s) in
        match d with
        | Some d' =>
          let '(err, w) := d' (value it) (env s1) in
          let s2 := call (EvDestruct (key it) (value it)) w s1 in
          match err with
          | Some e => Ok (Some e, s2)
          | None => prune_loop fuel now d cb s2
          end
        | None => prune_loop fuel now d cb s1
        end
    else Ok (None, s).
Proof. done. Qed.

Lemma prune_loop_spec fuel now : ∀ s,
  Inv s → (length (pq (hp s)) < fuel)%nat →
  ∃ err s' popped,
    prune_loop fuel now (destructor s) del_cb s = Ok (err, s') ∧
    pruned now s err s' popped.
Proof.
  induction fuel as [|fuel IH]; intros s HI Hf; [lia|].
  rewrite prune_loop_S.
  destruct (Z.ltb_spec 0 (Len (hp s))) as [Hn|Hn].
  2:{ exists None, s, []. split; [done|]. apply pruned_nil; [done|].
      intros _ q [k Hk%pqz_range]%elem_pqz. lia. }
  pose proof HI as (Hw & Ho & HL).
  destruct (wfq_at _ 0 Hw) as (p0 & it0 & Hp0 & Hit0 & _); [lia|].
  rewrite idx_pqz, Hp0. simpl from_option. rewrite res_bind_Ok.
  rewrite (load_Ok _ _ _ Hit0), res_bind_Ok. unfold Before.
  destruct (Z.ltb_spec (deadtime it0) now) as [Hlt|Hge]; cbn [negb].
  2:{ exists None, s, []. split; [done|]. apply pruned_nil; [done|].
      intros _ q Hq. rewrite <- (dtp_at _ _ _ Hit0) in Hge.
      pose proof (ordered_min _ _ _ Hw Ho Hp0 Hq). lia. }
  destruct (heap_Pop_spec _ Hw Hn) as (p & h1 & -> & Hp & Hrm & Ho1).
  assert (p = p0) as -> by congruence. rewrite res_bind_Ok.
  pose proof Hrm as (Hw1 & Hs1 & Hl1 & _). cbv beta iota.
  destruct (same_items_Some _ _ _ _ Hs1 Hit0) as (it1 & Hit1 & Hst).
  rewrite (load_Ok _ _ _ Hit1), res_bind_Ok.
  apply strip_fields in Hst as (Hv & _ & _ & Hk). rewrite Hv, Hk.
  cbv zeta. rewrite del_cb_unfold. unfold set_m, set_hp, call. simpl.
  assert (Hlen : (length (pq h1) < fuel)%nat) by (unfold Len in Hl1; lia).
  destruct (destructor s) as [d|] eqn:Hd.
  - destruct (d (value it0) (env s)) as [[e|] w] eqn:Hdw.
    + destruct (pruned_cons now s p0 it0 h1 w _ [EvDestruct (key it0) (value it0)]
                  HI Hp0 Hit0 Hlt Hrm (Ho1 Ho) eq_refl) as [HI1 Hcons].
      { by rewrite Hd. }
      rewrite Hd in HI1, Hcons.
      eexists _, _, _. split; [done|]. apply Hcons. by apply pruned_nil.
    + destruct (pruned_cons now s p0 it0 h1 w _ [EvDestruct (key it0) (value it0)]
                  HI Hp0 Hit0 Hlt Hrm (Ho1 Ho) eq_refl) as [HI1 Hcons].
      { by rewrite Hd. }
      rewrite Hd in HI1, Hcons.
      destruct (IH _ HI1 Hlen) as (err & s' & popped & Hloop & Hpr).
      simpl in Hloop. rewrite Hloop. eexists _, _, _. split; [done|].
      by apply Hcons.
  - destruct (pruned_cons now s p0 it0 h1 (env s) (calls s) []
                HI Hp0 Hit0 Hlt Hrm (Ho1 Ho)) as [HI1 Hcons].
    { by rewrite app_nil_r. }
    { by rewrite Hd. }
    rewrite Hd in HI1, Hcons.
    destruct (IH _ HI1 Hlen) as (err & s' & popped & Hloop & Hpr).
    simpl in Hloop. rewrite Hloop. eexists _, _, _. split; [done|].
    by apply Hcons.
Qed.

Lemma Prune_spec s :
  Inv s →
  ∃ err s' popped,
    Prune s = Ok (err, s') ∧
    pruned (nowFunc s (env s)).1 (call EvNow (nowFunc s (env s)).2 s)
           err s' popped.
Proof.
  intros HI. unfold Prune, prune.
  destruct (nowFunc s (env s)) as [now w]. cbn [fst snd].
  apply (prune_loop_spec _ now (call EvNow w s)); [done|simpl; lia].
Qed.

Lemma pruned_counted now s err s' popped n :
  pruned now s err s' popped → counted n s → counted n s'.
Proof.
  intros Hpr Hc p it' Hit'.
  destruct (same_items_Some _ _ _ _ (same_items_sym _ _ (pruned_items _ _ _ _ _ Hpr)) Hit')
    as (it & Hit & Hst).
  apply strip_fields in Hst as (_ & _ & <- & _).
  destruct (Hc _ _ Hit) as [Hb Hq]. split; [done|].
  intros Hin. apply Hq. apply (pruned_pq _ _ _ _ _ Hpr). by right.
Qed.

(** ** Writes to an item and allocation *)

Lemma wrap_id x : - 2 ^ 63 ≤ x < 2 ^ 63 → wrap x = x.
Proof. intros Hx. unfold wrap. rewrite Z.mod_small; lia. Qed.

Lemma Inv_rearr s h' :
  Inv s → wfq h' → ordered h' → same_items (hp s) h' →
  (∀ q, q ∈ pq h' →
     ∃ it, mem (hp s) !! q = Some it ∧ m s !! key it = Some q) →
  Inv (set_hp h' s).
Proof.
  intros (Hw & Ho & HL1 & HL2) Hw' Ho' Hs He.
  split; [done|]. split; [done|]. split; simpl.
  - intros k p Hk. destruct (HL1 _ _ Hk) as (it & Hit & Hkk).
    destruct (same_items_Some _ _ _ _ Hs Hit) as (it' & Hit' & Hst).
    exists it'. split; [done|]. by apply strip_fields in Hst as (_ & _ & _ & ->).
  - intros q Hq. destruct (He _ Hq) as (it & Hit & Hm).
    destruct (same_items_Some _ _ _ _ Hs Hit) as (it' & Hit' & Hst).
    exists it'. split; [done|]. by apply strip_fields in Hst as (_ & _ & _ & ->).
Qed.

Lemma Inv_rearr_sub s h' :
  Inv s → wfq h' → ordered h' → same_items (hp s) h' →
  (∀ q, q ∈ pq h' → q ∈ pq (hp s)) → Inv (set_hp h' s).
Proof.
  intros HI Hw' Ho' Hs He. apply Inv_rearr; try done.
  intros q Hq. by apply HI, He.
Qed.

Lemma lookup_store h p it' q :
  (p < length (mem h))%nat →
  <[p := it']> (mem h) !! q = if decide (q = p) then Some it' else mem h !! q.
Proof.
  intros Hp. destruct (decide (q = p)) as [->|Hne].
  - by apply list_lookup_insert_eq.
  - by apply list_lookup_insert_ne.
Qed.

(** A write to an item that leaves its index and key alone, and its
    deadline too unless the item is out of the queue. *)
Lemma Inv_store s p it it' :
  Inv s → mem (hp s) !! p = Some it →
  index it' = index it → key it' = key it →
  (deadtime it' = deadtime it ∨ p ∉ pq (hp s)) →
  Inv (set_hp (PQ (<[p := it']> (mem (hp s))) (pq (hp s))) s).
Proof.
  intros (Hw & Ho & HL1 & HL2) Hit Hi Hk Hd.
  pose proof (lookup_lt_Some _ _ _ Hit) as Hlt.
  set (h' := PQ (<[p := it']> (mem (hp s))) (pq (hp s))).
  assert (Hq : ∀ k, pqz h' k = pqz (hp s) k) by done.
  assert (Hl : ∀ q, mem h' !! q = if decide (q = p) then Some it' else mem (hp s) !! q).
  { intros q. by apply lookup_store. }
  split; [|split; [|split]]; simpl; fold h'.
  - split.
    + intros k q Hk'. rewrite Hq in Hk'. rewrite Hl.
      destruct (proj1 Hw _ _ Hk') as (itq & Hitq & Hidx).
      destruct (decide (q = p)) as [->|?]; [|eauto].
      exists it'. split; [done|]. congruence.
    + intros q itq. rewrite Hl, Hq.
      destruct (decide (q = p)) as [->|?]; [|apply Hw].
      intros [= <-]. rewrite Hi. by apply Hw.
  - intros k Hk'. unfold Len in Hk'. simpl in Hk'.
    assert (Hdl : ∀ j, dl h' j = dl (hp s) j).
    { intros j. unfold dl. rewrite Hq. destruct (pqz (hp s) j) as [q|] eqn:Hj; [|done].
      simpl. unfold dtp. rewrite Hl.
      destruct (decide (q = p)) as [->|?]; [|done]. rewrite Hit. simpl.
      destruct Hd as [?|Hn]; [done|]. destruct Hn. by eapply pqz_elem. }
    rewrite !Hdl. by apply Ho.
  - intros k q Hk'. rewrite Hl. destruct (HL1 _ _ Hk') as (itq & Hitq & Hkk).
    destruct (decide (q = p)) as [->|?]; [|eauto].
    exists it'. split; [done|]. congruence.
  - intros q Hq'. rewrite Hl. destruct (HL2 _ Hq') as (itq & Hitq & Hm).
    destruct (decide (q = p)) as [->|?]; [|eauto].
    exists it'. split; [done|]. rewrite Hk. congruence.
Qed.

(** A new item, out of the queue, for a key that is not mapped. *)
Lemma Inv_alloc s k v d c :
  Inv s → m s !! k = None →
  Inv (set_m (<[k := length (mem (hp s))]> (m s))
         (set_hp (PQ (mem (hp s) ++ [Item v d c (-1) k]) (pq (hp s))) s)).
Proof.
  intros (Hw & Ho & HL1 & HL2) Hk.
  set (new := Item v d c (-1) k).
  set (h' := PQ (mem (hp s) ++ [new]) (pq (hp s))).
  assert (Hq : ∀ j, pqz h' j = pqz (hp s) j) by done.
  assert (Hold : ∀ q it, mem (hp s) !! q = Some it → mem h' !! q = Some it).
  { intros q it Hit. by apply lookup_app_l_Some. }
  split; [|split; [|split]]; simpl; fold h'.
  - split.
    + intros j q Hj. rewrite Hq in Hj.
      destruct (proj1 Hw _ _ Hj) as (it & Hit & Hi). eauto.
    + intros q it Hit. rewrite Hq. simpl in Hit.
      apply lookup_app_Some in Hit as [Hit|[_ Hit]]; [by apply Hw|].
      apply list_lookup_singleton_Some in Hit as [_ <-]. by left.
  - intros j Hj. unfold Len in Hj. simpl in Hj.
    assert (Hdl : ∀ i, dl h' i = dl (hp s) i).
    { intros i. unfold dl. rewrite Hq. destruct (pqz (hp s) i) as [q|] eqn:Hi; [|done].
      simpl. destruct (proj1 Hw _ _ Hi) as (it & Hit & _).
      unfold dtp. by rewrite (Hold _ _ Hit), Hit. }
    rewrite !Hdl. by apply Ho.
  - intros k' q Hk'. apply lookup_insert_Some in Hk' as [[<- <-]|[Hne Hk']].
    + exists new. split; [|done]. by apply list_lookup_middle.
    + destruct (HL1 _ _ Hk') as (it & Hit & Hkk). eauto.
  - intros q Hq'. destruct (HL2 _ Hq') as (it & Hit & Hm).
    exists it. split; [eauto|]. rewrite lookup_insert_ne; [done|].
    intros E. rewrite E in Hk. congruence.
Qed.

(** ** [Get] *)

Lemma pruned_events now s err s' popped :
  pruned now s err s' popped →
  ∃ evs, calls s' = calls s ++ evs ∧
    Forall (λ e, ∃ p it, p ∈ popped ∧ mem (hp s) !! p = Some it ∧
                         e = EvDestruct (key it) (value it)) evs.
Proof.
  intros Hpr. destruct (pruned_calls _ _ _ _ _ Hpr) as (evs & Hc & Hev).
  exists evs. split; [done|].
  destruct (destructor s); [|subst; constructor].
  unfold destroys in Hev. clear Hc Hpr.
  induction Hev as [|p0 e ps es (it & Hit & ->) _ IH].
  - constructor.
  - constructor.
    + exists p0, it. split; [by left|done].
    + eapply Forall_impl; [apply IH|]. intros e (q & itq & Hq & Hitq & ->).
      exists q, itq. split; [by right|done].
Qed.

Lemma Get_tracked_spec s k p it :
  Inv s → m s !! k = Some p → mem (hp s) !! p = Some it →
  ∃ h2 err s1 popped,
    let it1 := set_refCounter (wrap (refCounter it + 1)) it in
    let s0 := set_hp h2 s in
    Inv s0 ∧
    same_items (PQ (<[p := it1]> (mem (hp s))) (pq (hp s))) h2 ∧
    (∀ q, q ∈ pq h2 ↔ q ∈ pq (hp s) ∧ q ≠ p) ∧
    (∃ it2, mem h2 !! p = Some it2 ∧ index it2 = -1) ∧
    Prune s0 = Ok (err, s1) ∧
    pruned (nowFunc s (env s)).1 (call EvNow (nowFunc s (env s)).2 s0)
           err s1 popped ∧
    Get k s = Ok ((match err with Some _ => zero | None => value it end, err), s1).
Proof.
  intros HI Hk Hit.
  set (it1 := set_refCounter (wrap (refCounter it + 1)) it).
  set (h1 := PQ (<[p := it1]> (mem (hp s))) (pq (hp s))).
  assert (HI1 : Inv (set_hp h1 s)) by (apply (Inv_store s p it it1); auto).
  assert (Hit1 : mem h1 !! p = Some it1).
  { apply list_lookup_insert_eq. by eapply lookup_lt_Some. }
  destruct (remove_spec h1 p it1) as (h2 & Hrem & Hw2 & Hs2 & He2 & Hi2 & Ho2);
    [apply HI1|done|].
  assert (HI2 : Inv (set_hp h2 s)).
  { apply (Inv_rearr_sub (set_hp h1 s)); [done|done|apply Ho2, HI1|done|].
    intros q Hq. by apply He2. }
  destruct (Prune_spec _ HI2) as (err & s1 & popped & HP & Hpr).
  exists h2, err, s1, popped. cbv zeta. fold it1 h1.
  split; [done|]. split; [done|]. split; [done|]. split; [done|].
  split; [done|]. split; [done|].
  unfold Get. rewrite Hk, (load_Ok _ _ _ Hit), res_bind_Ok.
  rewrite (store_Ok _ _ _ _ Hit), res_bind_Ok. fold it1 h1.
  rewrite Hrem, res_bind_Ok, HP, res_bind_Ok. cbv beta iota.
  destruct err as [e|]; [done|].
  destruct Hi2 as (it2 & Hit2 & _).
  destruct (same_items_Some _ _ _ _ (pruned_items _ _ _ _ _ Hpr) Hit2)
    as (it3 & Hit3 & Hst3).
  destruct (same_items_Some _ _ _ _ Hs2 Hit1) as (it2' & Hit2' & Hst2).
  assert (it2' = it2) as -> by congruence.
  rewrite (load_Ok _ _ _ Hit3), res_bind_Ok.
  apply strip_fields in Hst3 as (-> & _). by apply strip_fields in Hst2 as (-> & _).
Qed.

Lemma Get_new_spec s k :
  Inv s → m s !! k = None →
  ∃ err s1 popped,
    Prune s = Ok (err, s1) ∧
    pruned (nowFunc s (env s)).1 (call EvNow (nowFunc s (env s)).2 s)
           err s1 popped ∧
    m s1 !! k = None ∧
    Get k s =
      match err with
      | Some e => Ok ((zero, Some e), s1)
      | None =>
        let '((v, cerr), w) := constructor s k (env s1) in
        let s2 := call (EvConstruct k) w s1 in
        match cerr with
        | Some e => Ok ((zero, Some e), s2)
        | None =>
          Ok ((v, None),
              set_m (<[k := length (mem (hp s1))]> (m s1))
                (set_hp (PQ (mem (hp s1) ++ [Item v 0 1 (-1) k]) (pq (hp s1)))
                   s2))
        end
      end.
Proof.
  intros HI Hk.
  destruct (Prune_spec _ HI) as (err & s1 & popped & HP & Hpr).
  exists err, s1, popped. split; [done|]. split; [done|]. split.
  - destruct (m s1 !! k) as [p|] eqn:E; [|done].
    apply (pruned_m _ _ _ _ _ Hpr) in E as [E _]. simpl in E. congruence.
  - unfold Get. rewrite Hk, HP, res_bind_Ok. cbv beta iota.
    destruct err; [done|].
    rewrite (proj1 (pruned_cfg _ _ _ _ _ Hpr)). simpl.
    destruct (constructor s k (env s1)) as [[v [e|]] w]; done.
Qed.

(** ** [Release] *)

Lemma counted_store n n' s p it it' :
  counted n s → mem (hp s) !! p = Some it → n ≤ n' →
  - n' ≤ refCounter it' ≤ n' →
  (p ∈ pq (hp s) → refCounter it' ≤ 0) →
  counted n' (set_hp (PQ (<[p := it']> (mem (hp s))) (pq (hp s))) s).
Proof.
  intros Hc Hit Hn Hb Hq q itq. simpl.
  rewrite lookup_store by by eapply lookup_lt_Some.
  destruct (decide (q = p)) as [->|Hne].
  - by intros [= <-].
  - intros Hitq. destruct (Hc _ _ Hitq) as [? ?]. split; [lia|done].
Qed.

Lemma Release_untracked s k ttl : m s !! k = None → Release k ttl s = Ok s.
Proof. unfold Release. by intros ->. Qed.

Lemma Release_tracked_spec s k ttl p it n :
  Inv s → counted n s → 0 ≤ n → n + 1 < 2 ^ 63 →
  m s !! k = Some p → mem (hp s) !! p = Some it →
  ∃ s', Release k ttl s = Ok s' ∧ Inv s' ∧ counted (n + 1) s' ∧
        m s' = m s ∧
        (constructor s' = constructor s ∧ destructor s' = destructor s ∧
         nowFunc s' = nowFunc s) ∧
        (∀ q, q ∈ pq (hp s') → q = p ∨ q ∈ pq (hp s)) ∧
        (∃ it', mem (hp s') !! p = Some it' ∧
                refCounter it' = refCounter it - 1) ∧
        (∀ q itq, q ≠ p → mem (hp s) !! q = Some itq →
           ∃ itq', mem (hp s') !! q = Some itq' ∧ strip itq' = strip itq) ∧
        (refCounter it ≠ 1 → pq (hp s') = pq (hp s)).
Proof.
  intros HI Hc Hn0 Hn Hk Hit.
  destruct (Hc _ _ Hit) as [Hb Hq].
  set (c := refCounter it - 1).
  assert (Hwrap : wrap (refCounter it - 1) = c) by (apply wrap_id; lia).
  set (it1 := set_refCounter c it).
  set (h1 := PQ (<[p := it1]> (mem (hp s))) (pq (hp s))).
  assert (Hit1 : mem h1 !! p = Some it1).
  { apply list_lookup_insert_eq. by eapply lookup_lt_Some. }
  assert (HI1 : Inv (set_hp h1 s)) by (apply (Inv_store s p it it1); auto).
  assert (Hc1 : counted (n + 1) (set_hp h1 s)).
  { apply (counted_store n _ s p it it1); try done; unfold it1, c; simpl; try lia.
    intros Hin. specialize (Hq Hin). lia. }
  unfold Release. rewrite Hk, (load_Ok _ _ _ Hit), res_bind_Ok, Hwrap.
  rewrite (store_Ok _ _ _ _ Hit), res_bind_Ok. fold it1 h1.
  destruct (Z.eqb_spec c 0) as [Hc0|Hc0].
  2:{ exists (set_hp h1 s). split; [done|]. split; [done|]. split; [done|].
      split; [done|]. split; [done|]. split; [by right|]. split; [eauto|].
      split; [|done]. intros q itq Hne Hitq. exists itq. split; [|done].
      simpl. by rewrite list_lookup_insert_ne. }
  assert (Hnq : p ∉ pq (hp s)).
  { intros Hin. specialize (Hq Hin). unfold c in Hc0. lia. }
  assert (Hidx : index it = -1).
  { destruct HI as (Hw & _). destruct (proj2 Hw _ _ Hit) as [?|Hp]; [done|].
    destruct Hnq. by eapply pqz_elem. }
  destruct (nowFunc s (env s)) as [now w].
  rewrite (store_Ok _ _ _ _ Hit1), res_bind_Ok.
  set (it2 := set_deadtime (Add now ttl) it1).
  set (h2 := PQ (<[p := it2]> (mem h1)) (pq h1)).
  assert (Hit2 : mem h2 !! p = Some it2).
  { apply list_lookup_insert_eq. by eapply lookup_lt_Some. }
  assert (HI2 : Inv (set_hp h2 s)).
  { apply (Inv_store (set_hp h1 s) p it1 it2); auto. }
  assert (Hc2 : counted (n + 1) (set_hp h2 s)).
  { apply (counted_store (n + 1) _ (set_hp h1 s) p it1 it2); try done.
    apply (Hc1 _ _ Hit1). }
  destruct (heap_Push_spec h2 p it2) as (h3 & HPu & Hw3 & Hs3 & Hl3 & He3 & Ho3);
    [apply HI2|done|done|].
  rewrite HPu, res_bind_Ok.
  destruct (same_items_Some _ _ _ _ Hs3 Hit2) as (it3 & Hit3 & Hst3).
  apply strip_fields in Hst3 as (Hv3 & Hd3 & Hr3 & Hk3).
  destruct HI as (_ & _ & HL1 & _).
  destruct (HL1 _ _ Hk) as (it' & Hit' & Hkey). assert (it' = it) as -> by congruence.
  exists (call EvNow w (set_hp h3 s)).
  split; [done|]. split; [|split; [|split; [done|split; [done|split; [|split; [|split]]]]]].
  - apply (Inv_rearr (set_hp h2 s) h3); [done|done|apply Ho3, HI2|done|].
    intros q [->|Hq']%He3.
    + exists it2. split; [done|]. simpl. by rewrite Hkey.
    + by apply HI2.
  - intros q itq Hitq. simpl in Hitq.
    destruct (same_items_Some _ _ _ _ (same_items_sym _ _ Hs3) Hitq)
      as (itq' & Hitq' & Hst).
    apply strip_fields in Hst as (_ & _ & Hrc & _).
    destruct (Hc2 _ _ Hitq') as [Hb' Hq']. rewrite <- Hrc. split; [done|].
    simpl. intros [->|Hin]%He3; [|by apply Hq'].
    assert (itq' = it2) as -> by congruence. simpl. lia.
  - simpl. intros q [->|Hin]%He3; [by left|by right].
  - exists it3. split; [done|]. rewrite Hr3. done.
  - intros q itq Hne Hitq. simpl.
    apply (same_items_Some h2 h3 q itq Hs3). simpl.
    by rewrite !list_lookup_insert_ne.
  - unfold c in Hc0. lia.
Qed.

(** ** [Clear] *)

Lemma drain_spec fuel : ∀ h,
  wfq h → (length (pq h) < fuel)%nat →
  ∃ h', drain fuel h = Ok h' ∧ wfq h' ∧ same_items h h' ∧ pq h' = [].
Proof.
  induction fuel as [|fuel IH]; intros h Hw Hf; [lia|]. simpl.
  destruct (Z.ltb_spec 0 (Len h)) as [Hn|Hn].
  - destruct (heap_Pop_spec _ Hw Hn) as (p & h1 & -> & _ & (Hw1 & Hs1 & Hl1 & _) & _).
    rewrite res_bind_Ok. cbv beta iota.
    destruct (IH h1 Hw1) as (h' & -> & Hw' & Hs' & Hnil).
    { unfold Len in Hl1. lia. }
    exists h'. split; [done|]. split; [done|]. split; [|done].
    by eapply same_items_trans.
  - exists h. split; [done|]. split; [done|]. split; [done|].
    apply nil_length_inv. unfold Len in Hn. lia.
Qed.

Lemma clear_range_spec order : ∀ s,
  (∀ k p, m s !! k = Some p → is_Some (mem (hp s) !! p)) →
  NoDup order → (∀ k, k ∈ order → is_Some (m s !! k)) →
  ∃ err s' done evs,
    clear_range order s = Ok (err, s') ∧ hp s' = hp s ∧
    cleared s order err s' done evs.
Proof.
  induction order as [|k order IH]; intros s HL Hnd Hin.
  { exists None, s, [], []. split; [done|]. split; [done|]. split; try done.
    - by exists [].
    - by rewrite app_nil_r.
    - destruct (destructor s); [constructor|done]. }
  apply NoDup_cons in Hnd as [Hk Hnd].
  destruct (Hin k) as [v Hv]; [by left|].
  destruct (HL _ _ Hv) as [it Hit].
  assert (Hrest : ∀ k', k' ∈ order → is_Some (delete k (m s) !! k')).
  { intros k' Hk'. rewrite lookup_delete_ne by (by intros ->).
    apply Hin. by right. }
  assert (HL' : ∀ k' p, delete k (m s) !! k' = Some p → is_Some (mem (hp s) !! p)).
  { intros k' p [_ Hp]%lookup_delete_Some. by eapply HL. }
  assert (Hm' : ∀ s' done, 
            (∀ x, m s' !! x = if decide (x ∈ done) then None else delete k (m s) !! x) →
            ∀ x, m s' !! x = if decide (x ∈ k :: done) then None else m s !! x).
  { intros s' dn Hm x. rewrite Hm.
    destruct (decide (x ∈ dn)) as [Hx|Hx].
    - rewrite decide_True; [done|by right].
    - destruct (decide (x = k)) as [->|Hne].
      + rewrite lookup_delete_eq. rewrite decide_True; [done|by left].
      + rewrite lookup_delete_ne by done.
        rewrite decide_False; [done|]. by intros [?|?]%elem_of_cons. }
  cbn [clear_range]. rewrite Hv. cbv zeta.
  destruct (destructor s) as [d|] eqn:Hd; simpl destructor; rewrite ?Hd.
  - simpl hp. rewrite (load_Ok _ _ _ Hit), res_bind_Ok. simpl env.
    destruct (d (value it) (env s)) as [[e|] w] eqn:Hdw.
    + eexists _, _, [k], [_]. split; [done|]. split; [done|].
      split; simpl; try done.
      * by exists order.
      * intros x. destruct (decide (x = k)) as [->|Hne].
        -- rewrite lookup_delete_eq. rewrite decide_True; [done|by left].
        -- rewrite lookup_delete_ne by done.
           rewrite decide_False; [done|]. by intros ->%list_elem_of_singleton.
      * rewrite Hd. constructor; [|constructor]. eauto.
      * exists d, k, v, it, (env s), e. by rewrite Hdw.
    + destruct (IH (call (EvDestruct k (value it)) w (set_m (delete k (m s)) s)))
        as (err & s' & dn & evs & Hcr & Hhp & [Hpre Hm Hcalls Hevs Hcfg Herr]);
        [done..|].
      simpl in *. rewrite Hd in Hevs.
      exists err, s', (k :: dn), (EvDestruct k (value it) :: evs).
      split; [done|]. split; [done|]. split; simpl.
      * destruct Hpre as [rest ->]. by exists rest.
      * by apply Hm'.
      * by rewrite Hcalls, <- app_assoc.
      * rewrite Hd. constructor; [eauto|].
        eapply Forall2_impl; [apply Hevs|]. intros x e (p & itp & Hp & Hitp & ->).
        apply lookup_delete_Some in Hp as [_ Hp]. eauto.
      * done.
      * destruct err as [e|]; [|by subst].
        destruct Herr as (d' & x & p & itp & w' & e' & Hd' & Hlast & Hp & Hitp & Hdw' & ->).
        exists d, x, p, itp, w', e'. assert (d' = d) as -> by congruence.
        split; [done|]. split.
        { destruct dn; [done|]. done. }
        apply lookup_delete_Some in Hp as [_ Hp]. done.
  - destruct (IH (set_m (delete k (m s)) s))
      as (err & s' & dn & evs & Hcr & Hhp & [Hpre Hm Hcalls Hevs Hcfg Herr]);
      [done..|].
    simpl in *. rewrite Hd in Hevs.
    exists err, s', (k :: dn), evs.
    split; [done|]. split; [done|]. split; simpl.
    + destruct Hpre as [rest ->]. by exists rest.
    + by apply Hm'.
    + done.
    + by rewrite Hd.
    + done.
    + destruct err as [e|]; [|by subst].
      destruct Herr as (d' & x & p & itp & w' & e' & Hd' & _). congruence.
Qed.

Lemma Inv_nil s h :
  wfq h → pq h = [] → same_items (hp s) h → linked s → Inv (set_hp h s).
Proof.
  intros Hw Hnil Hs [HL1 _]. split; [done|]. split; [|split]; simpl.
  - intros k Hk. unfold Len in Hk. rewrite Hnil in Hk. simpl in Hk. lia.
  - intros k p Hk. destruct (HL1 _ _ Hk) as (it & Hit & Hkk).
    destruct (same_items_Some _ _ _ _ Hs Hit) as (it' & Hit' & Hst).
    exists it'. split; [done|]. by apply strip_fields in Hst as (_ & _ & _ & ->).
  - intros q. rewrite Hnil. by intros ?%elem_of_nil.
Qed.

Lemma Clear_spec s order :
  Inv s → range_order order s →
  ∃ err s' done evs,
    Clear order s = Ok (err, s') ∧ pq (hp s') = [] ∧
    same_items (hp s) (hp s') ∧ Inv s' ∧ cleared s order err s' done evs.
Proof.
  intros HI [Hnd Hord]. pose proof HI as (Hw & _ & HL).
  destruct (drain_spec (S (length (pq (hp s)))) (hp s) Hw) as (h & Hdr & Hwh & Hs & Hnil);
    [lia|].
  assert (HI0 : Inv (set_hp h s)) by by apply Inv_nil.
  destruct (clear_range_spec order (set_hp h s))
    as (err & s' & dn & evs & Hcr & Hhp & [Hpre Hm Hcalls Hevs Hcfg Herr]).
  { intros k p Hk. destruct (proj1 (proj2 (proj2 HI0)) _ _ Hk) as (it & Hit & _).
    eauto. }
  { done. }
  { intros k Hk. by apply Hord. }
  assert (HC : Clear order s = Ok (err, s')).
  { unfold Clear. by rewrite Hdr, res_bind_Ok. }
  clear Hdr Hcr. simpl in *.
  exists err, s', dn, evs. split; [|split; [|split; [|split]]].
  - done.
  - by rewrite Hhp.
  - by rewrite Hhp.
  - replace s' with (set_hp h s') by (destruct s'; simpl in *; by subst).
    apply Inv_nil; [done|done|by rewrite Hhp|].
    split; [|rewrite Hhp, Hnil; by intros ? ?%elem_of_nil].
    intros k p Hk. rewrite Hm in Hk. destruct (decide _); [done|].
    rewrite Hhp. by apply HI0.
  - split; try done.
    + destruct (destructor s) as [d0|]; [|done].
      eapply Forall2_impl; [apply Hevs|]. intros k e (p & it' & Hp & Hit' & ->).
      destruct (same_items_Some _ _ _ _ (same_items_sym _ _ Hs) Hit')
        as (it & Hit & Hst).
      exists p, it. split; [done|]. split; [done|].
      by apply strip_fields in Hst as (-> & _).
    + destruct err as [e|]; [|done].
      destruct Herr as (d & k & p & it' & w & e' & Hd & Hl & Hp & Hit' & Hdw & ->).
      destruct (same_items_Some _ _ _ _ (same_items_sym _ _ Hs) Hit')
        as (it & Hit & Hst).
      apply strip_fields in Hst as (Hv & _). rewrite <- Hv in Hdw.
      by exists d, k, p, it, w, e'.
Qed.

(** ** Every operation keeps the invariants *)

Lemma counted_same n s h' :
  counted n s → same_items (hp s) h' →
  (∀ q, q ∈ pq h' → q ∈ pq (hp s)) → counted n (set_hp h' s).
Proof.
  intros Hc Hs He p it' Hit'. simpl in *.
  destruct (same_items_Some _ _ _ _ (same_items_sym _ _ Hs) Hit') as (it & Hit & Hst).
  apply strip_fields in Hst as (_ & _ & <- & _).
  destruct (Hc _ _ Hit) as [? Hq]. split; [done|]. intros Hin. by apply Hq, He.
Qed.

Lemma counted_mono n n' s : counted n s → n ≤ n' → counted n' s.
Proof.
  intros Hc Hn p it Hit. destruct (Hc _ _ Hit) as [? ?]. split; [lia|done].
Qed.

Lemma Inv_ptr_lt s q : Inv s → q ∈ pq (hp s) → (q < length (mem (hp s)))%nat.
Proof.
  intros (_ & _ & _ & HL2) Hq. destruct (HL2 _ Hq) as (it & Hit & _).
  by eapply lookup_lt_Some.
Qed.

Lemma Get_Inv s k n :
  Inv s → counted n s → 0 ≤ n → n + 1 < 2 ^ 63 →
  ∃ r s', Get k s = Ok (r, s') ∧ Inv s' ∧ counted (n + 1) s' ∧ same_cfg s s'.
Proof.
  intros HI Hc Hn0 Hn.
  destruct (m s !! k) as [p|] eqn:Hk.
  - destruct (proj1 (proj2 (proj2 HI)) _ _ Hk) as (it & Hit & _).
    destruct (Get_tracked_spec s k p it HI Hk Hit)
      as (h2 & err & s1 & popped & HI0 & Hs2 & He2 & _ & _ & Hpr & HG).
    eexists _, s1. split; [done|]. split; [apply Hpr|]. split; [|apply Hpr].
    apply (pruned_counted _ _ _ _ _ _ Hpr).
    intros q itq Hitq. simpl in Hitq.
    destruct (same_items_Some _ _ _ _ (same_items_sym _ _ Hs2) Hitq)
      as (itq' & Hitq' & Hst).
    apply strip_fields in Hst as (_ & _ & Hrc & _). rewrite <- Hrc. simpl in Hitq'.
    rewrite lookup_store in Hitq' by by eapply lookup_lt_Some.
    destruct (decide (q = p)) as [->|Hne].
    + injection Hitq' as <-. simpl. destruct (Hc _ _ Hit) as [Hb _].
      rewrite wrap_id by lia. split; [lia|]. intros Hin%He2. by destruct Hin.
    + destruct (Hc _ _ Hitq') as [Hb Hq]. split; [lia|].
      intros Hin%He2. apply Hq, Hin.
  - destruct (Get_new_spec s k HI Hk) as (err & s1 & popped & HP & Hpr & Hk1 & HG).
    pose proof (pruned_Inv _ _ _ _ _ Hpr) as HI1.
    pose proof (pruned_counted _ _ _ _ _ n Hpr Hc) as Hc1.
    pose proof (pruned_cfg _ _ _ _ _ Hpr) as Hcfg. simpl in Hcfg.
    rewrite HG. destruct err as [e|].
    { eexists _, _. split; [done|]. split; [done|].
      split; [eapply counted_mono; [apply Hc1|lia]|done]. }
    destruct (constructor s k (env s1)) as [[v [e|]] w].
    { eexists _, _. split; [done|]. split; [apply HI1|].
      split; [eapply counted_mono; [apply Hc1|lia]|done]. }
    eexists _, _. split; [done|]. split; [|split; [|done]].
    + apply (Inv_alloc (call (EvConstruct k) w s1)); [apply HI1|done].
    + intros q itq Hitq. simpl in Hitq.
      apply lookup_app_Some in Hitq as [Hitq|[Hlen Hitq]].
      * destruct (Hc1 _ _ Hitq) as [? ?]. split; [lia|done].
      * apply list_lookup_singleton_Some in Hitq as [Hq <-]. simpl.
        split; [lia|]. intros Hin%(Inv_ptr_lt _ _ HI1). lia.
Qed.

Lemma Release_Inv s k ttl n :
  Inv s → counted n s → 0 ≤ n → n + 1 < 2 ^ 63 →
  ∃ s', Release k ttl s = Ok s' ∧ Inv s' ∧ counted (n + 1) s' ∧ same_cfg s s'.
Proof.
  intros HI Hc Hn0 Hn.
  destruct (m s !! k) as [p|] eqn:Hk.
  - destruct (proj1 (proj2 (proj2 HI)) _ _ Hk) as (it & Hit & _).
    destruct (Release_tracked_spec s k ttl p it n HI Hc Hn0 Hn Hk Hit)
      as (s' & HR & HI' & Hc' & _ & Hcfg & _).
    by exists s'.
  - exists s. rewrite Release_untracked by done.
    split; [done|]. split; [done|].
    split; [eapply counted_mono; [apply Hc|lia]|done].
Qed.

Lemma Prune_Inv s n :
  Inv s → counted n s →
  ∃ r s', Prune s = Ok (r, s') ∧ Inv s' ∧ counted n s' ∧ same_cfg s s'.
Proof.
  intros HI Hc. destruct (Prune_spec s HI) as (err & s' & popped & HP & Hpr).
  exists err, s'. split; [done|]. split; [apply Hpr|].
  split; [by apply (pruned_counted _ _ _ _ _ n Hpr)|apply Hpr].
Qed.

Lemma Clear_Inv s order n :
  Inv s → counted n s → range_order order s →
  ∃ r s', Clear order s = Ok (r, s') ∧ Inv s' ∧ counted n s' ∧ same_cfg s s'.
Proof.
  intros HI Hc Hro.
  destruct (Clear_spec s order HI Hro)
    as (err & s' & dn & evs & HC & Hnil & Hs & HI' & Hcl).
  exists err, s'. split; [done|]. split; [done|]. split; [|apply Hcl].
  replace s' with (set_hp (hp s') s') by by destruct s'.
  intros p it' Hit'. simpl in Hit'.
  destruct (same_items_Some _ _ _ _ (same_items_sym _ _ Hs) Hit') as (it & Hit & Hst).
  apply strip_fields in Hst as (_ & _ & <- & _).
  destruct (Hc _ _ Hit) as [? _]. split; [done|]. simpl. rewrite Hnil.
  by intros ?%elem_of_nil.
Qed.

Lemma run_op_Inv s o w n :
  Inv s → counted n s → 0 ≤ n → n + 1 < 2 ^ 63 → op_ok o s →
  ∃ s', run_op o (set_env w s) = Ok s' ∧ Inv s' ∧ counted (n + 1) s' ∧
        same_cfg s s'.
Proof.
  intros HI Hc Hn0 Hn Hok.
  assert (HIw : Inv (set_env w s)) by done.
  assert (Hcw : counted n (set_env w s)) by done.
  destruct o as [k|k ttl| |order]; simpl.
  - destruct (Get_Inv _ k n HIw Hcw Hn0 Hn) as (r & s' & -> & ? & ? & ?).
    by exists s'.
  - destruct (Release_Inv _ k ttl n HIw Hcw Hn0 Hn) as (s' & -> & ? & ? & ?).
    by exists s'.
  - destruct (Prune_Inv _ n HIw Hcw) as (r & s' & -> & ? & ? & ?).
    exists s'. split; [done|]. split; [done|].
    split; [eapply counted_mono; [done|lia]|done].
  - destruct (Clear_Inv _ order n HIw Hcw Hok) as (r & s' & -> & ? & ? & ?).
    exists s'. split; [done|]. split; [done|].
    split; [eapply counted_mono; [done|lia]|done].
Qed.

Lemma NewExpiring_Inv c d f (w : W) :
  Inv (NewExpiring (T:=T) c d f w) ∧ counted 0 (NewExpiring (T:=T) c d f w).
Proof.
  split; [split; [|split; [|split]]|]; simpl.
  - split.
    + intros k p Hp. apply pqz_range in Hp. unfold Len in Hp. simpl in Hp. lia.
    + intros p it Hit. done.
  - intros k Hk. unfold Len in Hk. simpl in Hk. lia.
  - intros k p Hk. done.
  - intros p Hp. by apply elem_of_nil in Hp.
  - intros p it Hit. done.
Qed.

Lemma reach_Inv c d f n s :
  reach c d f n s → Z.of_nat n < 2 ^ 63 →
  Inv s ∧ counted (Z.of_nat n) s ∧
  constructor s = c ∧ destructor s = d ∧ nowFunc s = f.
Proof.
  induction 1 as [w|n s w o s' Hr IH Hok Hrun]; intros Hn.
  - destruct (NewExpiring_Inv c d f w) as [? ?]. done.
  - destruct IH as (HI & Hc & Hcfg); [lia|].
    destruct (run_op_Inv s o w (Z.of_nat n) HI Hc) as (s'' & Hrun' & HI' & Hc' & Hcfg');
      [lia|lia|done|].
    assert (s'' = s') as -> by congruence.
    split; [done|]. split; [by replace (Z.of_nat (S n)) with (Z.of_nat n + 1) by lia|].
    destruct Hcfg as (<- & <- & <-). apply Hcfg'.
Qed.

(** From a state of a history every operation returns. *)
Lemma reach_step c d f n s o w :
  reach c d f n s → Z.of_nat n + 1 < 2 ^ 63 → op_ok o s →
  ∃ s', run_op o (set_env w s) = Ok s' ∧ reach c d f (S n) s'.
Proof.
  intros Hr Hn Hok. destruct (reach_Inv _ _ _ _ _ Hr) as (HI & Hc & _); [lia|].
  destruct (run_op_Inv s o w (Z.of_nat n) HI Hc) as (s' & Hrun & _); [lia|done..|].
  exists s'. split; [done|]. by eapply reach_op.
Qed.

Lemma reach_run_ops c d f ops : ∀ n s s',
  reach c d f n s → ops_ok ops s → run_ops ops s = Ok s' →
  reach c d f (n + length ops) s'.
Proof.
  induction ops as [|[w o] ops IH]; intros n s s' Hr Hok Hrun; simpl in *.
  - injection Hrun as <-. by rewrite Nat.add_0_r.
  - destruct Hok as [Ho Hok].
    destruct (run_op o (set_env w s)) as [s1| |] eqn:E; try done.
    rewrite res_bind_Ok in Hrun.
    replace (n + S (length ops))%nat with (S n + length ops)%nat by lia.
    apply (IH _ s1); [|done..]. by eapply reach_op.
Qed.

(** ** Errors of the loop of [prune], whatever the state *)

Lemma prune_loop_err fuel now (d : option (T → W → option error * W)) cb :
  ∀ s e s',
  prune_loop fuel now d cb s = Ok (Some e, s') →
  ∃ d' k v w, d = Some d' ∧ d' v w = (Some e, env s') ∧
              last (calls s') = Some (EvDestruct k v).
Proof.
  induction fuel as [|fuel IH]; intros s e s' Hrun; [done|].
  rewrite prune_loop_S in Hrun.
  destruct (0 <? Len (hp s)); [|done].
  apply bind_Ok in Hrun as (root & _ & Hrun).
  apply bind_Ok in Hrun as (r & _ & Hrun).
  destruct (negb (Before (deadtime r) now)); [done|].
  apply bind_Ok in Hrun as ([i h1] & _ & Hrun).
  apply bind_Ok in Hrun as (it & _ & Hrun). cbv zeta in Hrun.
  destruct d as [d'|]; [|by apply IH in Hrun as (? & ? & ? & ? & ? & _)].
  destruct (d' (value it) (env (cb (key it) (set_hp h1 s)))) as [[e'|] w] eqn:Hd.
  - injection Hrun as <- <-.
    exists d', (key it), (value it), (env (cb (key it) (set_hp h1 s))).
    split; [done|]. split; [done|]. simpl. by rewrite last_snoc.
  - by apply IH in Hrun.
Qed.


Lemma Prune_err s err s' :
  Prune s = Ok (Some err, s') →
  ∃ d k v w, destructor s = Some d ∧ d v w = (Some err, env s') ∧
             last (calls s') = Some (EvDestruct k v).
Proof.
  unfold Prune, prune. destruct (nowFunc s (env s)) as [now w].
  apply prune_loop_err.
Qed.

(** The destructor calls of a pass are for keys of queued items. *)
Lemma pruned_events_keys now s err s' popped :
  Inv s → pruned now s err s' popped →
  ∃ evs, calls s' = calls s ++ evs ∧
    ∀ e, e ∈ evs →
      ∃ p it, p ∈ pq (hp s) ∧ mem (hp s) !! p = Some it ∧
              m s !! key it = Some p ∧ e = EvDestruct (key it) (value it).
Proof.
  intros (_ & _ & _ & HL2) Hpr.
  destruct (pruned_events _ _ _ _ _ Hpr) as (evs & Hc & Hev).
  exists evs. split; [done|]. intros e He.
  rewrite Forall_forall in Hev. destruct (Hev _ He) as (p & it & Hp & Hit & ->).
  assert (Hin : p ∈ pq (hp s)) by (apply (pruned_pq _ _ _ _ _ Hpr); by left).
  destruct (HL2 _ Hin) as (it' & Hit' & Hm). assert (it' = it) as -> by congruence.
  by exists p, it.
Qed.

Lemma Get_tracked_facts s k p it :
  Inv s → m s !! k = Some p → mem (hp s) !! p = Some it →
  ∃ err s' evs it',
    Get k s = Ok ((match err with Some _ => zero | None => value it end, err), s') ∧
    Inv s' ∧
    calls s' = calls s ++ EvNow :: evs ∧
    (∀ e, e ∈ evs → ∃ k' v, e = EvDestruct k' v ∧ k' ≠ k) ∧
    (p ∉ pq (hp s')) ∧ m s' !! k = Some p ∧
    mem (hp s') !! p = Some it' ∧
    refCounter it' = wrap (refCounter it + 1) ∧
    value it' = value it ∧ deadtime it' = deadtime it ∧ key it' = key it ∧
    index it' = -1 ∧
    (∀ q, q ∈ pq (hp s') → q ∈ pq (hp s)) ∧
    (∀ k' q, m s' !! k' = Some q → m s !! k' = Some q).
Proof.
  intros HI Hk Hit.
  destruct (Get_tracked_spec s k p it HI Hk Hit)
    as (h2 & err & s1 & popped & HI0 & Hs2 & He2 & (it2 & Hit2 & Hidx2) & HP & Hpr & HG).
  cbv zeta in *.
  destruct (pruned_events_keys _ (call EvNow _ (set_hp h2 s)) _ _ _ HI0 Hpr)
    as (evs & Hcalls & Hev).
  assert (Hnp : p ∉ popped).
  { intros Hin. assert (p ∈ pq h2) as Hq by (apply (pruned_pq _ _ _ _ _ Hpr); by left).
    apply He2 in Hq. by destruct Hq. }
  assert (Hnq : p ∉ pq (hp s1)).
  { intros Hin. assert (p ∈ pq h2) as Hq by (apply (pruned_pq _ _ _ _ _ Hpr); by right).
    apply He2 in Hq. by destruct Hq. }
  destruct (same_items_Some _ _ _ _ (pruned_items _ _ _ _ _ Hpr) Hit2)
    as (it3 & Hit3 & Hst3).
  assert (Hit1 : mem (PQ (<[p := set_refCounter (wrap (refCounter it + 1)) it]>
                            (mem (hp s))) (pq (hp s))) !! p
                 = Some (set_refCounter (wrap (refCounter it + 1)) it)).
  { apply list_lookup_insert_eq. by eapply lookup_lt_Some. }
  destruct (same_items_Some _ _ _ _ Hs2 Hit1) as (it2' & Hit2' & Hst2).
  assert (it2' = it2) as -> by congruence.
  apply strip_fields in Hst3 as (Hv3 & Hd3 & Hr3 & Hk3).
  apply strip_fields in Hst2 as (Hv2 & Hd2 & Hr2 & Hk2). simpl in *.
  exists err, s1, evs, it3. split; [done|]. split; [apply Hpr|].
  split; [by rewrite Hcalls, <- app_assoc|]. split; [|split; [done|split; [|split; [done|]]]].
  - intros e He. destruct (Hev _ He) as (q & itq & Hq & Hitq & Hm & ->).
    exists (key itq), (value itq). split; [done|]. simpl in *.
    intros E. rewrite E in Hm. assert (q = p) as -> by congruence.
    apply He2 in Hq. by destruct Hq.
  - apply (pruned_m _ _ _ _ _ Hpr). by split.
  - split; [congruence|]. split; [congruence|]. split; [congruence|].
    split; [congruence|]. split; [|split].
    + destruct (pruned_Inv _ _ _ _ _ Hpr) as (Hw & _).
      destruct (proj2 Hw _ _ Hit3) as [?|Hq]; [done|].
      destruct Hnq. by eapply pqz_elem.
    + intros q Hq. apply He2. apply (pruned_pq _ _ _ _ _ Hpr). by right.
    + intros k' q Hq. by apply (pruned_m _ _ _ _ _ Hpr) in Hq as [? _].
Qed.

(** ** The end of a pass that returns no error *)

Lemma prune_loop_quiet fuel now (d : option (T → W → option error * W)) cb :
  ∀ s s', prune_loop fuel now d cb s = Ok (None, s') → quiet now (hp s').
Proof.
  induction fuel as [|fuel IH]; intros s s' Hrun; [done|].
  rewrite prune_loop_S in Hrun.
  destruct (Z.ltb_spec 0 (Len (hp s))) as [Hn|Hn].
  2:{ injection Hrun as <-. by left. }
  apply bind_Ok in Hrun as (root & Hroot & Hrun).
  apply bind_Ok in Hrun as (r & Hr & Hrun).
  destruct (Before (deadtime r) now) eqn:Hb; simpl in Hrun.
  2:{ injection Hrun as <-. right. by exists root, r. }
  apply bind_Ok in Hrun as ([i h1] & _ & Hrun).
  apply bind_Ok in Hrun as (it & _ & Hrun). cbv zeta in Hrun.
  destruct d as [d'|]; [|by apply IH in Hrun].
  destruct (d' (value it) (env (cb (key it) (set_hp h1 s)))) as [[e'|] w] eqn:Hd;
    [done|by apply IH in Hrun].
Qed.

Lemma prune_loop_at_quiet fuel now (d : option (T → W → option error * W)) cb s :
  quiet now (hp s) → prune_loop (S fuel) now d cb s = Ok (None, s).
Proof.
  intros Hq. rewrite prune_loop_S.
  destruct (Z.ltb_spec 0 (Len (hp s))) as [Hn|Hn]; [|done].
  destruct Hq as [?|(root & r & Hroot & Hr & Hb)]; [lia|].
  by rewrite Hroot, res_bind_Ok, Hr, res_bind_Ok, Hb.
Qed.

Lemma prune_loop_cfg fuel now (d : option (T → W → option error * W)) :
  ∀ s r s', prune_loop fuel now d del_cb s = Ok (r, s') → same_cfg s s'.
Proof.
  induction fuel as [|fuel IH]; intros s r' s' Hrun; [done|].
  rewrite prune_loop_S in Hrun.
  destruct (0 <? Len (hp s)); [|by injection Hrun as <- <-].
  apply bind_Ok in Hrun as (root & _ & Hrun).
  apply bind_Ok in Hrun as (r & _ & Hrun).
  destruct (negb (Before (deadtime r) now)); [by injection Hrun as <- <-|].
  apply bind_Ok in Hrun as ([i h1] & _ & Hrun).
  apply bind_Ok in Hrun as (it & _ & Hrun). cbv zeta in Hrun.
  destruct d as [d'|]; [|by apply IH in Hrun].
  destruct (d' (value it) (env (del_cb (key it) (set_hp h1 s)))) as [[e'|] w] eqn:Hd.
  - by injection Hrun as <- <-.
  - by apply IH in Hrun.
Qed.

(** ** Items out of the queue stay where they are *)

Lemma pruned_parked now s err s' popped k p it :
  pruned now s err s' popped → parked k p s → mem (hp s) !! p = Some it →
  parked k p s' ∧ ∃ it', mem (hp s') !! p = Some it' ∧ strip it' = strip it.
Proof.
  intros Hpr [Hk Hnq] Hit.
  assert (Hnp : p ∉ popped).
  { intros Hin. apply Hnq, (pruned_pq _ _ _ _ _ Hpr). by left. }
  split; [split|].
  - by apply (pruned_m _ _ _ _ _ Hpr).
  - intros Hin. apply Hnq, (pruned_pq _ _ _ _ _ Hpr). by right.
  - by apply (same_items_Some _ _ _ _ (pruned_items _ _ _ _ _ Hpr)).
Qed.

Lemma linked_inj s k k' p :
  Inv s → m s !! k = Some p → m s !! k' = Some p → k = k'.
Proof.
  intros (_ & _ & HL1 & _) Hk Hk'.
  destruct (HL1 _ _ Hk) as (it & Hit & <-).
  destruct (HL1 _ _ Hk') as (it' & Hit' & <-). congruence.
Qed.

Lemma parked_step s o w n k p it s' :
  Inv s → counted n s → 0 ≤ n → n + 1 < 2 ^ 63 →
  parked k p s → mem (hp s) !! p = Some it →
  ¬ touches k o ∨ (refCounter it ≤ 0 ∧ ¬ revives k o) →
  run_op o (set_env w s) = Ok s' →
  Inv s' ∧ counted (n + 1) s' ∧ parked k p s' ∧
  ∃ it', mem (hp s') !! p = Some it' ∧
         (¬ revives k o → refCounter it' ≤ refCounter it).
Proof.
  intros HI Hc Hn0 Hn Hpk Hit Hop Hrun.
  destruct (run_op_Inv s o w n HI Hc Hn0 Hn) as (s'' & Hrun' & HI' & Hc' & _).
  { destruct o; try done. simpl in Hop. tauto. }
  assert (s'' = s') as -> by congruence. clear Hrun'.
  split; [done|]. split; [done|].
  set (s0 := set_env w s) in *.
  assert (HI0 : Inv s0) by done.
  assert (Hpk0 : parked k p s0) by done.
  assert (Hit0 : mem (hp s0) !! p = Some it) by done.
  destruct Hpk as [Hk Hnq].
  destruct o as [k'|k' ttl| |order]; simpl in Hrun, Hop.
  - (* Get *)
    apply bind_Ok in Hrun as ([r s1] & HG & [= <-]).
    destruct (m s0 !! k') as [p'|] eqn:Hk'.
    + destruct (proj1 (proj2 (proj2 HI0)) _ _ Hk') as (it0 & Hitp' & _).
      destruct (Get_tracked_spec s0 k' p' it0 HI0 Hk' Hitp')
        as (h2 & err & s1' & popped & HI2 & Hs2 & He2 & _ & _ & Hpr & HG').
      cbv zeta in *. rewrite HG in HG'. injection HG' as _ <-.
      set (it1 := set_refCounter (wrap (refCounter it0 + 1)) it0) in *.
      assert (Hit1 : ∃ x, mem (PQ (<[p' := it1]> (mem (hp s0))) (pq (hp s0))) !! p = Some x
                          ∧ (p ≠ p' → x = it)).
      { simpl. rewrite lookup_store by by eapply lookup_lt_Some.
        destruct (decide (p = p')); [by exists it1|by exists it]. }
      destruct Hit1 as (x & Hx & Hxit).
      destruct (same_items_Some _ _ _ _ Hs2 Hx) as (x2 & Hx2 & Hst2).
      assert (Hpk2 : parked k p (call EvNow (nowFunc s0 (env s0)).2 (set_hp h2 s0))).
      { split; [done|]. simpl. intros Hin%He2. by destruct Hin. }
      destruct (pruned_parked _ _ _ _ _ k p x2 Hpr Hpk2 Hx2) as (Hpk' & it' & Hit' & Hst').
      split; [done|]. exists it'. split; [done|]. intros Hne.
      assert (p ≠ p') as Hpp.
      { intros ->. apply Hne. by apply (linked_inj s0 k' k p'). }
      apply strip_fields in Hst' as (_ & _ & -> & _).
      apply strip_fields in Hst2 as (_ & _ & -> & _). by rewrite (Hxit Hpp).
    + destruct (Get_new_spec s0 k' HI0 Hk') as (err & s1' & popped & HP & Hpr & Hk1 & HG').
      destruct (pruned_parked _ _ _ _ _ k p it Hpr Hpk0 Hit0)
        as ([Hk2 Hnq2] & it' & Hit' & Hst').
      apply strip_fields in Hst' as (_ & _ & Hrc & _).
      rewrite HG in HG'. destruct err as [e|].
      { injection HG' as _ ->. split; [done|]. exists it'. split; [done|]. lia. }
      destruct (constructor s0 k' (env s1')) as [[v [e|]] w'].
      { injection HG' as _ ->. split; [done|]. exists it'. split; [done|]. lia. }
      injection HG' as _ ->. split; [split|]; simpl.
      * rewrite lookup_insert_ne; [done|]. intros ->. congruence.
      * done.
      * exists it'. split; [by apply lookup_app_l_Some|]. lia.
  - (* Release *)
    destruct (m s0 !! k') as [p'|] eqn:Hk'.
    2:{ rewrite Release_untracked in Hrun by done. injection Hrun as <-.
        split; [done|]. exists it. split; [done|]. lia. }
    destruct (proj1 (proj2 (proj2 HI0)) _ _ Hk') as (it0 & Hitp' & _).
    destruct (Release_tracked_spec s0 k' ttl p' it0 n HI0 Hc Hn0 Hn Hk' Hitp')
      as (s1 & HR & _ & _ & Hm & _ & Hpq & (it' & Hit' & Hrc) & Hfr & Hsame).
    rewrite Hrun in HR. injection HR as <-.
    destruct (decide (k' = k)) as [->|Hne].
    + assert (p' = p) as -> by (change (m s !! k = Some p') in Hk'; congruence).
      assert (it0 = it) as -> by (change (mem (hp s) !! p = Some it0) in Hitp'; congruence).
      destruct Hop as [?|[Hle _]]; [done|].
      split; [split|].
      * by rewrite Hm.
      * rewrite Hsame; [done|lia].
      * exists it'. split; [done|]. lia.
    + assert (p ≠ p') as Hpp.
      { intros ->. apply Hne. by apply (linked_inj s0 k' k p'). }
      destruct (Hfr p it Hpp Hit0) as (itp & Hitp & Hst).
      apply strip_fields in Hst as (_ & _ & Hrc' & _).
      split; [split|].
      * by rewrite Hm.
      * intros [->|Hin]%Hpq; done.
      * exists itp. split; [done|]. lia.
  - (* Prune *)
    apply bind_Ok in Hrun as ([r s1] & HP & [= <-]).
    destruct (Prune_spec s0 HI0) as (err & s1' & popped & HP' & Hpr).
    rewrite HP in HP'. injection HP' as _ <-.
    destruct (pruned_parked _ _ _ _ _ k p it Hpr Hpk0 Hit0) as (Hpk' & it' & Hit' & Hst').
    apply strip_fields in Hst' as (_ & _ & Hrc & _).
    split; [done|]. exists it'. split; [done|]. lia.
  - tauto.
Qed.

Lemma parked_run k p ops : ∀ s n it s',
  Inv s → counted n s → 0 ≤ n → n + Z.of_nat (length ops) < 2 ^ 63 →
  parked k p s → mem (hp s) !! p = Some it →
  Forall (λ wo, ¬ touches k wo.2) ops ∨
    (refCounter it ≤ 0 ∧ Forall (λ wo, ¬ revives k wo.2) ops) →
  run_ops ops s = Ok s' → parked k p s'.
Proof.
  induction ops as [|[w o] ops IH]; intros s n it s' HI Hc Hn0 Hn Hpk Hit Hops Hrun.
  { by injection Hrun as <-. }
  simpl in Hrun, Hn. apply bind_Ok in Hrun as (s1 & Hop & Hrun).
  destruct (parked_step s o w n k p it s1 HI Hc Hn0) as (HI1 & Hc1 & Hpk1 & it1 & Hit1 & Hrc);
    try done; [lia| |].
  { destruct Hops as [Ht|[Hle Hr]].
    - left. by apply Forall_cons in Ht as [? _].
    - right. split; [done|]. by apply Forall_cons in Hr as [? _]. }
  apply (IH s1 (n + 1) it1 s'); try done; [lia..|].
  destruct Hops as [Ht|[Hle Hr]].
  - left. by apply Forall_cons in Ht as [_ ?].
  - right. apply Forall_cons in Hr as [Hr1 Hr]. split; [|done].
    specialize (Hrc Hr1). lia.
Qed.

Lemma range_order_dom s order :
  NoDup order → dom (m s) = list_to_set order → range_order order s.
Proof.
  intros Hnd Hdom. split; [done|]. intros k.
  by rewrite <- elem_of_dom, Hdom, elem_of_list_to_set.
Qed.

Lemma Get_tracked_err s k0 p r err s' :
  m s !! k0 = Some p → Get k0 s = Ok ((r, Some err), s') →
  ∃ d k v w, destructor s = Some d ∧ d v w = (Some err, env s') ∧
             last (calls s') = Some (EvDestruct k v).
Proof.
  intros Hk HG. unfold Get in HG. rewrite Hk in HG.
  apply bind_Ok in HG as (it & _ & HG).
  apply bind_Ok in HG as (h1 & _ & HG).
  apply bind_Ok in HG as (h2 & _ & HG).
  apply bind_Ok in HG as ([err' s1] & HP & HG).
  destruct err' as [e|].
  - injection HG as <- <- <-. by apply Prune_err in HP.
  - by apply bind_Ok in HG as (it1 & _ & HG).
Qed.

(** * The claims *)

(** C1 (as the code has it). After any history of fewer than 2^63
    operations no queued item has a positive counter.  The counter itself
    is not kept from going negative: [Release] of a tracked key always
    takes one off it, at 0 as well. *)
Theorem C1_queued_refcount_not_positive c d f n s :
  reach c d f n s → Z.of_nat n < 2 ^ 63 →
  (∀ p it, p ∈ pq (hp s) → mem (hp s) !! p = Some it → refCounter it ≤ 0) ∧
  (Z.of_nat n + 1 < 2 ^ 63 →
   ∀ k ttl p it, m s !! k = Some p → mem (hp s) !! p = Some it →
     ∃ s' it', Release k ttl s = Ok s' ∧ mem (hp s') !! p = Some it' ∧
               refCounter it' = refCounter it - 1).
Proof.
  intros Hr Hn. destruct (reach_Inv _ _ _ _ _ Hr Hn) as (HI & Hc & _).
  split.
  - intros p it Hp Hit. by apply (Hc _ _ Hit).
  - intros Hn1 k ttl p it Hk Hit.
    destruct (Release_tracked_spec s k ttl p it _ HI Hc)
      as (s' & HR & _ & _ & _ & _ & _ & (it' & Hit' & Hrc) & _);
      [lia|lia|done|done|].
    by exists s', it'.
Qed.



(** C4. When [Get] of a key that is not tracked gets an error from the
    constructor, it returns the zero value and that error; the key stays
    out of the map, no item is allocated, the pool is as the [Prune] pass
    before the constructor call left it, and none of the destructor calls
    of that pass is for the key. *)
Theorem C4_constructor_failure s k s1 v e w :
  Inv s → m s !! k = None →
  Prune s = Ok (None, s1) → constructor s k (env s1) = ((v, Some e), w) →
  ∃ s' evs,
    Get k s = Ok ((zero, Some e), s') ∧
    m s' !! k = None ∧ hp s' = hp s1 ∧ m s' = m s1 ∧
    length (mem (hp s')) = length (mem (hp s)) ∧
    calls s' = calls s ++ EvNow :: evs ++ [EvConstruct k] ∧
    (∀ e, e ∈ evs → ∃ k' v', e = EvDestruct k' v' ∧ k' ≠ k).
Proof.
  intros HI Hk HP Hc.
  destruct (Get_new_spec s k HI Hk) as (err & s1' & popped & HP' & Hpr & Hk1 & HG).
  rewrite HP in HP'. injection HP' as <- <-. rewrite Hc in HG.
  destruct (pruned_events_keys _ (call EvNow _ s) _ _ _ HI Hpr)
    as (evs & Hcalls & Hev).
  exists (call (EvConstruct k) w s1), evs. split; [done|]. simpl.
  split; [done|]. split; [done|]. split; [done|]. split; [|split].
  - symmetry. apply (same_items_length _ _ (pruned_items _ _ _ _ _ Hpr)).
  - rewrite Hcalls. simpl. by rewrite <- !app_assoc.
  - intros e' He. destruct (Hev _ He) as (q & itq & Hq & Hitq & Hm & ->).
    exists (key itq), (value itq). split; [done|]. simpl in Hm.
    intros E. rewrite E in Hm. congruence.
Qed.


(** C6. [Get] of a key that is idle (counter 0, queued) revives it: the
    call returns, it makes no constructor call and no destructor call for
    that key, and afterwards the item is out of the queue, still mapped,
    with counter 1 and its value. *)
Theorem C6_get_revives_idle s k p it :
  Inv s → m s !! k = Some p → mem (hp s) !! p = Some it →
  refCounter it = 0 → p ∈ pq (hp s) →
  ∃ r s' evs it',
    Get k s = Ok (r, s') ∧
    calls s' = calls s ++ EvNow :: evs ∧
    (∀ e, e ∈ evs → ∃ k' v, e = EvDestruct k' v ∧ k' ≠ k) ∧
    (p ∉ pq (hp s')) ∧ m s' !! k = Some p ∧
    mem (hp s') !! p = Some it' ∧
    refCounter it' = 1 ∧ value it' = value it ∧ index it' = -1 ∧
    (r.2 = None → r.1 = value it).
Proof.
  intros HI Hk Hit Hrc Hq.
  destruct (Get_tracked_facts s k p it HI Hk Hit)
    as (err & s' & evs & it' & HG & _ & Hcalls & Hev & Hnq & Hm & Hit' & Hrc'
        & Hv & _ & _ & Hidx & _).
  eexists _, s', evs, it'. split; [done|]. do 5 (split; [done|]).
  split; [by rewrite Hrc', Hrc|]. split; [done|]. split; [done|].
  simpl. by intros ->.
Qed.

(** C7. [Release] of a key the pool does not track returns at once, with
    the pool, the environment and the record of calls as they were: no
    error (it has no result), no change of map or queue, no constructor or
    destructor call. *)
Theorem C7_release_untracked_noop s k ttl :
  m s !! k = None → Release k ttl s = Ok s.
Proof. apply Release_untracked. Qed.

(** C8 (as the code has it). When a [Prune] pass has returned no error, a
    second pass that reads the same time from the clock pops nothing: it
    returns no error, makes no destructor call, and leaves map and queue
    as they were (only the clock has been read once more). *)
Theorem C8_prune_twice s s1 w :
  Prune s = Ok (None, s1) →
  (nowFunc s w).1 = (nowFunc s (env s)).1 →
  Prune (set_env w s1) = Ok (None, call EvNow (nowFunc s w).2 s1).
Proof.
  intros HP Hnow. unfold Prune, prune in *.
  destruct (nowFunc s (env s)) as [now w0] eqn:E0. simpl in Hnow.
  pose proof (prune_loop_quiet _ _ _ _ _ _ HP) as Hq.
  apply prune_loop_cfg in HP as (_ & Hd & Hf). simpl in Hd, Hf.
  cbn [nowFunc destructor env set_env]. rewrite Hf, Hd.
  destruct (nowFunc s w) as [now' w'] eqn:E1. simpl in Hnow. subst now'.
  by rewrite prune_loop_at_quiet.
Qed.

(** C9 (as the code has it). When [Clear] returns an error the queue is
    already empty, so every item still in the map is out of the queue,
    with index [-1].  Such an item stays mapped and out of the queue
    through every history, [Prune] passes at any time included, that has
    no [Clear] and no [Release] of its key; and when its counter is not
    positive also through every history that has no [Clear] and no [Get]
    of its key. *)
Theorem C9_failed_clear_leaves_parked s n order e s1 :
  Inv s → counted n s → 0 ≤ n → range_order order s →
  Clear order s = Ok (Some e, s1) →
  pq (hp s1) = [] ∧
  ∀ k p it, m s1 !! k = Some p → mem (hp s1) !! p = Some it →
    index it = -1 ∧
    (∀ ops s2,
       n + Z.of_nat (length ops) < 2 ^ 63 →
       Forall (λ wo, ¬ touches k wo.2) ops →
       run_ops ops s1 = Ok s2 → parked k p s2) ∧
    (refCounter it ≤ 0 →
     ∀ ops s2,
       n + Z.of_nat (length ops) < 2 ^ 63 →
       Forall (λ wo, ¬ revives k wo.2) ops →
       run_ops ops s1 = Ok s2 → parked k p s2).
Proof.
  intros HI Hc Hn0 Hro HC.
  destruct (Clear_Inv s order n HI Hc Hro) as (r & s1' & HC' & HI1 & Hc1 & _).
  destruct (Clear_spec s order HI Hro) as (err & s1'' & dn & evs & HC'' & Hnil & _).
  rewrite HC in HC', HC''. injection HC' as <- <-. injection HC'' as _ <-.
  split; [done|]. intros k p it Hk Hit.
  assert (Hpk : parked k p s1).
  { split; [done|]. rewrite Hnil. by intros ?%elem_of_nil. }
  split; [|split].
  - destruct HI1 as (Hw & _). destruct (proj2 Hw _ _ Hit) as [?|Hq]; [done|].
    apply pqz_elem in Hq. rewrite Hnil in Hq. by apply elem_of_nil in Hq.
  - intros ops s2 Hn Hops Hrun.
    apply (parked_run k p ops s1 n it s2); auto.
  - intros Hle ops s2 Hn Hops Hrun.
    apply (parked_run k p ops s1 n it s2); auto.
Qed.

(** C10. When [Get] of a tracked key returns an error, the error is that
    of the destructor of another key, met in the [Prune] pass; the value
    returned is the zero value; and yet the item of the requested key has
    its counter incremented and is out of the queue, still mapped. *)
Theorem C10_get_error_keeps_acquisition s k p it r e s' :
  Inv s → m s !! k = Some p → mem (hp s) !! p = Some it →
  Get k s = Ok ((r, Some e), s') →
  r = zero ∧
  (∃ it', mem (hp s') !! p = Some it' ∧
          refCounter it' = wrap (refCounter it + 1)) ∧
  (p ∉ pq (hp s')) ∧ m s' !! k = Some p ∧
  ∃ d k' v w, destructor s = Some d ∧ k' ≠ k ∧
              d v w = (Some e, env s') ∧
              last (calls s') = Some (EvDestruct k' v).
Proof.
  intros HI Hk Hit HG.
  destruct (Get_tracked_facts s k p it HI Hk Hit)
    as (err & s'' & evs & it' & HG' & _ & Hcalls & Hev & Hnq & Hm & Hit' & Hrc' & _).
  rewrite HG in HG'. injection HG' as -> <- <-.
  split; [done|]. split; [by exists it'|]. split; [done|]. split; [done|].
  destruct (Get_tracked_err s k p _ _ _ Hk HG)
    as (d & k' & v & w & Hd & Hdw & Hlast).
  exists d, k', v, w. split; [done|]. split; [|done].
  rewrite Hcalls in Hlast.
  assert (Hin : EvDestruct k' v ∈ evs).
  { clear Hev. destruct evs as [|e0 evs _] using rev_ind.
    - by rewrite last_snoc in Hlast.
    - rewrite app_comm_cons, app_assoc, last_snoc in Hlast.
      injection Hlast as ->. apply elem_of_app. right. by left. }
  destruct (Hev _ Hin) as (k'' & v' & [= <- <-] & Hne). done.
Qed.

(** * Further properties *)

(** ** What [Release] of a tracked key writes *)

Lemma Release_tracked_full s k ttl p it n :
  Inv s → counted n s → 0 ≤ n → n + 1 < 2 ^ 63 →
  m s !! k = Some p → mem (hp s) !! p = Some it →
  ∃ s' it',
    Release k ttl s = Ok s' ∧ mem (hp s') !! p = Some it' ∧
    value it' = value it ∧ key it' = key it ∧
    refCounter it' = refCounter it - 1 ∧
    (refCounter it = 1 →
       deadtime it' = Add (nowFunc s (env s)).1 ttl ∧ (p ∉ pq (hp s)) ∧
       (∀ q, q ∈ pq (hp s') ↔ q = p ∨ q ∈ pq (hp s)) ∧
       calls s' = calls s ++ [EvNow] ∧ env s' = (nowFunc s (env s)).2) ∧
    (refCounter it ≠ 1 →
       deadtime it' = deadtime it ∧ index it' = index it ∧
       pq (hp s') = pq (hp s) ∧ calls s' = calls s ∧ env s' = env s).
Proof.
  intros HI Hc Hn0 Hn Hk Hit.
  destruct (Hc _ _ Hit) as [Hb Hq].
  set (c := refCounter it - 1).
  assert (Hwrap : wrap (refCounter it - 1) = c) by (apply wrap_id; lia).
  set (it1 := set_refCounter c it).
  set (h1 := PQ (<[p := it1]> (mem (hp s))) (pq (hp s))).
  assert (Hit1 : mem h1 !! p = Some it1).
  { apply list_lookup_insert_eq. by eapply lookup_lt_Some. }
  assert (HI1 : Inv (set_hp h1 s)) by (apply (Inv_store s p it it1); auto).
  unfold Release. rewrite Hk, (load_Ok _ _ _ Hit), res_bind_Ok, Hwrap.
  rewrite (store_Ok _ _ _ _ Hit), res_bind_Ok. fold it1 h1.
  destruct (Z.eqb_spec c 0) as [Hc0|Hc0].
  2:{ exists (set_hp h1 s), it1. split; [done|]. split; [done|].
      split; [done|]. split; [done|]. split; [done|].
      split; [unfold c in Hc0; lia|done]. }
  assert (Hnq : p ∉ pq (hp s)).
  { intros Hin. specialize (Hq Hin). unfold c in Hc0. lia. }
  assert (Hidx : index it = -1).
  { destruct HI as (Hw & _). destruct (proj2 Hw _ _ Hit) as [?|Hp]; [done|].
    destruct Hnq. by eapply pqz_elem. }
  destruct (nowFunc s (env s)) as [now w].
  rewrite (store_Ok _ _ _ _ Hit1), res_bind_Ok.
  set (it2 := set_deadtime (Add now ttl) it1).
  set (h2 := PQ (<[p := it2]> (mem h1)) (pq h1)).
  assert (Hit2 : mem h2 !! p = Some it2).
  { apply list_lookup_insert_eq. by eapply lookup_lt_Some. }
  assert (HI2 : Inv (set_hp h2 s)).
  { apply (Inv_store (set_hp h1 s) p it1 it2); auto. }
  destruct (heap_Push_spec h2 p it2) as (h3 & HPu & Hw3 & Hs3 & Hl3 & He3 & Ho3);
    [apply HI2|done|done|].
  rewrite HPu, res_bind_Ok.
  destruct (same_items_Some _ _ _ _ Hs3 Hit2) as (it3 & Hit3 & Hst3).
  apply strip_fields in Hst3 as (Hv3 & Hd3 & Hr3 & Hk3).
  exists (call EvNow w (set_hp h3 s)), it3.
  split; [done|]. split; [done|]. split; [by rewrite Hv3|].
  split; [by rewrite Hk3|]. split; [by rewrite Hr3|].
  split; [|unfold c in Hc0; lia].
  intros _. split; [by rewrite Hd3|]. split; [done|]. split; [|done].
  intros q. simpl. by rewrite He3.
Qed.

(** ** Values and keys are never written *)

Lemma same_items_kept h h' p it :
  same_items h h' → mem h !! p = Some it →
  ∃ it', mem h' !! p = Some it' ∧ value it' = value it ∧ key it' = key it.
Proof.
  intros Hs Hit. destruct (same_items_Some _ _ _ _ Hs Hit) as (it' & Hit' & Hst).
  exists it'. apply strip_fields in Hst as (? & _ & _ & ?). done.
Qed.

Lemma run_op_values s o w n s' :
  Inv s → counted n s → 0 ≤ n → n + 1 < 2 ^ 63 → op_ok o s →
  run_op o (set_env w s) = Ok s' →
  kept_values s s' ∧
  (∀ k p, m s' !! k = Some p →
     m s !! k = Some p ∨ (length (mem (hp s)) ≤ p)%nat).
Proof.
  intros HI Hc Hn0 Hn Hok Hrun.
  set (s0 := set_env w s) in *.
  assert (HI0 : Inv s0) by done.
  assert (Hc0 : counted n s0) by done.
  destruct o as [k|k ttl| |order]; simpl in Hrun.
  - apply bind_Ok in Hrun as ([r s1] & HG & [= <-]).
    destruct (m s0 !! k) as [p0|] eqn:Hk.
    + destruct (proj1 (proj2 (proj2 HI0)) _ _ Hk) as (it0 & Hit0 & _).
      destruct (Get_tracked_spec s0 k p0 it0 HI0 Hk Hit0)
        as (h2 & err & s1' & popped & HI2 & Hs2 & He2 & _ & _ & Hpr & HG').
      cbv zeta in *. rewrite HG in HG'. injection HG' as _ <-.
      split.
      * intros q itq Hitq.
        set (it1 := set_refCounter (wrap (refCounter it0 + 1)) it0) in *.
        assert (Hx : ∃ x, mem (PQ (<[p0 := it1]> (mem (hp s0))) (pq (hp s0))) !! q = Some x
                          ∧ value x = value itq ∧ key x = key itq).
        { simpl. rewrite lookup_store by by eapply lookup_lt_Some.
          destruct (decide (q = p0)) as [->|?]; [|by exists itq].
          exists it1. split; [done|].
          assert (it0 = itq) as -> by (change (mem (hp s) !! p0 = Some it0) in Hit0; congruence).
          done. }
        destruct Hx as (x & Hx & Hv & Hkx).
        destruct (same_items_kept _ _ _ _ Hs2 Hx) as (x2 & Hx2 & Hv2 & Hk2).
        destruct (same_items_kept _ _ _ _ (pruned_items _ _ _ _ _ Hpr) Hx2)
          as (x3 & Hx3 & Hv3 & Hk3).
        exists x3. split; [done|]. split; congruence.
      * intros k' q Hq. left. by apply (pruned_m _ _ _ _ _ Hpr) in Hq as [? _].
    + destruct (Get_new_spec s0 k HI0 Hk) as (err & s1' & popped & HP & Hpr & Hk1 & HG').
      assert (Hkv : kept_values s s1').
      { intros q itq Hitq.
        by apply (same_items_kept _ _ _ _ (pruned_items _ _ _ _ _ Hpr)). }
      assert (Hm1 : ∀ k' q, m s1' !! k' = Some q → m s !! k' = Some q).
      { intros k' q Hq. by apply (pruned_m _ _ _ _ _ Hpr) in Hq as [? _]. }
      rewrite HG in HG'. destruct err as [e|].
      { injection HG' as _ ->. split; [done|]. intros k' q Hq. left. by apply Hm1. }
      destruct (constructor s0 k (env s1')) as [[v [e|]] w'].
      { injection HG' as _ ->. split; [done|]. intros k' q Hq. left. by apply Hm1. }
      injection HG' as _ ->. split.
      * intros q itq Hitq. destruct (Hkv _ _ Hitq) as (it' & Hit' & ?).
        exists it'. split; [|done]. simpl. by apply lookup_app_l_Some.
      * intros k' q Hq. simpl in Hq.
        apply lookup_insert_Some in Hq as [[<- <-]|[_ Hq]]; [right|left; by apply Hm1].
        rewrite <- (same_items_length _ _ (pruned_items _ _ _ _ _ Hpr)). done.
  - destruct (m s0 !! k) as [p0|] eqn:Hk.
    2:{ rewrite Release_untracked in Hrun by done. injection Hrun as <-.
        split; [|by left]. intros q itq Hitq. by exists itq. }
    destruct (proj1 (proj2 (proj2 HI0)) _ _ Hk) as (it0 & Hit0 & _).
    destruct (Release_tracked_spec s0 k ttl p0 it0 n HI0 Hc0 Hn0 Hn Hk Hit0)
      as (s1 & HR & _ & _ & Hm & _ & _ & _ & Hfr & _).
    destruct (Release_tracked_full s0 k ttl p0 it0 n HI0 Hc0 Hn0 Hn Hk Hit0)
      as (s1' & it' & HR' & Hit' & Hv & Hk' & _).
    rewrite Hrun in HR, HR'. injection HR as <-. injection HR' as <-.
    split; [|intros k' q Hq; left; by rewrite Hm in Hq].
    intros q itq Hitq. destruct (decide (q = p0)) as [->|Hne].
    + assert (it0 = itq) as -> by (change (mem (hp s) !! p0 = Some it0) in Hit0; congruence).
      by exists it'.
    + destruct (Hfr q itq Hne Hitq) as (itq' & Hitq' & Hst).
      exists itq'. apply strip_fields in Hst as (? & _ & _ & ?). done.
  - apply bind_Ok in Hrun as ([r s1] & HP & [= <-]).
    destruct (Prune_spec s0 HI0) as (err & s1' & popped & HP' & Hpr).
    rewrite HP in HP'. injection HP' as _ <-. split.
    + intros q itq Hitq.
      by apply (same_items_kept _ _ _ _ (pruned_items _ _ _ _ _ Hpr)).
    + intros k' q Hq. left. by apply (pruned_m _ _ _ _ _ Hpr) in Hq as [? _].
  - apply bind_Ok in Hrun as ([r s1] & HC & [= <-]).
    destruct (Clear_spec s0 order HI0 Hok) as (err & s1' & dn & evs & HC' & _ & Hs & _ & Hcl).
    rewrite HC in HC'. injection HC' as _ <-. split.
    + intros q itq Hitq. by apply (same_items_kept _ _ _ _ Hs).
    + intros k' q Hq. left. rewrite (cleared_m _ _ _ _ _ _ Hcl) in Hq.
      by destruct (decide _).
Qed.

(** ** The queue *)

(** X1. After any history of fewer than 2^63 operations the bookkeeping of
    [Swap], [Push] and [Pop] is right: the item at position [i] of the
    queue has index [i] and is the item its key is mapped to; a mapped
    item carries its key and is either out of the queue with index [-1]
    or at the position its index gives; no item is queued twice. *)
Theorem X1_reachable_indices c d f n s :
  reach c d f n s → Z.of_nat n < 2 ^ 63 →
  (∀ (i : nat) p, pq (hp s) !! i = Some p →
     ∃ it, mem (hp s) !! p = Some it ∧ index it = Z.of_nat i ∧
           m s !! key it = Some p) ∧
  (∀ k p, m s !! k = Some p →
     ∃ it, mem (hp s) !! p = Some it ∧ key it = k ∧
           ((index it = -1 ∧ p ∉ pq (hp s)) ∨
            (0 ≤ index it ∧ pq (hp s) !! Z.to_nat (index it) = Some p))) ∧
  NoDup (pq (hp s)).
Proof.
  intros Hr Hn. destruct (reach_Inv _ _ _ _ _ Hr Hn) as ((Hw & _ & HL1 & HL2) & _).
  split; [|split; [|by apply wfq_NoDup]].
  - intros i p Hi. rewrite <- pqz_nat in Hi.
    destruct (proj1 Hw _ _ Hi) as (it & Hit & Hidx).
    destruct (HL2 p (pqz_elem _ _ _ Hi)) as (it' & Hit' & Hm).
    assert (it' = it) as -> by congruence. by exists it.
  - intros k p Hk. destruct (HL1 _ _ Hk) as (it & Hit & Hkey).
    exists it. split; [done|]. split; [done|].
    destruct (proj2 Hw _ _ Hit) as [Hi|Hq].
    + left. split; [done|]. by eapply wfq_not_queued.
    + right. pose proof (pqz_range _ _ _ Hq). split; [lia|].
      revert Hq. unfold pqz. by destruct (Z.ltb_spec (index it) 0); [lia|].
Qed.

(** X2. From a state of a history of fewer than 2^63 - 1 operations every
    public operation returns: no index is out of range in the queue, no
    nil item is dereferenced, and the loops of [up], [down], [prune] and
    [Clear] come to an end. *)
Theorem X2_operations_return c d f n s o w :
  reach c d f n s → Z.of_nat n + 1 < 2 ^ 63 → op_ok o s →
  ∃ s', run_op o (set_env w s) = Ok s' ∧ reach c d f (S n) s'.
Proof. apply reach_step. Qed.

(** X3. After any history of fewer than 2^63 operations the item at the
    root of the queue has the earliest deadline of all queued items. *)
Theorem X3_root_is_earliest c d f n s root itr q itq :
  reach c d f n s → Z.of_nat n < 2 ^ 63 →
  pq (hp s) !! 0%nat = Some root → mem (hp s) !! root = Some itr →
  q ∈ pq (hp s) → mem (hp s) !! q = Some itq →
  deadtime itr ≤ deadtime itq.
Proof.
  intros Hr Hn Hroot Hitr Hq Hitq.
  destruct (reach_Inv _ _ _ _ _ Hr Hn) as ((Hw & Ho & _) & _).
  pose proof (ordered_min (hp s) root q Hw Ho Hroot Hq) as Hle.
  by rewrite (dtp_at _ _ _ Hitr), (dtp_at _ _ _ Hitq) in Hle.
Qed.

(** X4. [heap.Push] of an item that is out of the queue (index [-1]) into
    a well-indexed queue returns, and gives a well-indexed queue with that
    one pointer more and the items otherwise unchanged; a queue in heap
    order stays in heap order. *)
Theorem X4_heap_Push_adds h x it :
  wfq h → mem h !! x = Some it → index it = -1 →
  ∃ h', heap_Push x h = Ok h' ∧ wfq h' ∧ same_items h h' ∧
        Len h' = Len h + 1 ∧ (∀ q, q ∈ pq h' ↔ q = x ∨ q ∈ pq h) ∧
        (ordered h → ordered h').
Proof. apply heap_Push_spec. Qed.

(** X5. [heap.Pop] on a well-indexed, non-empty queue in heap order
    returns the root, whose deadline is the earliest, takes exactly that
    pointer out, sets the item's index to [-1] and leaves a well-indexed
    queue in heap order, the items otherwise unchanged. *)
Theorem X5_heap_Pop_takes_earliest h :
  wfq h → ordered h → 0 < Len h →
  ∃ p h',
    heap_Pop h = Ok (p, h') ∧ pq h !! 0%nat = Some p ∧
    (∀ q, q ∈ pq h → dtp h p ≤ dtp h q) ∧
    wfq h' ∧ ordered h' ∧ same_items h h' ∧ Len h' = Len h - 1 ∧
    (∀ q, q ∈ pq h ↔ q = p ∨ q ∈ pq h') ∧ (p ∉ pq h') ∧
    (∃ it, mem h' !! p = Some it ∧ index it = -1).
Proof.
  intros Hw Ho Hn.
  destruct (heap_Pop_spec h Hw Hn)
    as (p & h' & HP & Hp & (Hw' & Hs & Hl & He & Hnp & Hidx) & Ho').
  exists p, h'. split; [done|]. split; [done|].
  split; [intros q Hq; by apply ordered_min|].
  split; [done|]. split; [by apply Ho'|]. done.
Qed.

(** X6. [remove] of an allocated item takes it out of a well-indexed queue
    wherever it is, sets its index to [-1] and keeps the queue
    well-indexed and in heap order; for an item that is not queued it
    leaves everything as it is. *)
Theorem X6_remove_takes_out h i it :
  wfq h → mem h !! i = Some it →
  ∃ h', remove i h = Ok h' ∧ wfq h' ∧ same_items h h' ∧
        (∀ q, q ∈ pq h' ↔ q ∈ pq h ∧ q ≠ i) ∧
        (∃ it', mem h' !! i = Some it' ∧ index it' = -1) ∧
        (ordered h → ordered h') ∧
        (i ∉ pq h → h' = h).
Proof.
  intros Hw Hit.
  destruct (remove_spec h i it Hw Hit) as (h' & Hrem & Hw' & Hs & He & Hidx & Ho).
  exists h'. do 6 (split; [done|]).
  intros Hni. assert (index it = -1) as Hi.
  { destruct (proj2 Hw _ _ Hit) as [?|Hq%pqz_elem]; done. }
  unfold remove in Hrem. rewrite (load_Ok _ _ _ Hit), res_bind_Ok, Hi in Hrem.
  simpl in Hrem. congruence.
Qed.

(** X7. Out of range the functions of [container/heap] panic: [heap.Pop]
    on an empty queue, and [heap.Remove] at a position that is negative
    or not below the length. *)
Theorem X7_heap_out_of_range h i :
  (pq h = [] → heap_Pop h = Panic) ∧
  (¬ (0 ≤ i < Len h) → heap_Remove i h = Panic).
Proof.
  assert (Hidx : ∀ j, ¬ (0 ≤ j < Len h) → idx (pq h) j = Panic).
  { intros j Hj. unfold idx. destruct (Z.ltb_spec j 0); [done|].
    rewrite lookup_ge_None_2; [done|]. unfold Len in Hj. lia. }
  split.
  - intros Hnil. unfold heap_Pop, Swap.
    rewrite (Hidx 0); [done|]. unfold Len. rewrite Hnil. simpl. lia.
  - intros Hi. unfold heap_Remove.
    destruct (Z.eqb_spec (Len h - 1) i) as [E|Hne]; cbn [negb].
    + rewrite res_bind_Ok. unfold Pop. rewrite (Hidx (Len h - 1)); [done|lia].
    + unfold Swap. by rewrite (Hidx i).
Qed.

(** ** The destructor calls of an operation *)

Lemma pruned_destroys now s err s' popped :
  Inv s → pruned now s err s' popped →
  ∃ evs, calls s' = calls s ++ evs ∧
    (∀ e, e ∈ evs → ∃ k v, e = EvDestruct k v) ∧
    ∀ k v, EvDestruct k v ∈ evs →
      ∃ p it, m s !! k = Some p ∧ p ∈ pq (hp s) ∧ mem (hp s) !! p = Some it ∧
              value it = v ∧ key it = k ∧ deadtime it < now ∧
              m s' !! k = None.
Proof.
  intros HI Hpr. pose proof HI as (_ & _ & _ & HL2).
  destruct (pruned_events _ _ _ _ _ Hpr) as (evs & Hc & Hev).
  rewrite Forall_forall in Hev.
  exists evs. split; [done|]. split.
  { intros e He. destruct (Hev _ He) as (p & it & _ & _ & ->). by eexists _, _. }
  intros k v He. destruct (Hev _ He) as (p & it & Hp & Hit & [= -> ->]).
  assert (Hin : p ∈ pq (hp s)) by (apply (pruned_pq _ _ _ _ _ Hpr); by left).
  destruct (HL2 _ Hin) as (it' & Hit' & Hm). assert (it' = it) as -> by congruence.
  exists p, it. do 5 (split; [done|]). split.
  - pose proof (pruned_expired _ _ _ _ _ Hpr) as Hex.
    rewrite Forall_forall in Hex. specialize (Hex _ Hp).
    by rewrite (dtp_at _ _ _ Hit) in Hex.
  - destruct (m s' !! key it) as [q|] eqn:Hq; [|done].
    apply (pruned_m _ _ _ _ _ Hpr) in Hq as [Hq Hnq].
    assert (q = p) as -> by congruence. done.
Qed.

Lemma run_op_destroys s o w n s' :
  Inv s → counted n s → 0 ≤ n → n + 1 < 2 ^ 63 →
  (∀ order, o ≠ OpClear order) →
  run_op o (set_env w s) = Ok s' →
  ∃ evs, calls s' = calls s ++ evs ∧
    ∀ k v, EvDestruct k v ∈ evs →
      ∃ p it, m s !! k = Some p ∧ p ∈ pq (hp s) ∧ mem (hp s) !! p = Some it ∧
              value it = v ∧ deadtime it < (nowFunc s w).1 ∧
              o ≠ OpGet k ∧ m s' !! k = None.
Proof.
  intros HI Hc Hn0 Hn Hnc Hrun.
  set (s0 := set_env w s) in *.
  assert (HI0 : Inv s0) by done.
  assert (Hc0 : counted n s0) by done.
  destruct o as [k0|k0 ttl| |order]; simpl in Hrun; [| | |by destruct (Hnc order)].
  - apply bind_Ok in Hrun as ([r s1] & HG & [= <-]).
    destruct (m s0 !! k0) as [p0|] eqn:Hk0.
    + destruct (proj1 (proj2 (proj2 HI0)) _ _ Hk0) as (it0 & Hit0 & _).
      destruct (Get_tracked_spec s0 k0 p0 it0 HI0 Hk0 Hit0)
        as (h2 & err & s1' & popped & HI2 & Hs2 & He2 & _ & _ & Hpr & HG').
      cbv zeta in *. rewrite HG in HG'. injection HG' as _ <-.
      destruct (pruned_destroys _ (call EvNow _ (set_hp h2 s0)) _ _ _ HI2 Hpr)
        as (evs & Hcalls & _ & Hev).
      exists (EvNow :: evs). split.
      { rewrite Hcalls. simpl. by rewrite <- app_assoc. }
      intros k v [?|He]%elem_of_cons; [done|].
      destruct (Hev _ _ He) as (p & itq & Hm & Hq & Hitq & Hv & Hkq & Hd & Hm').
      simpl in Hm, Hq, Hitq. apply He2 in Hq as [Hq Hne].
      destruct (same_items_Some _ _ _ _ (same_items_sym _ _ Hs2) Hitq)
        as (x & Hx & Hst).
      simpl in Hx. rewrite lookup_store in Hx by by eapply lookup_lt_Some.
      destruct (decide (p = p0)) as [|_]; [done|].
      apply strip_fields in Hst as (Hv' & Hd' & _ & _).
      exists p, x. split; [done|]. split; [done|]. split; [done|].
      split; [congruence|]. split; [by rewrite Hd'|]. split; [|done].
      intros [= ->]. change (m s !! k = Some p0) in Hk0. congruence.
    + destruct (Get_new_spec s0 k0 HI0 Hk0) as (err & s1' & popped & HP & Hpr & Hk1 & HG').
      destruct (pruned_destroys _ (call EvNow _ s0) _ _ _ HI0 Hpr)
        as (evs & Hcalls & _ & Hev).
      assert (Hev' : ∀ k v, EvDestruct k v ∈ evs →
        ∃ p it, m s !! k = Some p ∧ p ∈ pq (hp s) ∧ mem (hp s) !! p = Some it ∧
                value it = v ∧ deadtime it < (nowFunc s w).1 ∧
                OpGet k0 ≠ OpGet k ∧ m s1' !! k = None).
      { intros k v He.
        destruct (Hev _ _ He) as (p & itq & Hm & Hq & Hitq & Hv & Hkq & Hd & Hm').
        exists p, itq. do 5 (split; [done|]). split; [|done].
        intros [= ->]. simpl in Hm. change (m s !! k = None) in Hk0. congruence. }
      simpl in Hcalls.
      rewrite HG in HG'. destruct err as [e|].
      { injection HG' as _ ->. exists (EvNow :: evs). split.
        { rewrite Hcalls. by rewrite <- app_assoc. }
        intros k v [?|He]%elem_of_cons; [done|]. by apply Hev'. }
      destruct (constructor s0 k0 (env s1')) as [[v0 [e|]] w'].
      { injection HG' as _ ->. exists (EvNow :: evs ++ [EvConstruct k0]). split.
        { simpl. rewrite Hcalls. by rewrite <- !app_assoc. }
        intros k v [?|[He|He%list_elem_of_singleton]%elem_of_app]%elem_of_cons;
          [done| |done]. by apply Hev'. }
      injection HG' as _ ->. exists (EvNow :: evs ++ [EvConstruct k0]). split.
      { simpl. rewrite Hcalls. by rewrite <- !app_assoc. }
      intros k v [?|[He|He%list_elem_of_singleton]%elem_of_app]%elem_of_cons;
        [done| |done].
      destruct (Hev' _ _ He) as (p & itq & Hm & Hq & Hitq & Hv & Hd & Hne & Hm').
      exists p, itq. do 6 (split; [done|]). simpl.
      rewrite lookup_insert_ne; [done|]. intros ->. by destruct Hne.
  - destruct (m s0 !! k0) as [p0|] eqn:Hk0.
    2:{ rewrite Release_untracked in Hrun by done. injection Hrun as <-.
        exists []. split; [by rewrite app_nil_r|]. by intros k v ?%elem_of_nil. }
    destruct (proj1 (proj2 (proj2 HI0)) _ _ Hk0) as (it0 & Hit0 & _).
    destruct (Release_tracked_full s0 k0 ttl p0 it0 n HI0 Hc0 Hn0 Hn Hk0 Hit0)
      as (s1' & it' & HR' & _ & _ & _ & _ & H1 & H2).
    rewrite Hrun in HR'. injection HR' as <-.
    destruct (decide (refCounter it0 = 1)) as [E|E].
    + destruct (H1 E) as (_ & _ & _ & Hcalls & _). exists [EvNow].
      split; [done|]. by intros k v [?|?%elem_of_nil]%elem_of_cons.
    + destruct (H2 E) as (_ & _ & _ & Hcalls & _). exists [].
      split; [by rewrite app_nil_r|]. by intros k v ?%elem_of_nil.
  - apply bind_Ok in Hrun as ([r s1] & HP & [= <-]).
    destruct (Prune_spec s0 HI0) as (err & s1' & popped & HP' & Hpr).
    rewrite HP in HP'. injection HP' as _ <-.
    destruct (pruned_destroys _ (call EvNow _ s0) _ _ _ HI0 Hpr)
      as (evs & Hcalls & _ & Hev).
    exists (EvNow :: evs). split.
    { rewrite Hcalls. simpl. by rewrite <- app_assoc. }
    intros k v [?|He]%elem_of_cons; [done|].
    destruct (Hev _ _ He) as (p & itq & Hm & Hq & Hitq & Hv & Hkq & Hd & Hm').
    exists p, itq. by do 6 (split; [done|]).
Qed.

(** ** [Get] and [Release] *)

(** X8. [Get] of a key that is not tracked, when its [Prune] pass and the
    constructor return no error, returns the value the constructor made
    and tracks it: the key is mapped to a new item that holds that value
    with counter 1 and index [-1], out of the queue; the items and the
    queue are otherwise as the pass left them; the constructor has been
    called once, after the pass, and no destructor call of the pass is
    for the key. *)
Theorem X8_Get_constructs s k s1 v w :
  Inv s → m s !! k = None →
  Prune s = Ok (None, s1) → constructor s k (env s1) = ((v, None), w) →
  ∃ s' p evs,
    Get k s = Ok ((v, None), s') ∧
    p = length (mem (hp s)) ∧
    m s' = <[k := p]> (m s1) ∧
    mem (hp s') = mem (hp s1) ++ [Item v 0 1 (-1) k] ∧
    mem (hp s') !! p = Some (Item v 0 1 (-1) k) ∧
    pq (hp s') = pq (hp s1) ∧ (p ∉ pq (hp s')) ∧
    calls s' = calls s ++ EvNow :: evs ++ [EvConstruct k] ∧
    (∀ e, e ∈ evs → ∃ k' v', e = EvDestruct k' v' ∧ k' ≠ k) ∧
    env s' = w ∧ Inv s'.
Proof.
  intros HI Hk HP Hc.
  destruct (Get_new_spec s k HI Hk) as (err & s1' & popped & HP' & Hpr & Hk1 & HG).
  rewrite HP in HP'. injection HP' as <- <-. rewrite Hc in HG.
  destruct (pruned_events_keys _ (call EvNow _ s) _ _ _ HI Hpr)
    as (evs & Hcalls & Hev).
  pose proof (same_items_length _ _ (pruned_items _ _ _ _ _ Hpr)) as Hlen.
  simpl in Hlen.
  eexists _, (length (mem (hp s))), evs. split; [exact HG|]. simpl.
  split; [done|]. split; [by rewrite Hlen|]. split; [done|].
  split; [rewrite Hlen; apply list_lookup_middle; done|].
  split; [done|]. split; [|split; [|split; [|split; [done|]]]].
  - intros Hin. apply (Inv_ptr_lt s1) in Hin; [|apply Hpr]. lia.
  - rewrite Hcalls. simpl. by rewrite <- !app_assoc.
  - intros e' He. destruct (Hev _ He) as (q & itq & Hq & Hitq & Hm & ->).
    exists (key itq), (value itq). split; [done|]. simpl in Hm.
    intros E. rewrite E in Hm. congruence.
  - apply (Inv_alloc (call (EvConstruct k) w s1)); [apply Hpr|done].
Qed.

(** X9. [Get] of a key that is in use shares its value: from a state of a
    history of fewer than 2^63 - 1 operations the call returns; it makes
    no constructor call and no destructor call for that key; the item
    stays mapped and out of the queue, with its value and one more on its
    counter; and when [Get] returns no error it returns that value. *)
Theorem X9_Get_shares c d f n s k p it w :
  reach c d f n s → Z.of_nat n + 1 < 2 ^ 63 →
  m s !! k = Some p → mem (hp s) !! p = Some it → 0 < refCounter it →
  ∃ r s' evs it',
    Get k (set_env w s) = Ok (r, s') ∧
    calls s' = calls s ++ EvNow :: evs ∧
    (∀ e, e ∈ evs → ∃ k' v, e = EvDestruct k' v ∧ k' ≠ k) ∧
    m s' !! k = Some p ∧ (p ∉ pq (hp s)) ∧ (p ∉ pq (hp s')) ∧
    mem (hp s') !! p = Some it' ∧
    refCounter it' = refCounter it + 1 ∧ value it' = value it ∧
    (r.2 = None → r.1 = value it).
Proof.
  intros Hr Hn Hk Hit Hpos.
  destruct (reach_Inv _ _ _ _ _ Hr) as (HI & Hc & _); [lia|].
  destruct (Hc _ _ Hit) as [Hb Hq].
  destruct (Get_tracked_facts (set_env w s) k p it HI Hk Hit)
    as (err & s' & evs & it' & HG & _ & Hcalls & Hev & Hnq & Hm & Hit' & Hrc & Hv & _).
  exists (match err with Some _ => zero | None => value it end, err), s', evs, it'.
  split; [done|]. split; [done|]. split; [done|]. split; [done|].
  split; [intros Hin; specialize (Hq Hin); lia|]. split; [done|].
  split; [done|]. split; [rewrite Hrc; apply wrap_id; lia|]. split; [done|].
  simpl. by intros ->.
Qed.

(** X10. [Release] of a tracked key, from a state of a history of fewer
    than 2^63 - 1 operations, returns and takes one off the counter of the
    item, whose value stays.  When the counter was 1 the item becomes
    idle: the clock is read once, the deadline is set to that reading plus
    the ttl, and the item joins the queue.  Otherwise the clock is not
    read, and deadline, queue and position are as they were. *)
Theorem X10_Release_counts c d f n s k ttl p it w :
  reach c d f n s → Z.of_nat n + 1 < 2 ^ 63 →
  m s !! k = Some p → mem (hp s) !! p = Some it →
  ∃ s' it',
    Release k ttl (set_env w s) = Ok s' ∧
    m s' = m s ∧ mem (hp s') !! p = Some it' ∧
    value it' = value it ∧ refCounter it' = refCounter it - 1 ∧
    (refCounter it = 1 →
       deadtime it' = (f w).1 + ttl ∧ (p ∉ pq (hp s)) ∧
       (∀ q, q ∈ pq (hp s') ↔ q = p ∨ q ∈ pq (hp s)) ∧
       calls s' = calls s ++ [EvNow] ∧ env s' = (f w).2) ∧
    (refCounter it ≠ 1 →
       deadtime it' = deadtime it ∧ index it' = index it ∧
       pq (hp s') = pq (hp s) ∧ calls s' = calls s ∧ env s' = w).
Proof.
  intros Hr Hn Hk Hit.
  destruct (reach_Inv _ _ _ _ _ Hr) as (HI & Hc & _ & _ & Hf); [lia|].
  destruct (Release_tracked_spec (set_env w s) k ttl p it (Z.of_nat n))
    as (s1 & HR & _ & _ & Hm & _); [done|done|lia|lia|done|done|].
  destruct (Release_tracked_full (set_env w s) k ttl p it (Z.of_nat n))
    as (s' & it' & HR' & Hit' & Hv & _ & Hrc & H1 & H2); [done|done|lia|lia|done|done|].
  rewrite HR in HR'. injection HR' as ->.
  exists s', it'. split; [done|]. split; [done|]. split; [done|].
  split; [done|]. split; [done|]. simpl in H1, H2. rewrite Hf in H1.
  split; [exact H1|exact H2].
Qed.

(** X11. [Get] and [Release] balance: from a state of a history of fewer
    than 2^63 - 2 operations, a [Get] of a tracked key followed by a
    [Release] of that key, whatever [Get] returned and whatever the clock
    shows, leaves the key mapped to the same item with the counter and the
    value it had. *)
Theorem X11_Get_Release_balance c d f n s k ttl p it w1 w2 :
  reach c d f n s → Z.of_nat n + 2 < 2 ^ 63 →
  m s !! k = Some p → mem (hp s) !! p = Some it →
  ∃ r s1 s2 it2,
    Get k (set_env w1 s) = Ok (r, s1) ∧
    Release k ttl (set_env w2 s1) = Ok s2 ∧
    m s2 !! k = Some p ∧ mem (hp s2) !! p = Some it2 ∧
    refCounter it2 = refCounter it ∧ value it2 = value it.
Proof.
  intros Hr Hn Hk Hit.
  destruct (reach_Inv _ _ _ _ _ Hr) as (HI & Hc & _); [lia|].
  destruct (Hc _ _ Hit) as [Hb _].
  destruct (Get_tracked_facts (set_env w1 s) k p it HI Hk Hit)
    as (err & s1 & evs & it1 & HG & _ & _ & _ & _ & Hm1 & Hit1 & Hrc1 & Hv1 & _).
  assert (Hr1 : reach c d f (S n) s1).
  { apply (reach_op c d f n s w1 (OpGet k) s1 Hr I). simpl. by rewrite HG. }
  destruct (reach_Inv _ _ _ _ _ Hr1) as (HI1 & Hc1 & _); [lia|].
  destruct (Release_tracked_spec (set_env w2 s1) k ttl p it1 (Z.of_nat (S n)))
    as (s2 & HR & _ & _ & Hm & _); [done|done|lia|lia|done|done|].
  destruct (Release_tracked_full (set_env w2 s1) k ttl p it1 (Z.of_nat (S n)))
    as (s2' & it2 & HR' & Hit2 & Hv & _ & Hrc & _); [done|done|lia|lia|done|done|].
  rewrite HR in HR'. injection HR' as ->.
  eexists _, s1, s2', it2. split; [exact HG|]. split; [done|].
  split; [by rewrite Hm|]. split; [done|]. split; [|congruence].
  rewrite Hrc, Hrc1, wrap_id; lia.
Qed.

(** X19. When the [Prune] pass of a [Get] of a key that is not tracked
    returns an error, [Get] returns the zero value and that error as it
    is, and the pool as the pass left it: the constructor has not been
    called, the key is still out of the map and no item has been
    allocated; the last call made is the destructor call that failed, for
    another key. *)
Theorem X19_Get_untracked_prune_error s k e s1 :
  Inv s → m s !! k = None → Prune s = Ok (Some e, s1) →
  Get k s = Ok ((zero, Some e), s1) ∧ m s1 !! k = None ∧
  length (mem (hp s1)) = length (mem (hp s)) ∧
  (∃ evs, calls s1 = calls s ++ EvNow :: evs ∧
          ∀ ev, ev ∈ evs → ∃ k' v, ev = EvDestruct k' v ∧ k' ≠ k) ∧
  ∃ d k' v w, destructor s = Some d ∧ d v w = (Some e, env s1) ∧
              last (calls s1) = Some (EvDestruct k' v).
Proof.
  intros HI Hk HP.
  destruct (Get_new_spec s k HI Hk) as (err & s1' & popped & HP' & Hpr & Hk1 & HG).
  rewrite HP in HP'. injection HP' as <- <-.
  destruct (pruned_events_keys _ (call EvNow _ s) _ _ _ HI Hpr)
    as (evs & Hcalls & Hev).
  split; [done|]. split; [done|]. split; [|split].
  - symmetry. apply (same_items_length _ _ (pruned_items _ _ _ _ _ Hpr)).
  - exists evs. split; [simpl in Hcalls; by rewrite Hcalls, <- app_assoc|].
    intros ev He. destruct (Hev _ He) as (q & itq & Hq & Hitq & Hm & ->).
    exists (key itq), (value itq). split; [done|]. simpl in Hm.
    intros E. rewrite E in Hm. congruence.
  - by apply Prune_err.
Qed.

(** ** What is destroyed, and what is not *)

(** X12. [Get], [Release] and [Prune] destroy nothing but idle items that
    are due: from a state of a history of fewer than 2^63 - 1 operations,
    every destructor call of such an operation is for a key that was
    mapped to a queued item with a counter that is not positive and a
    deadline strictly before the reading of the clock, is made with the
    value of that item, is not for the key a [Get] asks for, and leaves
    the key out of the map. *)
Theorem X12_destroys_only_idle_and_due c d f n s o w s' :
  reach c d f n s → Z.of_nat n + 1 < 2 ^ 63 →
  (∀ order, o ≠ OpClear order) →
  run_op o (set_env w s) = Ok s' →
  ∃ evs, calls s' = calls s ++ evs ∧
    ∀ k v, EvDestruct k v ∈ evs →
      ∃ p it, m s !! k = Some p ∧ p ∈ pq (hp s) ∧ mem (hp s) !! p = Some it ∧
              value it = v ∧ refCounter it ≤ 0 ∧ deadtime it < (f w).1 ∧
              o ≠ OpGet k ∧ m s' !! k = None.
Proof.
  intros Hr Hn Hnc Hrun.
  destruct (reach_Inv _ _ _ _ _ Hr) as (HI & Hc & _ & _ & Hf); [lia|].
  destruct (run_op_destroys s o w (Z.of_nat n) s') as (evs & Hcalls & Hev);
    [done|done|lia|lia|done|done|].
  exists evs. split; [done|]. intros k v He.
  destruct (Hev _ _ He) as (p & it & Hm & Hq & Hit & Hv & Hd & Hne & Hm').
  exists p, it. do 4 (split; [done|]). split; [by apply (Hc _ _ Hit)|].
  rewrite <- Hf. done.
Qed.

(** X13. An item in use is kept: from a state of a history of fewer than
    2^63 - 1 operations, when the counter of a key's item is positive, no
    [Get], [Release] or [Prune], of any key and at any time, takes the
    key out of the map, changes the value, or calls the destructor for
    the key. *)
Theorem X13_in_use_is_kept c d f n s k p it o w s' :
  reach c d f n s → Z.of_nat n + 1 < 2 ^ 63 →
  m s !! k = Some p → mem (hp s) !! p = Some it → 0 < refCounter it →
  (∀ order, o ≠ OpClear order) →
  run_op o (set_env w s) = Ok s' →
  m s' !! k = Some p ∧
  (∃ it', mem (hp s') !! p = Some it' ∧ value it' = value it ∧ key it' = k) ∧
  ∃ evs, calls s' = calls s ++ evs ∧ ∀ v, EvDestruct k v ∉ evs.
Proof.
  intros Hr Hn Hk Hit Hpos Hnc Hrun.
  destruct (reach_Inv _ _ _ _ _ Hr) as (HI & Hc & _); [lia|].
  destruct (Hc _ _ Hit) as [_ Hq].
  assert (Hnq : p ∉ pq (hp s)) by (intros Hin; specialize (Hq Hin); lia).
  assert (Hok : op_ok o s).
  { destruct o as [| | |order]; try done. by destruct (Hnc order). }
  destruct (run_op_values s o w (Z.of_nat n) s') as [Hkv _];
    [done|done|lia|lia|done|done|].
  destruct (run_op_destroys s o w (Z.of_nat n) s') as (evs & Hcalls & Hev);
    [done|done|lia|lia|done|done|].
  destruct (Hkv _ _ Hit) as (it' & Hit' & Hv' & Hk').
  destruct (proj1 (proj2 (proj2 HI)) _ _ Hk) as (it0 & Hit0 & Hkey).
  assert (it0 = it) as -> by congruence.
  split; [|split].
  - assert (Ht : ¬ touches k o ∨ ∃ ttl, o = OpRelease k ttl).
    { destruct o as [|k0 ttl| |order]; simpl; [tauto| |tauto|by destruct (Hnc order)].
      destruct (decide (k0 = k)) as [->|?]; [|tauto]. right. by exists ttl. }
    destruct Ht as [Ht|[ttl ->]].
    + destruct (parked_step s o w (Z.of_nat n) k p it s') as (_ & _ & [Hp _] & _);
        [done|done|lia|lia|done|done|by left|done|done].
    + simpl in Hrun.
      destruct (Release_tracked_spec (set_env w s) k ttl p it (Z.of_nat n))
        as (s1 & HR & _ & _ & Hm & _); [done|done|lia|lia|done|done|].
      rewrite Hrun in HR. injection HR as <-. by rewrite Hm.
  - exists it'. split; [done|]. split; [done|]. congruence.
  - exists evs. split; [done|]. intros v He.
    destruct (Hev _ _ He) as (q & itq & Hm & Hin & _).
    assert (q = p) as -> by congruence. done.
Qed.

(** X14. An idle item that is due is evicted, and made anew when asked
    for again: when a [Prune] pass returns no error, every key mapped to a
    queued item whose deadline is strictly before the reading of the clock
    is out of the map afterwards, its item is out of the queue, and the
    destructor (when there is one) has been called with its value.  A
    [Get] of that key afterwards returns, and when it returns no error its
    last call was to the constructor for that key, and the key is mapped
    to a new item. *)
Theorem X14_due_item_is_evicted s k p it s1 :
  Inv s → m s !! k = Some p → mem (hp s) !! p = Some it → p ∈ pq (hp s) →
  deadtime it < (nowFunc s (env s)).1 →
  Prune s = Ok (None, s1) →
  m s1 !! k = None ∧ (p ∉ pq (hp s1)) ∧
  (∃ evs, calls s1 = calls s ++ EvNow :: evs ∧
          (is_Some (destructor s) → EvDestruct k (value it) ∈ evs)) ∧
  ∀ w, ∃ r s2,
    Get k (set_env w s1) = Ok (r, s2) ∧
    (r.2 = None →
       last (calls s2) = Some (EvConstruct k) ∧
       m s2 !! k = Some (length (mem (hp s)))).
Proof.
  intros HI Hk Hit Hq Hd HP.
  destruct (Prune_spec s HI) as (err & s1' & popped & HP' & Hpr).
  rewrite HP in HP'. injection HP' as <- <-.
  destruct (proj1 (proj2 (proj2 HI)) _ _ Hk) as (it0 & Hit0 & Hkey).
  assert (it0 = it) as -> by congruence.
  assert (Hpop : p ∈ popped).
  { apply (pruned_pq _ _ _ _ _ Hpr) in Hq as [?|Hq]; [done|].
    pose proof (pruned_rest _ _ _ _ _ Hpr eq_refl _ Hq) as Hle.
    simpl in Hle. rewrite (dtp_at _ _ _ Hit) in Hle. lia. }
  assert (Hk1 : m s1 !! k = None).
  { destruct (m s1 !! k) as [q|] eqn:E; [|done].
    apply (pruned_m _ _ _ _ _ Hpr) in E as [E Hnq]. simpl in E.
    assert (q = p) as -> by congruence. done. }
  pose proof (pruned_Inv _ _ _ _ _ Hpr) as HI1.
  split; [done|]. split; [by apply (pruned_out _ _ _ _ _ Hpr)|]. split.
  - destruct (pruned_calls _ _ _ _ _ Hpr) as (evs & Hcalls & Hev).
    exists evs. split; [simpl in Hcalls; by rewrite Hcalls, <- app_assoc|].
    intros [d0 Hd0]. simpl in Hev. rewrite Hd0 in Hev.
    apply list_elem_of_lookup in Hpop as [i Hi].
    destruct (Forall2_lookup_l _ _ _ _ _ Hev Hi) as (e & He & it' & Hit' & ->).
    simpl in Hit'. assert (it' = it) as -> by congruence.
    rewrite <- Hkey. by eapply list_elem_of_lookup_2.
  - intros w.
    destruct (Get_new_spec (set_env w s1) k HI1 Hk1)
      as (err & s2 & popped' & HP2 & Hpr2 & Hk2 & HG).
    pose proof (same_items_length _ _ (pruned_items _ _ _ _ _ Hpr)) as Hlen.
    pose proof (same_items_length _ _ (pruned_items _ _ _ _ _ Hpr2)) as Hlen2.
    simpl in Hlen, Hlen2.
    rewrite HG. destruct err as [e|]; [by eexists _, _|].
    destruct (constructor (set_env w s1) k (env s2)) as [[v [e|]] w'];
      [by eexists _, _|].
    eexists _, _. split; [done|]. intros _. simpl.
    split; [by rewrite last_snoc|].
    rewrite lookup_insert_eq. by rewrite <- Hlen2, <- Hlen.
Qed.

(** ** [Clear] *)


(** X16. After a [Clear] that returned no error the pool is as new: map
    and queue are empty; a second [Clear] changes nothing and returns no
    error; a [Prune] pass reads the clock and nothing else; and a [Get] of
    any key reads the clock and calls the constructor for that key, and
    makes no destructor call. *)
Theorem X16_Clear_resets s order s1 :
  Inv s → range_order order s → Clear order s = Ok (None, s1) →
  m s1 = ∅ ∧ pq (hp s1) = [] ∧
  (∀ order', range_order order' s1 →
     order' = [] ∧ Clear order' s1 = Ok (None, s1)) ∧
  (∀ w, Prune (set_env w s1)
        = Ok (None, call EvNow (nowFunc s1 w).2 (set_env w s1))) ∧
  (∀ k w, ∃ r s2, Get k (set_env w s1) = Ok (r, s2) ∧
                  calls s2 = calls s1 ++ [EvNow; EvConstruct k]).
Proof.
  intros HI Hord HC.
  destruct (Clear_spec s order HI Hord) as (err & s1' & dn & evs & HC' & Hnil & _ & _ & Hcl).
  rewrite HC in HC'. injection HC' as <- <-.
  assert (Hm : m s1 = ∅).
  { apply map_empty. intros k. rewrite (cleared_m _ _ _ _ _ _ Hcl).
    pose proof (cleared_err _ _ _ _ _ _ Hcl) as Hdn. simpl in Hdn. subst dn.
    destruct (decide (k ∈ order)) as [|Hn]; [done|].
    destruct (m s !! k) eqn:E; [|done]. destruct Hn. apply Hord. by rewrite E. }
  assert (HP : ∀ w, Prune (set_env w s1)
                    = Ok (None, call EvNow (nowFunc s1 w).2 (set_env w s1))).
  { intros w. unfold Prune, prune. simpl.
    destruct (nowFunc s1 w) as [now w'] eqn:Hnow. simpl.
    unfold Len. simpl. by rewrite Hnil. }
  split; [done|]. split; [done|]. split; [|split; [done|]].
  - intros order' [Hnd Hdom].
    assert (order' = []) as ->.
    { destruct order' as [|k l]; [done|].
      assert (is_Some (m s1 !! k)) as [q Hq] by (apply Hdom; left).
      by rewrite Hm, lookup_empty in Hq. }
    split; [done|]. unfold Clear. simpl. unfold Len. rewrite Hnil. simpl.
    by destruct s1.
  - intros k w. unfold Get. simpl. rewrite Hm, lookup_empty, HP, res_bind_Ok.
    simpl. destruct (constructor s1 k (nowFunc s1 w).2) as [[v [e|]] w'];
      eexists _, _; (split; [done|]); simpl; by rewrite <- app_assoc.
Qed.

(** ** Values *)

(** X17. The value and the key of an item are never written: through a
    history of operations that stays below 2^63 in all, every item that
    was allocated keeps its value and its key, and a key that is mapped
    at the end is mapped to the item it was mapped to at the start, or to
    an item allocated since. *)
Theorem X17_values_never_change c d f ops : ∀ n s s',
  reach c d f n s → Z.of_nat n + Z.of_nat (length ops) < 2 ^ 63 →
  ops_ok ops s → run_ops ops s = Ok s' →
  kept_values s s' ∧
  (∀ k p, m s' !! k = Some p →
     m s !! k = Some p ∨ (length (mem (hp s)) ≤ p)%nat).
Proof.
  induction ops as [|[w o] ops IH]; intros n s s' Hr Hn Hok Hrun; simpl in *.
  { injection Hrun as <-. split; [|by left]. intros p it Hit. by exists it. }
  destruct Hok as [Hok Hoks].
  destruct (run_op o (set_env w s)) as [s1| |] eqn:Hop; [|done..].
  rewrite res_bind_Ok in Hrun.
  destruct (reach_Inv _ _ _ _ _ Hr) as (HI & Hc & _); [lia|].
  destruct (run_op_values s o w (Z.of_nat n) s1) as [Hkv1 Hm1];
    [done|done|lia|lia|done|done|].
  destruct (IH (S n) s1 s') as [Hkv Hm];
    [by eapply reach_op|lia|done|done|].
  assert (Hlen : (length (mem (hp s)) ≤ length (mem (hp s1)))%nat).
  { destruct (decide (length (mem (hp s)) = 0)%nat) as [->|Hne]; [lia|].
    destruct (lookup_lt_is_Some_2 (mem (hp s)) (pred (length (mem (hp s)))))
      as [it Hit]; [lia|].
    destruct (Hkv1 _ _ Hit) as (it' & Hit' & _).
    apply lookup_lt_Some in Hit'. lia. }
  split.
  - intros p it Hit. destruct (Hkv1 _ _ Hit) as (it1 & Hit1 & Hv1 & Hk1).
    destruct (Hkv _ _ Hit1) as (it2 & Hit2 & Hv2 & Hk2).
    exists it2. split; [done|]. split; congruence.
  - intros k p Hp. destruct (Hm _ _ Hp) as [Hp1|Hge]; [|right; lia].
    destruct (Hm1 _ _ Hp1) as [?|?]; [by left|by right].
Qed.

(** ** The earlier revision of [prune] *)

Lemma Earlier_prune_loop_S fuel now (d : option (T → W → option error * W)) cb s :
  Earlier.prune_loop (S fuel) now d cb s =
    i ← Earlier.peek (hp s);
    match i with
    | None => Ok (None, s)
    | Some i =>
      r ← load i (hp s);
      if negb (Before (deadtime r) now) then Ok (None, s)
      else
        '(v, h1) ← heap_Pop (hp s);
        it ← load v h1;
        let s1 := cb (key it) (set_hp h1 s) in
        match d with
        | Some d' =>
          let '(err, w) := d' (value it) (env s1) in
          let s2 := call (EvDestruct (key it) (value it)) w s1 in
          match err with
          | Some e => Ok (Some e, s2)
          | None => Earlier.prune_loop fuel now d cb s2
          end
        | None => Earlier.prune_loop fuel now d cb s1
        end
    end.
Proof. done. Qed.

Lemma last_pqz h p : 0 < Len h → last (pq h) = Some p ↔ pqz h (Len h - 1) = Some p.
Proof.
  intros Hn. rewrite last_lookup. unfold pqz, Len in *.
  destruct (Z.ltb_spec (Z.of_nat (length (pq h)) - 1) 0); [lia|].
  by replace (Z.to_nat (Z.of_nat (length (pq h)) - 1)) with (pred (length (pq h))) by lia.
Qed.

(** The facts of [pruned] but the last one hold of the earlier loop: they
    are stated with an error in the place of the result. *)
Lemma Earlier_prune_loop_spec fuel now : ∀ s,
  Inv s → (length (pq (hp s)) < fuel)%nat →
  ∃ err s' popped,
    Earlier.prune_loop fuel now (destructor s) del_cb s = Ok (err, s') ∧
    pruned now s (Some (errorString EmptyString)) s' popped ∧
    (err = None → ∀ p, last (pq (hp s')) = Some p → now ≤ dtp (hp s') p).
Proof.
  induction fuel as [|fuel IH]; intros s HI Hf; [lia|].
  rewrite Earlier_prune_loop_S. unfold Earlier.peek.
  destruct (Z.eqb_spec (Len (hp s)) 0) as [Hn|Hn].
  { rewrite res_bind_Ok. exists None, s, []. split; [done|].
    split; [by apply pruned_nil|]. intros _ p Hp.
    assert (pq (hp s) = []) as E.
    { unfold Len in Hn. destruct (pq (hp s)); [done|simpl in Hn; lia]. }
    by rewrite E in Hp. }
  assert (Hpos : 0 < Len (hp s)) by (unfold Len in *; lia).
  pose proof HI as (Hw & Ho & HL).
  destruct (wfq_at _ (Len (hp s) - 1) Hw) as (pl & itl & Hpl & Hitl & _); [lia|].
  rewrite idx_pqz, Hpl. simpl from_option. rewrite !res_bind_Ok.
  rewrite (load_Ok _ _ _ Hitl), res_bind_Ok. unfold Before.
  destruct (Z.ltb_spec (deadtime itl) now) as [Hlt|Hge]; cbn [negb].
  2:{ exists None, s, []. split; [done|]. split; [by apply pruned_nil|].
      intros _ p Hp. apply last_pqz in Hp; [|done].
      assert (p = pl) as -> by congruence. by rewrite (dtp_at _ _ _ Hitl). }
  destruct (wfq_at _ 0 Hw) as (p0 & it0 & Hp0 & Hit0 & _); [lia|].
  assert (Hlt0 : deadtime it0 < now).
  { pose proof (ordered_min _ p0 pl Hw Ho Hp0 (pqz_elem _ _ _ Hpl)) as Hle.
    rewrite (dtp_at _ _ _ Hit0), (dtp_at _ _ _ Hitl) in Hle. lia. }
  destruct (heap_Pop_spec _ Hw Hpos) as (p & h1 & -> & Hp & Hrm & Ho1).
  assert (p = p0) as -> by congruence. rewrite res_bind_Ok.
  pose proof Hrm as (Hw1 & Hs1 & Hl1 & _). cbv beta iota.
  destruct (same_items_Some _ _ _ _ Hs1 Hit0) as (it1 & Hit1 & Hst).
  rewrite (load_Ok _ _ _ Hit1), res_bind_Ok.
  apply strip_fields in Hst as (Hv & _ & _ & Hk). rewrite Hv, Hk.
  cbv zeta. rewrite del_cb_unfold. unfold set_m, set_hp, call. simpl.
  assert (Hlen : (length (pq h1) < fuel)%nat) by (unfold Len in Hl1; lia).
  destruct (destructor s) as [d|] eqn:Hd.
  - destruct (d (value it0) (env s)) as [[e|] w] eqn:Hdw.
    + destruct (pruned_cons now s p0 it0 h1 w _ [EvDestruct (key it0) (value it0)]
                  HI Hp0 Hit0 Hlt0 Hrm (Ho1 Ho) eq_refl) as [HI1 Hcons].
      { by rewrite Hd. }
      rewrite Hd in HI1, Hcons.
      eexists _, _, _. split; [done|]. split; [|done].
      apply Hcons. by apply pruned_nil.
    + destruct (pruned_cons now s p0 it0 h1 w _ [EvDestruct (key it0) (value it0)]
                  HI Hp0 Hit0 Hlt0 Hrm (Ho1 Ho) eq_refl) as [HI1 Hcons].
      { by rewrite Hd. }
      rewrite Hd in HI1, Hcons.
      destruct (IH _ HI1 Hlen) as (err & s' & popped & Hloop & Hpr & Hlast).
      simpl in Hloop. rewrite Hloop. eexists _, _, _. split; [done|].
      split; [by apply Hcons|done].
  - destruct (pruned_cons now s p0 it0 h1 (env s) (calls s) []
                HI Hp0 Hit0 Hlt0 Hrm (Ho1 Ho)) as [HI1 Hcons].
    { by rewrite app_nil_r. }
    { by rewrite Hd. }
    rewrite Hd in HI1, Hcons.
    destruct (IH _ HI1 Hlen) as (err & s' & popped & Hloop & Hpr & Hlast).
    simpl in Hloop. rewrite Hloop. eexists _, _, _. split; [done|].
    split; [by apply Hcons|done].
Qed.

(** X18. The [Prune] of the earlier revision, whose loop looks at the
    last item of the slice and not at the root, returns on every pool in
    which queue and map are consistent, and also evicts nothing but items
    whose deadline is strictly before the reading of the clock: the items
    it pops come off the root in ascending order of deadline, are taken
    out of the map and handed to the destructor; whatever stays keeps its
    place and its fields.  When it returns no error the last item of the
    slice is not due. *)
Theorem X18_earlier_prune_evicts_only_due s :
  Inv s →
  ∃ err s' popped evs,
    Earlier.Prune s = Ok (err, s') ∧ Inv s' ∧
    calls s' = calls s ++ EvNow :: evs ∧
    match destructor s with
    | Some _ => destroys (hp s) popped evs
    | None => evs = []
    end ∧
    Forall (λ p, dtp (hp s) p < (nowFunc s (env s)).1) popped ∧
    StronglySorted Z.le (dtp (hp s) <$> popped) ∧
    (∀ q, q ∈ pq (hp s) ↔ q ∈ popped ∨ q ∈ pq (hp s')) ∧
    (∀ q, q ∈ popped → q ∉ pq (hp s')) ∧
    (∀ k p, m s' !! k = Some p ↔ m s !! k = Some p ∧ p ∉ popped) ∧
    same_items (hp s) (hp s') ∧
    (err = None →
       ∀ p, last (pq (hp s')) = Some p → (nowFunc s (env s)).1 ≤ dtp (hp s) p).
Proof.
  intros HI. unfold Earlier.Prune, Earlier.prune.
  destruct (nowFunc s (env s)) as [now w]. cbn [fst snd].
  destruct (Earlier_prune_loop_spec (S (length (pq (hp (call EvNow w s))))) now
              (call EvNow w s)) as (err & s' & popped & Hloop & Hpr & Hlast);
    [done|simpl; lia|].
  simpl in Hloop. simpl.
  destruct (pruned_calls _ _ _ _ _ Hpr) as (evs & Hcalls & Hev).
  exists err, s', popped, evs. split; [done|].
  split; [apply Hpr|]. split; [simpl in Hcalls; by rewrite Hcalls, <- app_assoc|].
  split; [done|]. split; [apply Hpr|]. split; [apply Hpr|].
  split; [apply Hpr|]. split; [apply Hpr|]. split; [apply Hpr|].
  split; [apply Hpr|].
  intros He p Hp. specialize (Hlast He p Hp).
  by rewrite (same_items_dtp _ _ _ (pruned_items _ _ _ _ _ Hpr)) in Hlast.
Qed.

End Properties.

(** * The claims on the example pool

    Histories of the example pool, the inputs at which the claims that
    fail on the code fail, and the theorems above at concrete inputs. *)

Lemma Ex_reach ops s :
  ops_ok ops Ex.new → run_ops ops Ex.new = Ok s →
  reach Ex.ctor Ex.dtor Ex.now (length ops) s.
Proof.
  intros Hok Hrun.
  apply (reach_run_ops Ex.ctor Ex.dtor Ex.now ops 0 Ex.new s); [|done..].
  apply reach_new.
Qed.

Lemma Ex_reach_after ops :
  ops_ok ops Ex.new → (∃ s, run_ops ops Ex.new = Ok s) →
  reach Ex.ctor Ex.dtor Ex.now (length ops) (Ex.after ops).
Proof.
  intros Hok [s Hrun]. unfold Ex.after. rewrite Hrun. by apply Ex_reach.
Qed.

Lemma Ex_Inv ops :
  ops_ok ops Ex.new → (∃ s, run_ops ops Ex.new = Ok s) →
  Z.of_nat (length ops) < 2 ^ 63 → Inv (Ex.after ops).
Proof.
  intros Hok Hrun Hn.
  by destruct (reach_Inv _ _ _ _ _ (Ex_reach_after ops Hok Hrun) Hn).
Qed.

Lemma Ex_Inv_env ops w :
  ops_ok ops Ex.new → (∃ s, run_ops ops Ex.new = Ok s) →
  Z.of_nat (length ops) < 2 ^ 63 → Inv (set_env w (Ex.after ops)).
Proof. apply Ex_Inv. Qed.

Lemma Ex_counted ops :
  ops_ok ops Ex.new → (∃ s, run_ops ops Ex.new = Ok s) →
  Z.of_nat (length ops) < 2 ^ 63 →
  counted (Z.of_nat (length ops)) (Ex.after ops).
Proof.
  intros Hok Hrun Hn.
  by destruct (reach_Inv _ _ _ _ _ (Ex_reach_after ops Hok Hrun) Hn) as (_ & ? & _).
Qed.

Ltac ex_history :=
  [> vm_compute; tauto
   | eexists; vm_compute; reflexivity
   | vm_compute; reflexivity ].

(** C1, counterexample: after [Get], [Release], [Release] of one key its
    counter is [-1]; the second [Release] found it at 0. *)
Lemma C1_refcount_goes_negative :
  let ops := [(0, OpGet "k"); (0, OpRelease "k" 60); (0, OpRelease "k" 60)] in
  reach Ex.ctor Ex.dtor Ex.now 3 (Ex.after ops) ∧
  run_ops ops Ex.new = Ok (Ex.after ops) ∧
  Ex.item_of (Ex.after ops) "k" = Some (Item "k" 60 (-1) 0 "k").
Proof.
  intros ops. split; [|split; vm_compute; reflexivity].
  apply (Ex_reach_after ops); [vm_compute; tauto|].
  exists (Ex.after ops). vm_compute; reflexivity.
Qed.

Lemma C1_queued_refcount_not_positive_witness :
  let s := Ex.after [(0, OpGet "k"); (0, OpRelease "k" 60)] in
  reach Ex.ctor Ex.dtor Ex.now 2 s ∧ Z.of_nat 2 < 2 ^ 63 ∧
  (∀ p it, p ∈ pq (hp s) → mem (hp s) !! p = Some it → refCounter it ≤ 0) ∧
  (Z.of_nat 2 + 1 < 2 ^ 63 →
   ∀ k ttl p it, m s !! k = Some p → mem (hp s) !! p = Some it →
     ∃ s' it', Release k ttl s = Ok s' ∧ mem (hp s') !! p = Some it' ∧
               refCounter it' = refCounter it - 1).
Proof.
  intros s.
  assert (Hr : reach Ex.ctor Ex.dtor Ex.now 2 s).
  { refine (Ex_reach_after [(0, OpGet "k"); (0, OpRelease "k" 60)] _ _);
      [vm_compute; tauto|eexists; vm_compute; reflexivity]. }
  assert (Hn : Z.of_nat 2 < 2 ^ 63) by (vm_compute; reflexivity).
  split; [exact Hr|]. split; [exact Hn|].
  exact (C1_queued_refcount_not_positive Ex.ctor Ex.dtor Ex.now 2 s Hr Hn).
Defined.





Lemma C4_constructor_failure_witness :
  let ops := [(0, OpGet "k"); (0, OpRelease "k" 60)] in
  let s := set_env 120 (Ex.after ops) in
  let s1 := Ex.after (ops ++ [(120, OpPrune)]) in
  let e := errorString "no such thing" in
  Inv s ∧ m s !! "bad" = None ∧ Prune s = Ok (None, s1) ∧
  constructor s "bad" (env s1) = ((zero, Some e), 120) ∧
  ∃ s' evs,
    Get "bad" s = Ok ((zero, Some e), s') ∧
    m s' !! "bad" = None ∧ hp s' = hp s1 ∧ m s' = m s1 ∧
    length (mem (hp s')) = length (mem (hp s)) ∧
    calls s' = calls s ++ EvNow :: evs ++ [EvConstruct "bad"] ∧
    (∀ e, e ∈ evs → ∃ k' v', e = EvDestruct k' v' ∧ k' ≠ "bad").
Proof.
  intros ops s s1 e.
  assert (HI : Inv s) by (refine (Ex_Inv_env ops 120 _ _ _); ex_history).
  assert (Hk : m s !! "bad" = None) by (vm_compute; reflexivity).
  assert (HP : Prune s = Ok (None, s1)) by (vm_compute; reflexivity).
  assert (Hc : constructor s "bad" (env s1) = ((zero, Some e), 120))
    by (vm_compute; reflexivity).
  split; [exact HI|]. split; [exact Hk|]. split; [exact HP|]. split; [exact Hc|].
  exact (C4_constructor_failure s "bad" s1 zero e 120 HI Hk HP Hc).
Defined.


Lemma C6_get_revives_idle_witness :
  let ops := [(0, OpGet "k"); (0, OpRelease "k" 60)] in
  let s := set_env 10 (Ex.after ops) in
  let it := Item "k" 60 0 0 "k" in
  Inv s ∧ m s !! "k" = Some 0%nat ∧ mem (hp s) !! 0%nat = Some it ∧
  refCounter it = 0 ∧ 0%nat ∈ pq (hp s) ∧
  ∃ r s' evs it',
    Get "k" s = Ok (r, s') ∧
    calls s' = calls s ++ EvNow :: evs ∧
    (∀ e, e ∈ evs → ∃ k' v, e = EvDestruct k' v ∧ k' ≠ "k") ∧
    (0%nat ∉ pq (hp s')) ∧ m s' !! "k" = Some 0%nat ∧
    mem (hp s') !! 0%nat = Some it' ∧
    refCounter it' = 1 ∧ value it' = value it ∧ index it' = -1 ∧
    (r.2 = None → r.1 = value it).
Proof.
  intros ops s it.
  assert (HI : Inv s) by (refine (Ex_Inv_env ops 10 _ _ _); ex_history).
  assert (Hk : m s !! "k" = Some 0%nat) by (vm_compute; reflexivity).
  assert (Hit : mem (hp s) !! 0%nat = Some it) by (vm_compute; reflexivity).
  assert (Hrc : refCounter it = 0) by reflexivity.
  assert (Hq : 0%nat ∈ pq (hp s)).
  { replace (pq (hp s)) with [0%nat] by (vm_compute; reflexivity). by left. }
  split; [exact HI|]. split; [exact Hk|]. split; [exact Hit|].
  split; [exact Hrc|]. split; [exact Hq|].
  exact (C6_get_revives_idle s "k" 0%nat it HI Hk Hit Hrc Hq).
Defined.

Lemma C7_release_untracked_noop_witness :
  m Ex.new !! "unknown key" = None ∧
  Release "unknown key" 60 Ex.new = Ok Ex.new.
Proof.
  split; [reflexivity|].
  apply (C7_release_untracked_noop Ex.new "unknown key" 60). reflexivity.
Defined.

(** C8, counterexample: two items are due; the destructor fails for the
    first, so the first pass returns its error and stops; the second
    pass, at the same reading of the clock, destroys the other item. *)
Lemma C8_second_prune_destroys_after_error :
  let ops := [(0, OpGet "a"); (0, OpGet "b");
              (0, OpRelease "a" 0); (0, OpRelease "b" 0)] in
  let s := set_env 10 (Ex.after ops) in
  let s1 := Ex.after (ops ++ [(10, OpPrune)]) in
  let s2 := Ex.after (ops ++ [(10, OpPrune); (10, OpPrune)]) in
  Prune s = Ok (Some (errorString "boom"), s1) ∧
  (nowFunc s1 (env s1)).1 = (nowFunc s (env s)).1 ∧
  m s1 !! "b" = Some 1%nat ∧ pq (hp s1) = [1%nat] ∧
  Prune s1 = Ok (None, s2) ∧
  calls s2 = calls s1 ++ [EvNow; EvDestruct "b" "b"] ∧
  m s2 !! "b" = None ∧ pq (hp s2) = [].
Proof.
  intros ops s s1 s2.
  split; [vm_compute; reflexivity|].
  split; [vm_compute; reflexivity|].
  split; [vm_compute; reflexivity|].
  split; [vm_compute; reflexivity|].
  split; [vm_compute; reflexivity|].
  split; [vm_compute; reflexivity|].
  split; vm_compute; reflexivity.
Qed.

Lemma C8_prune_twice_witness :
  let s := set_env 120 (Ex.after [(0, OpGet "k1"); (0, OpGet "k2");
                                  (0, OpRelease "k1" 3600); (0, OpRelease "k2" 60)]) in
  let s1 := Ex.after [(0, OpGet "k1"); (0, OpGet "k2");
                      (0, OpRelease "k1" 3600); (0, OpRelease "k2" 60);
                      (120, OpPrune)] in
  Prune s = Ok (None, s1) ∧
  (nowFunc s 120).1 = (nowFunc s (env s)).1 ∧
  Prune (set_env 120 s1) = Ok (None, call EvNow (nowFunc s 120).2 s1).
Proof.
  intros s s1.
  assert (H1 : Prune s = Ok (None, s1)) by (vm_compute; reflexivity).
  assert (H2 : (nowFunc s 120).1 = (nowFunc s (env s)).1) by reflexivity.
  split; [exact H1|]. split; [exact H2|].
  exact (C8_prune_twice s s1 120 H1 H2).
Defined.

(** C9, counterexample: two keys are in use when [Clear] fails on the
    first; the second stays mapped.  Its holder's [Release] then queues
    it, and the next [Prune] pass destroys it: no [Clear] and no [Get]
    was needed. *)
Lemma C9_leftover_in_use_needs_no_reacquire :
  let ops := [(0, OpGet "a"); (0, OpGet "b")] in
  let s := Ex.after ops in
  let s1 := Ex.after (ops ++ [(0, OpClear ["a"; "b"])]) in
  let s2 := Ex.after (ops ++ [(0, OpClear ["a"; "b"]);
                              (0, OpRelease "b" 0); (10, OpPrune)]) in
  range_order ["a"; "b"] s ∧
  Clear ["a"; "b"] s = Ok (Some (Errorf_close "a" (errorString "boom")), s1) ∧
  Ex.item_of s1 "b" = Some (Item "b" 0 1 (-1) "b") ∧
  run_ops [(0, OpRelease "b" 0); (10, OpPrune)] s1 = Ok s2 ∧
  m s2 !! "b" = None ∧
  calls s2 = calls s1 ++ [EvNow; EvNow; EvDestruct "b" "b"].
Proof.
  intros ops s s1 s2. split.
  { apply range_order_dom.
    - apply (bool_decide_unpack (NoDup ["a"; "b"])). vm_compute. exact I.
    - vm_compute. reflexivity. }
  split; [vm_compute; reflexivity|].
  split; [vm_compute; reflexivity|].
  split; [vm_compute; reflexivity|].
  split; vm_compute; reflexivity.
Qed.

Lemma C9_failed_clear_leaves_parked_witness :
  let ops := [(0, OpGet "a"); (0, OpGet "b"); (0, OpRelease "b" 60)] in
  let s := Ex.after ops in
  let order := ["a"; "b"] in
  let e := Errorf_close "a" (errorString "boom") in
  let s1 := Ex.after (ops ++ [(0, OpClear order)]) in
  Inv s ∧ counted 3 s ∧ 0 ≤ 3 ∧ range_order order s ∧
  Clear order s = Ok (Some e, s1) ∧
  pq (hp s1) = [] ∧
  ∀ k p it, m s1 !! k = Some p → mem (hp s1) !! p = Some it →
    index it = -1 ∧
    (∀ ops s2,
       3 + Z.of_nat (length ops) < 2 ^ 63 →
       Forall (λ wo, ¬ touches k wo.2) ops →
       run_ops ops s1 = Ok s2 → parked k p s2) ∧
    (refCounter it ≤ 0 →
     ∀ ops s2,
       3 + Z.of_nat (length ops) < 2 ^ 63 →
       Forall (λ wo, ¬ revives k wo.2) ops →
       run_ops ops s1 = Ok s2 → parked k p s2).
Proof.
  intros ops s order e s1.
  assert (HI : Inv s) by (refine (Ex_Inv ops _ _ _); ex_history).
  assert (Hc : counted 3 s) by (refine (Ex_counted ops _ _ _); ex_history).
  assert (Hn : 0 ≤ 3) by (vm_compute; discriminate).
  assert (Hro : range_order order s).
  { apply range_order_dom.
    - apply (bool_decide_unpack (NoDup order)). vm_compute. exact I.
    - vm_compute. reflexivity. }
  assert (HC : Clear order s = Ok (Some e, s1)) by (vm_compute; reflexivity).
  split; [exact HI|]. split; [exact Hc|]. split; [exact Hn|].
  split; [exact Hro|]. split; [exact HC|].
  exact (C9_failed_clear_leaves_parked s 3 order e s1 HI Hc Hn Hro HC).
Defined.

Lemma C10_get_error_keeps_acquisition_witness :
  let ops := [(0, OpGet "a"); (0, OpGet "k");
              (0, OpRelease "a" 0); (0, OpRelease "k" 60)] in
  let s := set_env 10 (Ex.after ops) in
  let s' := Ex.after (ops ++ [(10, OpGet "k")]) in
  let it := Item "k" 60 0 1 "k" in
  let e := errorString "boom" in
  Inv s ∧ m s !! "k" = Some 1%nat ∧ mem (hp s) !! 1%nat = Some it ∧
  Get "k" s = Ok ((zero, Some e), s') ∧
  zero = zero ∧
  (∃ it', mem (hp s') !! 1%nat = Some it' ∧
          refCounter it' = wrap (refCounter it + 1)) ∧
  (1%nat ∉ pq (hp s')) ∧ m s' !! "k" = Some 1%nat ∧
  ∃ d k' v w, destructor s = Some d ∧ k' ≠ "k" ∧
              d v w = (Some e, env s') ∧
              last (calls s') = Some (EvDestruct k' v).
Proof.
  intros ops s s' it e.
  assert (HI : Inv s) by (refine (Ex_Inv_env ops 10 _ _ _); ex_history).
  assert (Hk : m s !! "k" = Some 1%nat) by (vm_compute; reflexivity).
  assert (Hit : mem (hp s) !! 1%nat = Some it) by (vm_compute; reflexivity).
  assert (HG : Get "k" s = Ok ((zero, Some e), s')) by (vm_compute; reflexivity).
  split; [exact HI|]. split; [exact Hk|]. split; [exact Hit|]. split; [exact HG|].
  exact (C10_get_error_keeps_acquisition s "k" 1%nat it zero e s' HI Hk Hit HG).
Defined.

(** * The further properties on the example pool *)

Ltac ex_reach ops :=
  refine (Ex_reach_after ops _ _);
  [vm_compute; tauto | eexists; vm_compute; reflexivity].

Lemma X1_reachable_indices_witness :
  let ops := [(0, OpGet "k1"); (0, OpGet "k2");
              (0, OpRelease "k1" 3600); (0, OpRelease "k2" 60)] in
  let s := Ex.after ops in
  reach Ex.ctor Ex.dtor Ex.now 4 s ∧ Z.of_nat 4 < 2 ^ 63 ∧
  (∀ (i : nat) p, pq (hp s) !! i = Some p →
     ∃ it, mem (hp s) !! p = Some it ∧ index it = Z.of_nat i ∧
           m s !! key it = Some p) ∧
  (∀ k p, m s !! k = Some p →
     ∃ it, mem (hp s) !! p = Some it ∧ key it = k ∧
           ((index it = -1 ∧ p ∉ pq (hp s)) ∨
            (0 ≤ index it ∧ pq (hp s) !! Z.to_nat (index it) = Some p))) ∧
  NoDup (pq (hp s)).
Proof.
  intros ops s.
  assert (Hr : reach Ex.ctor Ex.dtor Ex.now 4 s) by ex_reach ops.
  assert (Hn : Z.of_nat 4 < 2 ^ 63) by (vm_compute; reflexivity).
  split; [exact Hr|]. split; [exact Hn|].
  exact (X1_reachable_indices Ex.ctor Ex.dtor Ex.now 4 s Hr Hn).
Defined.

Lemma X2_operations_return_witness :
  let ops := [(0, OpGet "k1"); (0, OpGet "k2"); (0, OpRelease "k1" 3600)] in
  let s := Ex.after ops in
  let o := OpClear ["k2"; "k1"] in
  reach Ex.ctor Ex.dtor Ex.now 3 s ∧ Z.of_nat 3 + 1 < 2 ^ 63 ∧ op_ok o s ∧
  ∃ s', run_op o (set_env 10 s) = Ok s' ∧ reach Ex.ctor Ex.dtor Ex.now 4 s'.
Proof.
  intros ops s o.
  assert (Hr : reach Ex.ctor Ex.dtor Ex.now 3 s) by ex_reach ops.
  assert (Hn : Z.of_nat 3 + 1 < 2 ^ 63) by (vm_compute; reflexivity).
  assert (Hok : op_ok o s).
  { apply range_order_dom.
    - apply (bool_decide_unpack (NoDup ["k2"; "k1"])). vm_compute. exact I.
    - vm_compute. reflexivity. }
  split; [exact Hr|]. split; [exact Hn|]. split; [exact Hok|].
  exact (X2_operations_return Ex.ctor Ex.dtor Ex.now 3 s o 10 Hr Hn Hok).
Defined.

Lemma X3_root_is_earliest_witness :
  let ops := [(0, OpGet "k1"); (0, OpGet "k2"); (0, OpGet "k3");
              (0, OpRelease "k1" 3600); (0, OpRelease "k2" 60);
              (0, OpRelease "k3" 600)] in
  let s := Ex.after ops in
  let itr := Item "k2" 60 0 0 "k2" in
  let itq := Item "k1" 3600 0 1 "k1" in
  reach Ex.ctor Ex.dtor Ex.now 6 s ∧ Z.of_nat 6 < 2 ^ 63 ∧
  pq (hp s) !! 0%nat = Some 1%nat ∧ mem (hp s) !! 1%nat = Some itr ∧
  0%nat ∈ pq (hp s) ∧ mem (hp s) !! 0%nat = Some itq ∧
  deadtime itr ≤ deadtime itq.
Proof.
  intros ops s itr itq.
  assert (Hr : reach Ex.ctor Ex.dtor Ex.now 6 s) by ex_reach ops.
  assert (Hn : Z.of_nat 6 < 2 ^ 63) by (vm_compute; reflexivity).
  assert (Hroot : pq (hp s) !! 0%nat = Some 1%nat) by (vm_compute; reflexivity).
  assert (Hitr : mem (hp s) !! 1%nat = Some itr) by (vm_compute; reflexivity).
  assert (Hq : 0%nat ∈ pq (hp s)).
  { replace (pq (hp s)) with [1%nat; 0%nat; 2%nat] by (vm_compute; reflexivity).
    right. left. }
  assert (Hitq : mem (hp s) !! 0%nat = Some itq) by (vm_compute; reflexivity).
  split; [exact Hr|]. split; [exact Hn|]. split; [exact Hroot|].
  split; [exact Hitr|]. split; [exact Hq|]. split; [exact Hitq|].
  exact (X3_root_is_earliest Ex.ctor Ex.dtor Ex.now 6 s 1%nat itr 0%nat itq
           Hr Hn Hroot Hitr Hq Hitq).
Defined.

Lemma X4_heap_Push_adds_witness :
  let ops := [(0, OpGet "k1"); (0, OpGet "k2"); (0, OpRelease "k1" 3600)] in
  let h := hp (Ex.after ops) in
  let it := Item "k2" 0 1 (-1) "k2" in
  wfq h ∧ mem h !! 1%nat = Some it ∧ index it = -1 ∧
  ∃ h', heap_Push 1%nat h = Ok h' ∧ wfq h' ∧ same_items h h' ∧
        Len h' = Len h + 1 ∧ (∀ q, q ∈ pq h' ↔ q = 1%nat ∨ q ∈ pq h) ∧
        (ordered h → ordered h').
Proof.
  intros ops h it.
  assert (HI : Inv (Ex.after ops)) by (refine (Ex_Inv ops _ _ _); ex_history).
  assert (Hw : wfq h) by apply HI.
  assert (Hit : mem h !! 1%nat = Some it) by (vm_compute; reflexivity).
  assert (Hidx : index it = -1) by reflexivity.
  split; [exact Hw|]. split; [exact Hit|]. split; [exact Hidx|].
  exact (X4_heap_Push_adds h 1%nat it Hw Hit Hidx).
Defined.

Lemma X5_heap_Pop_takes_earliest_witness :
  let ops := [(0, OpGet "k1"); (0, OpGet "k2");
              (0, OpRelease "k1" 3600); (0, OpRelease "k2" 60)] in
  let h := hp (Ex.after ops) in
  wfq h ∧ ordered h ∧ 0 < Len h ∧
  ∃ p h',
    heap_Pop h = Ok (p, h') ∧ pq h !! 0%nat = Some p ∧
    (∀ q, q ∈ pq h → dtp h p ≤ dtp h q) ∧
    wfq h' ∧ ordered h' ∧ same_items h h' ∧ Len h' = Len h - 1 ∧
    (∀ q, q ∈ pq h ↔ q = p ∨ q ∈ pq h') ∧ (p ∉ pq h') ∧
    (∃ it, mem h' !! p = Some it ∧ index it = -1).
Proof.
  intros ops h.
  assert (HI : Inv (Ex.after ops)) by (refine (Ex_Inv ops _ _ _); ex_history).
  assert (Hw : wfq h) by apply HI.
  assert (Ho : ordered h) by apply HI.
  assert (Hn : 0 < Len h) by (vm_compute; reflexivity).
  split; [exact Hw|]. split; [exact Ho|]. split; [exact Hn|].
  exact (X5_heap_Pop_takes_earliest h Hw Ho Hn).
Defined.

Lemma X6_remove_takes_out_witness :
  let ops := [(0, OpGet "k1"); (0, OpGet "k2");
              (0, OpRelease "k1" 3600); (0, OpRelease "k2" 60)] in
  let h := hp (Ex.after ops) in
  let it := Item "k1" 3600 0 1 "k1" in
  wfq h ∧ mem h !! 0%nat = Some it ∧
  ∃ h', remove 0%nat h = Ok h' ∧ wfq h' ∧ same_items h h' ∧
        (∀ q, q ∈ pq h' ↔ q ∈ pq h ∧ q ≠ 0%nat) ∧
        (∃ it', mem h' !! 0%nat = Some it' ∧ index it' = -1) ∧
        (ordered h → ordered h') ∧
        (0%nat ∉ pq h → h' = h).
Proof.
  intros ops h it.
  assert (HI : Inv (Ex.after ops)) by (refine (Ex_Inv ops _ _ _); ex_history).
  assert (Hw : wfq h) by apply HI.
  assert (Hit : mem h !! 0%nat = Some it) by (vm_compute; reflexivity).
  split; [exact Hw|]. split; [exact Hit|].
  exact (X6_remove_takes_out h 0%nat it Hw Hit).
Defined.

Lemma X7_heap_out_of_range_witness :
  let h0 : pqueue string := PQ [] [] in
  let h := hp (Ex.after [(0, OpGet "k"); (0, OpRelease "k" 60)]) in
  pq h0 = [] ∧ heap_Pop h0 = Panic ∧
  ¬ (0 ≤ 1 < Len h) ∧ heap_Remove 1 h = Panic.
Proof.
  intros h0 h.
  assert (H0 : pq h0 = []) by reflexivity.
  assert (H1 : ¬ (0 ≤ 1 < Len h)).
  { replace (Len h) with 1 by (vm_compute; reflexivity). lia. }
  split; [exact H0|]. split; [exact (proj1 (X7_heap_out_of_range h0 0) H0)|].
  split; [exact H1|]. exact (proj2 (X7_heap_out_of_range h 1) H1).
Defined.

Lemma X8_Get_constructs_witness :
  let ops := [(0, OpGet "k"); (0, OpRelease "k" 60)] in
  let s := set_env 120 (Ex.after ops) in
  let s1 := Ex.after (ops ++ [(120, OpPrune)]) in
  Inv s ∧ m s !! "n" = None ∧ Prune s = Ok (None, s1) ∧
  constructor s "n" (env s1) = (("n", None), 120) ∧
  ∃ s' p evs,
    Get "n" s = Ok (("n", None), s') ∧
    p = length (mem (hp s)) ∧
    m s' = <["n" := p]> (m s1) ∧
    mem (hp s') = mem (hp s1) ++ [Item "n" 0 1 (-1) "n"] ∧
    mem (hp s') !! p = Some (Item "n" 0 1 (-1) "n") ∧
    pq (hp s') = pq (hp s1) ∧ (p ∉ pq (hp s')) ∧
    calls s' = calls s ++ EvNow :: evs ++ [EvConstruct "n"] ∧
    (∀ e, e ∈ evs → ∃ k' v', e = EvDestruct k' v' ∧ k' ≠ "n") ∧
    env s' = 120 ∧ Inv s'.
Proof.
  intros ops s s1.
  assert (HI : Inv s) by (refine (Ex_Inv_env ops 120 _ _ _); ex_history).
  assert (Hk : m s !! "n" = None) by (vm_compute; reflexivity).
  assert (HP : Prune s = Ok (None, s1)) by (vm_compute; reflexivity).
  assert (Hc : constructor s "n" (env s1) = (("n", None), 120))
    by (vm_compute; reflexivity).
  split; [exact HI|]. split; [exact Hk|]. split; [exact HP|]. split; [exact Hc|].
  exact (X8_Get_constructs s "n" s1 "n" 120 HI Hk HP Hc).
Defined.

Lemma X9_Get_shares_witness :
  let ops := [(0, OpGet "k")] in
  let s := Ex.after ops in
  let it := Item "k" 0 1 (-1) "k" in
  reach Ex.ctor Ex.dtor Ex.now 1 s ∧ Z.of_nat 1 + 1 < 2 ^ 63 ∧
  m s !! "k" = Some 0%nat ∧ mem (hp s) !! 0%nat = Some it ∧ 0 < refCounter it ∧
  ∃ r s' evs it',
    Get "k" (set_env 5 s) = Ok (r, s') ∧
    calls s' = calls s ++ EvNow :: evs ∧
    (∀ e, e ∈ evs → ∃ k' v, e = EvDestruct k' v ∧ k' ≠ "k") ∧
    m s' !! "k" = Some 0%nat ∧ (0%nat ∉ pq (hp s)) ∧ (0%nat ∉ pq (hp s')) ∧
    mem (hp s') !! 0%nat = Some it' ∧
    refCounter it' = refCounter it + 1 ∧ value it' = value it ∧
    (r.2 = None → r.1 = value it).
Proof.
  intros ops s it.
  assert (Hr : reach Ex.ctor Ex.dtor Ex.now 1 s) by ex_reach ops.
  assert (Hn : Z.of_nat 1 + 1 < 2 ^ 63) by (vm_compute; reflexivity).
  assert (Hk : m s !! "k" = Some 0%nat) by (vm_compute; reflexivity).
  assert (Hit : mem (hp s) !! 0%nat = Some it) by (vm_compute; reflexivity).
  assert (Hpos : 0 < refCounter it) by reflexivity.
  split; [exact Hr|]. split; [exact Hn|]. split; [exact Hk|].
  split; [exact Hit|]. split; [exact Hpos|].
  exact (X9_Get_shares Ex.ctor Ex.dtor Ex.now 1 s "k" 0%nat it 5 Hr Hn Hk Hit Hpos).
Defined.

Lemma X10_Release_counts_witness :
  let ops := [(0, OpGet "k")] in
  let s := Ex.after ops in
  let it := Item "k" 0 1 (-1) "k" in
  reach Ex.ctor Ex.dtor Ex.now 1 s ∧ Z.of_nat 1 + 1 < 2 ^ 63 ∧
  m s !! "k" = Some 0%nat ∧ mem (hp s) !! 0%nat = Some it ∧
  ∃ s' it',
    Release "k" 60 (set_env 5 s) = Ok s' ∧
    m s' = m s ∧ mem (hp s') !! 0%nat = Some it' ∧
    value it' = value it ∧ refCounter it' = refCounter it - 1 ∧
    (refCounter it = 1 →
       deadtime it' = (Ex.now 5).1 + 60 ∧ (0%nat ∉ pq (hp s)) ∧
       (∀ q, q ∈ pq (hp s') ↔ q = 0%nat ∨ q ∈ pq (hp s)) ∧
       calls s' = calls s ++ [EvNow] ∧ env s' = (Ex.now 5).2) ∧
    (refCounter it ≠ 1 →
       deadtime it' = deadtime it ∧ index it' = index it ∧
       pq (hp s') = pq (hp s) ∧ calls s' = calls s ∧ env s' = 5).
Proof.
  intros ops s it.
  assert (Hr : reach Ex.ctor Ex.dtor Ex.now 1 s) by ex_reach ops.
  assert (Hn : Z.of_nat 1 + 1 < 2 ^ 63) by (vm_compute; reflexivity).
  assert (Hk : m s !! "k" = Some 0%nat) by (vm_compute; reflexivity).
  assert (Hit : mem (hp s) !! 0%nat = Some it) by (vm_compute; reflexivity).
  split; [exact Hr|]. split; [exact Hn|]. split; [exact Hk|]. split; [exact Hit|].
  exact (X10_Release_counts Ex.ctor Ex.dtor Ex.now 1 s "k" 60 0%nat it 5 Hr Hn Hk Hit).
Defined.

Lemma X11_Get_Release_balance_witness :
  let ops := [(0, OpGet "k"); (0, OpRelease "k" 60)] in
  let s := Ex.after ops in
  let it := Item "k" 60 0 0 "k" in
  reach Ex.ctor Ex.dtor Ex.now 2 s ∧ Z.of_nat 2 + 2 < 2 ^ 63 ∧
  m s !! "k" = Some 0%nat ∧ mem (hp s) !! 0%nat = Some it ∧
  ∃ r s1 s2 it2,
    Get "k" (set_env 10 s) = Ok (r, s1) ∧
    Release "k" 30 (set_env 20 s1) = Ok s2 ∧
    m s2 !! "k" = Some 0%nat ∧ mem (hp s2) !! 0%nat = Some it2 ∧
    refCounter it2 = refCounter it ∧ value it2 = value it.
Proof.
  intros ops s it.
  assert (Hr : reach Ex.ctor Ex.dtor Ex.now 2 s) by ex_reach ops.
  assert (Hn : Z.of_nat 2 + 2 < 2 ^ 63) by (vm_compute; reflexivity).
  assert (Hk : m s !! "k" = Some 0%nat) by (vm_compute; reflexivity).
  assert (Hit : mem (hp s) !! 0%nat = Some it) by (vm_compute; reflexivity).
  split; [exact Hr|]. split; [exact Hn|]. split; [exact Hk|]. split; [exact Hit|].
  exact (X11_Get_Release_balance Ex.ctor Ex.dtor Ex.now 2 s "k" 30 0%nat it 10 20
           Hr Hn Hk Hit).
Defined.

Lemma X12_destroys_only_idle_and_due_witness :
  let ops := [(0, OpGet "k1"); (0, OpGet "k2");
              (0, OpRelease "k1" 3600); (0, OpRelease "k2" 60)] in
  let s := Ex.after ops in
  let s' := Ex.after (ops ++ [(120, OpPrune)]) in
  reach Ex.ctor Ex.dtor Ex.now 4 s ∧ Z.of_nat 4 + 1 < 2 ^ 63 ∧
  (∀ order, OpPrune ≠ OpClear order) ∧
  run_op OpPrune (set_env 120 s) = Ok s' ∧
  ∃ evs, calls s' = calls s ++ evs ∧
    ∀ k v, EvDestruct k v ∈ evs →
      ∃ p it, m s !! k = Some p ∧ p ∈ pq (hp s) ∧ mem (hp s) !! p = Some it ∧
              value it = v ∧ refCounter it ≤ 0 ∧ deadtime it < (Ex.now 120).1 ∧
              OpPrune ≠ OpGet k ∧ m s' !! k = None.
Proof.
  intros ops s s'.
  assert (Hr : reach Ex.ctor Ex.dtor Ex.now 4 s) by ex_reach ops.
  assert (Hn : Z.of_nat 4 + 1 < 2 ^ 63) by (vm_compute; reflexivity).
  assert (Hnc : ∀ order, @OpPrune ≠ OpClear order) by discriminate.
  assert (Hrun : run_op OpPrune (set_env 120 s) = Ok s') by (vm_compute; reflexivity).
  split; [exact Hr|]. split; [exact Hn|]. split; [exact Hnc|]. split; [exact Hrun|].
  exact (X12_destroys_only_idle_and_due Ex.ctor Ex.dtor Ex.now 4 s OpPrune 120 s'
           Hr Hn Hnc Hrun).
Defined.

Lemma X13_in_use_is_kept_witness :
  let ops := [(0, OpGet "k1"); (0, OpGet "k2"); (0, OpRelease "k2" 60)] in
  let s := Ex.after ops in
  let s' := Ex.after (ops ++ [(1000, OpPrune)]) in
  let it := Item "k1" 0 1 (-1) "k1" in
  reach Ex.ctor Ex.dtor Ex.now 3 s ∧ Z.of_nat 3 + 1 < 2 ^ 63 ∧
  m s !! "k1" = Some 0%nat ∧ mem (hp s) !! 0%nat = Some it ∧ 0 < refCounter it ∧
  (∀ order, OpPrune ≠ OpClear order) ∧
  run_op OpPrune (set_env 1000 s) = Ok s' ∧
  m s' !! "k1" = Some 0%nat ∧
  (∃ it', mem (hp s') !! 0%nat = Some it' ∧ value it' = value it ∧ key it' = "k1") ∧
  ∃ evs, calls s' = calls s ++ evs ∧ ∀ v, EvDestruct "k1" v ∉ evs.
Proof.
  intros ops s s' it.
  assert (Hr : reach Ex.ctor Ex.dtor Ex.now 3 s) by ex_reach ops.
  assert (Hn : Z.of_nat 3 + 1 < 2 ^ 63) by (vm_compute; reflexivity).
  assert (Hk : m s !! "k1" = Some 0%nat) by (vm_compute; reflexivity).
  assert (Hit : mem (hp s) !! 0%nat = Some it) by (vm_compute; reflexivity).
  assert (Hpos : 0 < refCounter it) by reflexivity.
  assert (Hnc : ∀ order, @OpPrune ≠ OpClear order) by discriminate.
  assert (Hrun : run_op OpPrune (set_env 1000 s) = Ok s') by (vm_compute; reflexivity).
  split; [exact Hr|]. split; [exact Hn|]. split; [exact Hk|]. split; [exact Hit|].
  split; [exact Hpos|]. split; [exact Hnc|]. split; [exact Hrun|].
  exact (X13_in_use_is_kept Ex.ctor Ex.dtor Ex.now 3 s "k1" 0%nat it OpPrune 1000 s'
           Hr Hn Hk Hit Hpos Hnc Hrun).
Defined.

Lemma X14_due_item_is_evicted_witness :
  let ops := [(0, OpGet "k"); (0, OpRelease "k" 60)] in
  let s := set_env 120 (Ex.after ops) in
  let s1 := Ex.after (ops ++ [(120, OpPrune)]) in
  let it := Item "k" 60 0 0 "k" in
  Inv s ∧ m s !! "k" = Some 0%nat ∧ mem (hp s) !! 0%nat = Some it ∧
  0%nat ∈ pq (hp s) ∧ deadtime it < (nowFunc s (env s)).1 ∧
  Prune s = Ok (None, s1) ∧
  m s1 !! "k" = None ∧ (0%nat ∉ pq (hp s1)) ∧
  (∃ evs, calls s1 = calls s ++ EvNow :: evs ∧
          (is_Some (destructor s) → EvDestruct "k" (value it) ∈ evs)) ∧
  ∀ w, ∃ r s2,
    Get "k" (set_env w s1) = Ok (r, s2) ∧
    (r.2 = None →
       last (calls s2) = Some (EvConstruct "k") ∧
       m s2 !! "k" = Some (length (mem (hp s)))).
Proof.
  intros ops s s1 it.
  assert (HI : Inv s) by (refine (Ex_Inv_env ops 120 _ _ _); ex_history).
  assert (Hk : m s !! "k" = Some 0%nat) by (vm_compute; reflexivity).
  assert (Hit : mem (hp s) !! 0%nat = Some it) by (vm_compute; reflexivity).
  assert (Hq : 0%nat ∈ pq (hp s)).
  { replace (pq (hp s)) with [0%nat] by (vm_compute; reflexivity). by left. }
  assert (Hd : deadtime it < (nowFunc s (env s)).1) by (vm_compute; reflexivity).
  assert (HP : Prune s = Ok (None, s1)) by (vm_compute; reflexivity).
  split; [exact HI|]. split; [exact Hk|]. split; [exact Hit|]. split; [exact Hq|].
  split; [exact Hd|]. split; [exact HP|].
  exact (X14_due_item_is_evicted s "k" 0%nat it s1 HI Hk Hit Hq Hd HP).
Defined.


Lemma X16_Clear_resets_witness :
  let ops := [(0, OpGet "k1"); (0, OpGet "k2"); (0, OpRelease "k1" 3600)] in
  let s := Ex.after ops in
  let order := ["k2"; "k1"] in
  let s1 := Ex.after (ops ++ [(0, OpClear order)]) in
  Inv s ∧ range_order order s ∧ Clear order s = Ok (None, s1) ∧
  m s1 = ∅ ∧ pq (hp s1) = [] ∧
  (∀ order', range_order order' s1 →
     order' = [] ∧ Clear order' s1 = Ok (None, s1)) ∧
  (∀ w, Prune (set_env w s1)
        = Ok (None, call EvNow (nowFunc s1 w).2 (set_env w s1))) ∧
  (∀ k w, ∃ r s2, Get k (set_env w s1) = Ok (r, s2) ∧
                  calls s2 = calls s1 ++ [EvNow; EvConstruct k]).
Proof.
  intros ops s order s1.
  assert (HI : Inv s) by (refine (Ex_Inv ops _ _ _); ex_history).
  assert (Hro : range_order order s).
  { apply range_order_dom.
    - apply (bool_decide_unpack (NoDup order)). vm_compute. exact I.
    - vm_compute. reflexivity. }
  assert (HC : Clear order s = Ok (None, s1)) by (vm_compute; reflexivity).
  split; [exact HI|]. split; [exact Hro|]. split; [exact HC|].
  exact (X16_Clear_resets s order s1 HI Hro HC).
Defined.

Lemma X17_values_never_change_witness :
  let ops0 := [(0, OpGet "k1"); (0, OpGet "k2")] in
  let ops := [(0, OpRelease "k1" 60); (100, OpPrune); (100, OpGet "k1")] in
  let s := Ex.after ops0 in
  let s' := Ex.after (ops0 ++ ops) in
  reach Ex.ctor Ex.dtor Ex.now 2 s ∧
  Z.of_nat 2 + Z.of_nat (length ops) < 2 ^ 63 ∧
  ops_ok ops s ∧ run_ops ops s = Ok s' ∧
  kept_values s s' ∧
  (∀ k p, m s' !! k = Some p →
     m s !! k = Some p ∨ (length (mem (hp s)) ≤ p)%nat).
Proof.
  intros ops0 ops s s'.
  assert (Hr : reach Ex.ctor Ex.dtor Ex.now 2 s) by ex_reach ops0.
  assert (Hn : Z.of_nat 2 + Z.of_nat (length ops) < 2 ^ 63)
    by (vm_compute; reflexivity).
  assert (Hok : ops_ok ops s) by (vm_compute; tauto).
  assert (Hrun : run_ops ops s = Ok s') by (vm_compute; reflexivity).
  split; [exact Hr|]. split; [exact Hn|]. split; [exact Hok|]. split; [exact Hrun|].
  exact (X17_values_never_change Ex.ctor Ex.dtor Ex.now ops 2 s s' Hr Hn Hok Hrun).
Defined.

Lemma X18_earlier_prune_evicts_only_due_witness :
  let ops := [(0, OpGet "k1"); (0, OpGet "k2"); (0, OpGet "k3");
              (0, OpRelease "k1" 3600); (0, OpRelease "k2" 60);
              (0, OpRelease "k3" 600)] in
  let s := set_env 700 (Ex.after ops) in
  Inv s ∧
  ∃ err s' popped evs,
    Earlier.Prune s = Ok (err, s') ∧ Inv s' ∧
    calls s' = calls s ++ EvNow :: evs ∧
    match destructor s with
    | Some _ => destroys (hp s) popped evs
    | None => evs = []
    end ∧
    Forall (λ p, dtp (hp s) p < (nowFunc s (env s)).1) popped ∧
    StronglySorted Z.le (dtp (hp s) <$> popped) ∧
    (∀ q, q ∈ pq (hp s) ↔ q ∈ popped ∨ q ∈ pq (hp s')) ∧
    (∀ q, q ∈ popped → q ∉ pq (hp s')) ∧
    (∀ k p, m s' !! k = Some p ↔ m s !! k = Some p ∧ p ∉ popped) ∧
    same_items (hp s) (hp s') ∧
    (err = None →
       ∀ p, last (pq (hp s')) = Some p → (nowFunc s (env s)).1 ≤ dtp (hp s) p).
Proof.
  intros ops s.
  assert (HI : Inv s) by (refine (Ex_Inv_env ops 700 _ _ _); ex_history).
  split; [exact HI|]. exact (X18_earlier_prune_evicts_only_due s HI).
Defined.

Lemma X19_Get_untracked_prune_error_witness :
  let ops := [(0, OpGet "a"); (0, OpRelease "a" 0)] in
  let s := set_env 10 (Ex.after ops) in
  let s1 := Ex.after (ops ++ [(10, OpPrune)]) in
  let e := errorString "boom" in
  Inv s ∧ m s !! "n" = None ∧ Prune s = Ok (Some e, s1) ∧
  Get "n" s = Ok ((zero, Some e), s1) ∧ m s1 !! "n" = None ∧
  length (mem (hp s1)) = length (mem (hp s)) ∧
  (∃ evs, calls s1 = calls s ++ EvNow :: evs ∧
          ∀ ev, ev ∈ evs → ∃ k' v, ev = EvDestruct k' v ∧ k' ≠ "n") ∧
  ∃ d k' v w, destructor s = Some d ∧ d v w = (Some e, env s1) ∧
              last (calls s1) = Some (EvDestruct k' v).
Proof.
  intros ops s s1 e.
  assert (HI : Inv s) by (refine (Ex_Inv_env ops 10 _ _ _); ex_history).
  assert (Hk : m s !! "n" = None) by (vm_compute; reflexivity).
  assert (HP : Prune s = Ok (Some e, s1)) by (vm_compute; reflexivity).
  split; [exact HI|]. split; [exact Hk|]. split; [exact HP|].
  exact (X19_Get_untracked_prune_error s "n" e s1 HI Hk HP).
Defined.
